(** * Daytona: runner-fleet autoscaler and preview-proxy authentication

  A shallow embedding of two Go programs of the repository:

  - the runner-manager control loop ([gatherClusterState],
    [calculateResourceMetrics], [shouldScaleUp], [handleScaleUp],
    [handleScaleDown], [getNodeAllocatableResources]);
  - the proxy credential resolver ([Authenticate],
    [getSandboxIdFromSignedPreviewUrlToken]).

  Go's [float32] and [float64] are IEEE-754 binary32 and binary64; they
  are modelled by the Standard Library's [spec_float] with the
  operations of [SpecFloat] at precision 24/53.  Go's [int] is the
  64-bit two's complement integer, modelled as [Z] with the wrap-around
  written out.  Go maps are [gmap]s, Go sets ([map[string]bool] only ever
  set to [true]) are [gset]s. *)

From Stdlib Require Import ZArith Zpower List Bool Lia.
From Stdlib Require Import Floats.SpecFloat.
From stdpp Require Import gmap strings list.

Local Open Scope Z_scope.

(** ** Machine integers *)

Module GoInt.

Definition min_int : Z := - 2 ^ 63.
Definition max_int : Z := 2 ^ 63 - 1.

(** Two's complement wrap-around of a 64-bit signed integer. *)
Definition wrap (z : Z) : Z := (z + 2 ^ 63) mod 2 ^ 64 - 2 ^ 63.

Definition in_range (z : Z) : Prop := min_int <= z <= max_int.

Definition add (a b : Z) : Z := wrap (a + b).
Definition sub (a b : Z) : Z := wrap (a - b).

(** [len(s)] of a slice. *)
Definition len {A} (l : list A) : Z := Z.of_nat (length l).

(** The [max] helper of the runner-manager. *)
Definition max (a b : Z) : Z := if Z.ltb b a then a else b.

End GoInt.

(** ** IEEE-754 binary32: Go's [float32] *)

Module F32.

Definition prec : Z := 24.
Definition emax : Z := 128.

Definition zero : spec_float := S754_zero false.

Definition add : spec_float -> spec_float -> spec_float := SFadd prec emax.
Definition sub : spec_float -> spec_float -> spec_float := SFsub prec emax.
Definition mul : spec_float -> spec_float -> spec_float := SFmul prec emax.
Definition div : spec_float -> spec_float -> spec_float := SFdiv prec emax.

Definition is_nan (x : spec_float) : bool :=
  match x with
  | S754_nan => true
  | _ => false
  end.

(** [a < b]; false as soon as one side is NaN. *)
Definition ltb (a b : spec_float) : bool := SFltb a b.
(** [a > b] is [b < a]. *)
Definition gtb (a b : spec_float) : bool := SFltb b a.
(** [a >= b] is [b <= a]; false as soon as one side is NaN. *)
Definition geb (a b : spec_float) : bool := SFleb b a.

(** The conversion [float32(n)] of an integer: round to nearest even. *)
Definition of_int (n : Z) : spec_float := binary_normalize prec emax n 0 false.

Definition valid (x : spec_float) : bool := valid_binary prec emax x.

End F32.

(** ** IEEE-754 binary64: Go's [float64] *)

Module F64.

Definition prec : Z := 53.
Definition emax : Z := 1024.

Definition div : spec_float -> spec_float -> spec_float := SFdiv prec emax.

Definition valid (x : spec_float) : bool := valid_binary prec emax x.

(** The conversion [float64(x)] of a [float32]: the value is kept, the
    mantissa is re-aligned to 53 bits. *)
Definition of_f32 (x : spec_float) : spec_float :=
  match x with
  | S754_finite s m e => binary_round prec emax s m e
  | _ => x
  end.

(** [math.Ceil]: [Ceil(±0) = ±0], [Ceil(±Inf) = ±Inf], [Ceil(NaN) = NaN];
    a negative value above -1 gives -0. *)
Definition ceil (x : spec_float) : spec_float :=
  match x with
  | S754_finite s m e =>
      if Z.leb 0 e then x
      else
        let k := Z.opp e in
        let c := if s then Z.shiftr (Zpos m) k
                 else Z.opp (Z.shiftr (Z.opp (Zpos m)) k) in
        match c with
        | Z0 => S754_zero s
        | Zpos p => binary_round prec emax s p 0
        | Zneg _ => S754_nan
        end
  | _ => x
  end.

(** The value produced by the conversion instruction when the operand
    is NaN, infinite or out of range (the "integer indefinite" value of
    the amd64 instruction; the language leaves it to the
    implementation). *)
Definition int_indefinite : Z := GoInt.min_int.

(** The conversion [int(x)] of a [float64]: truncation toward zero. *)
Definition to_int (x : spec_float) : Z :=
  match x with
  | S754_zero _ => 0
  | S754_finite s m e =>
      let a := if Z.leb 0 e then Z.shiftl (Zpos m) e
               else Z.shiftr (Zpos m) (Z.opp e) in
      let v := if s then Z.opp a else a in
      if Z.leb GoInt.min_int v && Z.leb v GoInt.max_int then v
      else int_indefinite
  | _ => int_indefinite
  end.

(** The conversion [int(x)] is defined by the language: [x] is a number
    whose integer part is an [int]. *)
Definition fits_int (x : spec_float) : bool :=
  match x with
  | S754_zero _ => true
  | S754_finite s m e =>
      let a := if Z.leb 0 e then Z.shiftl (Zpos m) e
               else Z.shiftr (Zpos m) (Z.opp e) in
      let v := if s then Z.opp a else a in
      Z.leb GoInt.min_int v && Z.leb v GoInt.max_int
  | _ => false
  end.

End F64.

(** ** Auxiliary notions of the rounding proofs

    The last two bits of a shifted mantissa (round and sticky bit) are kept
    with it in one "sticky" integer, so that shifting, rounding to nearest
    even and the order of the results can be stated on integers. *)

Module Rounding.

(** [stk n D] is the sticky floor of [n / D]: twice the quotient, plus one
    when the division is not exact. *)
Definition stk (n D : Z) : Z := 2 * (n / D) + (if n mod D =? 0 then 0 else 1).

(** A bit as a number. *)
Definition b2z (b : bool) : Z := if b then 1 else 0.

(** The mantissa of a record with its round and sticky bits appended. *)
Definition Nrec (mrs : shr_record) : Z :=
  4 * shr_m mrs + 2 * b2z (shr_r mrs) + b2z (shr_s mrs).

(** The round and sticky bits that a location stands for. *)
Definition code (l : location) : Z :=
  match l with
  | loc_Exact => 0
  | loc_Inexact Lt => 1
  | loc_Inexact Eq => 2
  | loc_Inexact Gt => 3
  end.

(** Rounding a sticky integer to the nearest mantissa, ties to even. *)
Definition RNE (N : Z) : Z :=
  let m := N / 4 in
  let c := N mod 4 in
  if c <=? 1 then m
  else if c =? 2 then (if Z.even m then m else m + 1)
  else m + 1.

(** Zero or a finite number. *)
Definition is_finite (x : spec_float) : bool :=
  match x with
  | S754_zero _ | S754_finite _ _ _ => true
  | _ => false
  end.

Section Format.

Variables prec emax : Z.

Abbreviation emin := (SpecFloat.emin prec emax).
Abbreviation fexp := (SpecFloat.fexp prec emax).

(** The end of [binary_round_aux]: renormalisation after a carry, and the
    overflow test. *)
Definition finish (m1 t : Z) : spec_float :=
  let '(mrs'', e'') := shr_fexp prec emax m1 t loc_Exact in
  match shr_m mrs'' with
  | Z0 => S754_zero false
  | Zpos m => if e'' <=? emax - prec then S754_finite false m e'' else S754_infinity false
  | Zneg _ => S754_nan
  end.

(** The position of mantissa [m] at exponent [t] among the floats. *)
Definition K (t m : Z) : Z := (t - emin) * 2 ^ (prec - 1) + m.

(** The position of the first number beyond the finite floats. *)
Definition Kinf : Z := K (emax - prec + 1) (2 ^ (prec - 1)).

(** An order-preserving integer code of the non-negative floats. *)
Definition fkey (x : spec_float) : Z :=
  match x with
  | S754_zero _ => 0
  | S754_finite _ m e => K e (Zpos m)
  | S754_infinity _ => Kinf
  | S754_nan => 0
  end.

(** [+0], [+Inf] and the positive finite floats in canonical form. *)
Definition good (x : spec_float) : Prop :=
  match x with
  | S754_zero s => s = false
  | S754_infinity s => s = false
  | S754_nan => False
  | S754_finite s m e =>
      s = false /\ emin <= e <= emax - prec /\ Zpos m < 2 ^ prec
      /\ (emin < e -> 2 ^ (prec - 1) <= Zpos m)
  end.

(** Rounding to nearest even of the number whose sticky integer, counted
    in units of [2 ^ (emin - 1)], is [S]. *)
Definition Rs (S : Z) : spec_float :=
  let t := fexp (Zdigits2 (S / 4) + emin) in
  finish (RNE (stk S (2 ^ (t - emin + 1)))) t.

(** The value of a finite float, counted in units of [2 ^ emin]. *)
Definition ival (x : spec_float) : Z :=
  match x with
  | S754_finite _ m e => Zpos m * 2 ^ (e - emin)
  | _ => 0
  end.

(** The signed value of a finite float, in units of [2 ^ emin]. *)
Definition sval (a : spec_float) : Z :=
  match a with
  | S754_finite s m e => cond_Zopp s (Zpos m * 2 ^ (e - emin))
  | _ => 0
  end.

(** The sticky integer of the quotient of two positive floats. *)
Definition Sdiv (m1 e1 m2 e2 : Z) : Z :=
  stk (2 * m1 * 2 ^ Z.max (e1 - e2 - emin) 0) (m2 * 2 ^ Z.max (- (e1 - e2 - emin)) 0).

End Format.

(** The integer part of a canonical [float64]. *)
Definition trunc64 (x : spec_float) : Z := ival F64.prec F64.emax x / 2 ^ 1074.

(** The smallest integer that is not below a canonical [float64]. *)
Definition cval64 (x : spec_float) : Z := - (- ival F64.prec F64.emax x / 2 ^ 1074).

End Rounding.

(** ** Results of fallible calls: a value, or Go's non-nil [error] *)

Inductive result (A : Type) : Type :=
| Ok (a : A)
| Err (msg : string).
Arguments Ok {A} a.
Arguments Err {A} msg.

(** * The runner-manager *)

Module RunnerManager.

(** ** Data model *)

(** [daytona.RunnerFull], the fields the controller reads.  The generated
    client keeps optional fields behind pointers; the [Get*] accessors
    return the zero value for a nil pointer, the [Get*Ok] accessors the
    pointer itself. *)
Record RunnerFull : Type := {
  runner_Name : string;
  runner_Domain : option string;
  runner_Cpu : spec_float;
  runner_Memory : spec_float;
  runner_CurrentAllocatedCpu : option spec_float;
  runner_CurrentAllocatedMemoryGiB : option spec_float;
  runner_CurrentAllocatedDiskGiB : option spec_float;
  runner_CurrentStartedSandboxes : option spec_float;
  runner_CurrentSnapshotCount : option spec_float;
  runner_Unschedulable : bool
}.

Definition GetName (r : RunnerFull) : string := runner_Name r.
Definition GetDomain (r : RunnerFull) : string := default "" (runner_Domain r).
Definition GetCpu (r : RunnerFull) : spec_float := runner_Cpu r.
Definition GetMemory (r : RunnerFull) : spec_float := runner_Memory r.
Definition GetCurrentAllocatedCpu (r : RunnerFull) : spec_float :=
  default F32.zero (runner_CurrentAllocatedCpu r).
Definition GetCurrentAllocatedMemoryGiB (r : RunnerFull) : spec_float :=
  default F32.zero (runner_CurrentAllocatedMemoryGiB r).
Definition GetCurrentAllocatedDiskGiB (r : RunnerFull) : spec_float :=
  default F32.zero (runner_CurrentAllocatedDiskGiB r).
Definition GetCurrentStartedSandboxes (r : RunnerFull) : spec_float :=
  default F32.zero (runner_CurrentStartedSandboxes r).
Definition GetCurrentSnapshotCount (r : RunnerFull) : spec_float :=
  default F32.zero (runner_CurrentSnapshotCount r).
Definition GetUnschedulable (r : RunnerFull) : bool := runner_Unschedulable r.
Definition GetCurrentAllocatedCpuOk (r : RunnerFull) : option spec_float :=
  runner_CurrentAllocatedCpu r.
Definition GetCurrentAllocatedMemoryGiBOk (r : RunnerFull) : option spec_float :=
  runner_CurrentAllocatedMemoryGiB r.

(** [resource.Quantity], seen through the two accessors the controller
    calls; both return an [int64]. *)
Record Quantity : Type := {
  MilliValue : Z;
  Value : Z
}.

(** The zero [Quantity], which indexing a Go map yields for a missing key. *)
Definition zeroQuantity : Quantity := {| MilliValue := 0; Value := 0 |}.

Definition ResourceCPU : string := "cpu".
Definition ResourceMemory : string := "memory".

(** [corev1.Node]: [Name], [Spec.Unschedulable], the addresses of
    [Status.Addresses] and [Status.Allocatable]. *)
Record Node : Type := {
  node_Name : string;
  node_Unschedulable : bool;
  node_Addresses : list string;
  node_Allocatable : gmap string Quantity
}.

(** [corev1.Pod]: [Name] and [Spec.NodeName]. *)
Record Pod : Type := {
  pod_Name : string;
  pod_NodeName : string
}.

(** The numeric part of [Config]. *)
Record Config : Type := {
  MaxResourceUtilizationPercent : Z;
  MinIdleRunners : Z;
  MinIdleCpu : Z;
  MinIdleMemory : Z
}.

Record ClusterState : Type := {
  Runners : list RunnerFull;
  ActiveRunners : list RunnerFull;
  DeletableRunners : list RunnerFull;
  IdleRunners : list RunnerFull;
  RunnerByDomain : gmap string RunnerFull;
  PendingPlaceholders : list Pod;
  ScheduledPlaceholders : list Pod;
  Nodes : list Node;
  NodeByIP : gmap string Node;
  NascentNodes : list Node
}.

Record ResourceMetrics : Type := {
  TotalCPUCapacity : spec_float;
  TotalMemoryGiBCapacity : spec_float;
  TotalAllocatedCPU : spec_float;
  TotalAllocatedMemoryGiB : spec_float;
  TotalAvailableCPU : spec_float;
  TotalAvailableMemoryGiB : spec_float;
  AvgCpuPerNode : spec_float;
  AvgMemPerNode : spec_float
}.

(** The commands the controller sends to the Kubernetes API.  Their
    outcome is only logged, so a tick is described by the list of
    commands it issues. *)
Inductive Action : Type :=
  | CreatePlaceholder
  | DeletePod (name : string).

(** ** Helpers *)

Definition extractNodeIPs (node : Node) : list string := node_Addresses node.

(** Returns CPU in cores, memory in GiB and the error ([None] is Go's
    [nil]). *)
Definition getNodeAllocatableResources (node : Node)
  : spec_float * spec_float * option string :=
  let cpuAllocatable := default zeroQuantity (node_Allocatable node !! ResourceCPU) in
  let memoryAllocatable := default zeroQuantity (node_Allocatable node !! ResourceMemory) in
  let cpuCores := F32.div (F32.of_int (MilliValue cpuAllocatable)) (F32.of_int 1000) in
  let memoryBytes := Value memoryAllocatable in
  let memoryGiB := F32.div (F32.of_int memoryBytes) (F32.of_int (1024 * 1024 * 1024)) in
  (cpuCores, memoryGiB, None).

(** ** gatherClusterState *)

Definition isAllocated (runner : RunnerFull) : bool :=
  F32.gtb (GetCurrentAllocatedCpu runner) F32.zero
  || F32.gtb (GetCurrentAllocatedMemoryGiB runner) F32.zero
  || F32.gtb (GetCurrentAllocatedDiskGiB runner) F32.zero
  || F32.gtb (GetCurrentStartedSandboxes runner) F32.zero
  || F32.gtb (GetCurrentSnapshotCount runner) F32.zero.

Definition emptyState : ClusterState :=
  {| Runners := []; ActiveRunners := []; DeletableRunners := [];
     IdleRunners := []; RunnerByDomain := ∅; PendingPlaceholders := [];
     ScheduledPlaceholders := []; Nodes := []; NodeByIP := ∅;
     NascentNodes := [] |}.

(** One iteration of the loop that categorises runners. *)
Definition categorizeRunner (state : ClusterState) (runner : RunnerFull) : ClusterState :=
  let domain := GetDomain runner in
  let byDomain :=
    if decide (domain = "") then RunnerByDomain state
    else <[domain := runner]> (RunnerByDomain state) in
  let active := ActiveRunners state in
  let deletable := DeletableRunners state in
  let idle := IdleRunners state in
  {| Runners := Runners state;
     ActiveRunners := if isAllocated runner then active ++ [runner] else active;
     DeletableRunners :=
       if isAllocated runner then deletable
       else if GetUnschedulable runner then deletable ++ [runner] else deletable;
     IdleRunners :=
       if isAllocated runner then idle
       else if GetUnschedulable runner then idle else idle ++ [runner];
     RunnerByDomain := byDomain;
     PendingPlaceholders := PendingPlaceholders state;
     ScheduledPlaceholders := ScheduledPlaceholders state;
     Nodes := Nodes state;
     NodeByIP := NodeByIP state;
     NascentNodes := NascentNodes state |}.

(** One iteration of the loop that categorises placeholder pods. *)
Definition categorizePlaceholder (state : ClusterState) (pod : Pod) : ClusterState :=
  {| Runners := Runners state;
     ActiveRunners := ActiveRunners state;
     DeletableRunners := DeletableRunners state;
     IdleRunners := IdleRunners state;
     RunnerByDomain := RunnerByDomain state;
     PendingPlaceholders :=
       if decide (pod_NodeName pod = "") then PendingPlaceholders state ++ [pod]
       else PendingPlaceholders state;
     ScheduledPlaceholders :=
       if decide (pod_NodeName pod = "") then ScheduledPlaceholders state
       else ScheduledPlaceholders state ++ [pod];
     Nodes := Nodes state;
     NodeByIP := NodeByIP state;
     NascentNodes := NascentNodes state |}.

(** One iteration of the loop that builds the node IP mapping. *)
Definition indexNode (byIP : gmap string Node) (node : Node) : gmap string Node :=
  fold_left (fun m ip => <[ip := node]> m) (extractNodeIPs node) byIP.

Definition hasRunner (byDomain : gmap string RunnerFull) (node : Node) : bool :=
  existsb (fun ip => bool_decide (is_Some (byDomain !! ip))) (extractNodeIPs node).

(** One iteration of the loop that identifies nascent nodes. *)
Definition nascentStep (byDomain : gmap string RunnerFull) (scheduled : list Pod)
    (nascent : list Node) (node : Node) : list Node :=
  if node_Unschedulable node then nascent
  else if hasRunner byDomain node then nascent
  else if existsb (fun pod => bool_decide (pod_NodeName pod = node_Name node)) scheduled
       then nascent ++ [node]
       else nascent.

(** What the three list calls of one tick return. *)
Record Fetched : Type := {
  fetchedRunners : result (list RunnerFull);
  fetchedPlaceholders : result (list Pod);
  fetchedNodes : result (list Node)
}.

Definition gatherClusterState (api : Fetched) : result ClusterState :=
  match fetchedRunners api with
  | Err e => Err ("failed to list runners from Daytona API: " +:+ e)
  | Ok runners =>
      let state := {| Runners := runners; ActiveRunners := []; DeletableRunners := [];
                      IdleRunners := []; RunnerByDomain := ∅; PendingPlaceholders := [];
                      ScheduledPlaceholders := []; Nodes := []; NodeByIP := ∅;
                      NascentNodes := [] |} in
      let state := fold_left categorizeRunner runners state in
      match fetchedPlaceholders api with
      | Err e => Err ("error listing placeholder pods: " +:+ e)
      | Ok allPlaceholders =>
          let state := fold_left categorizePlaceholder allPlaceholders state in
          match fetchedNodes api with
          | Err e => Err ("error listing K8s nodes: " +:+ e)
          | Ok nodes =>
              let byIP := fold_left indexNode nodes (NodeByIP state) in
              let nascent :=
                fold_left (nascentStep (RunnerByDomain state) (ScheduledPlaceholders state))
                          nodes (NascentNodes state) in
              Ok {| Runners := Runners state;
                    ActiveRunners := ActiveRunners state;
                    DeletableRunners := DeletableRunners state;
                    IdleRunners := IdleRunners state;
                    RunnerByDomain := RunnerByDomain state;
                    PendingPlaceholders := PendingPlaceholders state;
                    ScheduledPlaceholders := ScheduledPlaceholders state;
                    Nodes := nodes;
                    NodeByIP := byIP;
                    NascentNodes := nascent |}
          end
      end
  end.

(** ** calculateResourceMetrics *)

(** One iteration of the first loop: capacity reported by a schedulable
    runner, and the name of the node its domain resolves to. *)
Definition runnerCapacityStep (byIP : gmap string Node)
    (acc : spec_float * spec_float * gset string) (runner : RunnerFull)
  : spec_float * spec_float * gset string :=
  let '(cpu, mem, nodesWithRunners) := acc in
  if negb (GetUnschedulable runner) then
    let cpu := F32.add cpu (GetCpu runner) in
    let mem := F32.add mem (GetMemory runner) in
    let domain := GetDomain runner in
    if decide (domain = "") then (cpu, mem, nodesWithRunners)
    else
      match byIP !! domain with
      | Some node => (cpu, mem, {[ node_Name node ]} ∪ nodesWithRunners)
      | None => (cpu, mem, nodesWithRunners)
      end
  else acc.

(** One iteration of the second loop: fallback to the allocatable
    resources of a schedulable node that has no runner. *)
Definition nodeCapacityStep (nodesWithRunners : gset string)
    (acc : spec_float * spec_float) (node : Node) : spec_float * spec_float :=
  let '(cpu, mem) := acc in
  if node_Unschedulable node then acc
  else if bool_decide (node_Name node ∈ nodesWithRunners) then acc
  else
    match getNodeAllocatableResources node with
    | (_, _, Some _) => acc
    | (nodeCpu, nodeMem, None) => (F32.add cpu nodeCpu, F32.add mem nodeMem)
    end.

(** One iteration of the third loop: allocation of an active runner. *)
Definition allocatedStep (acc : spec_float * spec_float) (runner : RunnerFull)
  : spec_float * spec_float :=
  let '(cpu, mem) := acc in
  let cpu := match GetCurrentAllocatedCpuOk runner with
             | Some allocatedCPU => F32.add cpu allocatedCPU
             | None => cpu
             end in
  let mem := match GetCurrentAllocatedMemoryGiBOk runner with
             | Some allocatedMemory => F32.add mem allocatedMemory
             | None => mem
             end in
  (cpu, mem).

Definition schedulableNodeCount (nodes : list Node) : Z :=
  fold_left (fun n node => if node_Unschedulable node then n else GoInt.add n 1) nodes 0.

Definition calculateResourceMetrics (state : ClusterState) : ResourceMetrics :=
  let '(cpu, mem, nodesWithRunners) :=
    fold_left (runnerCapacityStep (NodeByIP state)) (Runners state)
              (F32.zero, F32.zero, ∅) in
  let '(cpu, mem) := fold_left (nodeCapacityStep nodesWithRunners) (Nodes state) (cpu, mem) in
  let '(allocCpu, allocMem) :=
    fold_left allocatedStep (ActiveRunners state) (F32.zero, F32.zero) in
  let count := schedulableNodeCount (Nodes state) in
  {| TotalCPUCapacity := cpu;
     TotalMemoryGiBCapacity := mem;
     TotalAllocatedCPU := allocCpu;
     TotalAllocatedMemoryGiB := allocMem;
     TotalAvailableCPU := F32.sub cpu allocCpu;
     TotalAvailableMemoryGiB := F32.sub mem allocMem;
     AvgCpuPerNode := if Z.ltb 0 count then F32.div cpu (F32.of_int count) else F32.zero;
     AvgMemPerNode := if Z.ltb 0 count then F32.div mem (F32.of_int count) else F32.zero |}.

(** ** shouldScaleUp and handleScaleUp *)

Definition isCpuUtilizationTooHigh (metrics : ResourceMetrics) (cfg : Config) : bool :=
  if F32.gtb (TotalCPUCapacity metrics) F32.zero then
    F32.gtb (F32.mul (F32.div (TotalAllocatedCPU metrics) (TotalCPUCapacity metrics))
                     (F32.of_int 100))
            (F32.of_int (MaxResourceUtilizationPercent cfg))
  else false.

Definition isMemUtilizationTooHigh (metrics : ResourceMetrics) (cfg : Config) : bool :=
  if F32.gtb (TotalMemoryGiBCapacity metrics) F32.zero then
    F32.gtb (F32.mul (F32.div (TotalAllocatedMemoryGiB metrics) (TotalMemoryGiBCapacity metrics))
                     (F32.of_int 100))
            (F32.of_int (MaxResourceUtilizationPercent cfg))
  else false.

Definition isUtilizationTooHigh (metrics : ResourceMetrics) (cfg : Config) : bool :=
  isCpuUtilizationTooHigh metrics cfg || isMemUtilizationTooHigh metrics cfg.

Definition isCpuIdleTooLow (metrics : ResourceMetrics) (cfg : Config) : bool :=
  F32.ltb (TotalAvailableCPU metrics) (F32.of_int (MinIdleCpu cfg)).

Definition isMemIdleTooLow (metrics : ResourceMetrics) (cfg : Config) : bool :=
  F32.ltb (TotalAvailableMemoryGiB metrics) (F32.of_int (MinIdleMemory cfg)).

Definition shouldScaleUp (metrics : ResourceMetrics) (cfg : Config)
    (idleRunnersCount nascentNodesCount : Z) : bool :=
  let totalIdleRunnersIncludingNascent := GoInt.add idleRunnersCount nascentNodesCount in
  let isIdleRunnerBufferTooLow :=
    Z.ltb totalIdleRunnersIncludingNascent (MinIdleRunners cfg) in
  isUtilizationTooHigh metrics cfg || isIdleRunnerBufferTooLow
  || isCpuIdleTooLow metrics cfg || isMemIdleTooLow metrics cfg.

(** [int(math.Ceil(float64(float32(minIdle) - available) / float64(avg)))] *)
Definition deficitNodes (minIdle : Z) (available avg : spec_float) : Z :=
  F64.to_int (F64.ceil (F64.div (F64.of_f32 (F32.sub (F32.of_int minIdle) available))
                                (F64.of_f32 avg))).

(** The value of [nodesNeededFromDeficit] when it is used. *)
Definition nodesNeeded (cfg : Config) (state : ClusterState) (metrics : ResourceMetrics) : Z :=
  let totalIdleRunnersIncludingNascent :=
    GoInt.add (GoInt.len (IdleRunners state)) (GoInt.len (NascentNodes state)) in
  let isIdleRunnerBufferTooLow :=
    Z.ltb totalIdleRunnersIncludingNascent (MinIdleRunners cfg) in
  let nodesNeededFromDeficit := 0 in
  let nodesNeededFromDeficit :=
    if isCpuIdleTooLow metrics cfg && F32.gtb (AvgCpuPerNode metrics) F32.zero then
      let needed := deficitNodes (MinIdleCpu cfg) (TotalAvailableCPU metrics)
                                 (AvgCpuPerNode metrics) in
      GoInt.max nodesNeededFromDeficit needed
    else nodesNeededFromDeficit in
  let nodesNeededFromDeficit :=
    if isMemIdleTooLow metrics cfg && F32.gtb (AvgMemPerNode metrics) F32.zero then
      let needed := deficitNodes (MinIdleMemory cfg) (TotalAvailableMemoryGiB metrics)
                                 (AvgMemPerNode metrics) in
      GoInt.max nodesNeededFromDeficit needed
    else nodesNeededFromDeficit in
  let nodesNeededFromDeficit :=
    if isIdleRunnerBufferTooLow then
      let needed := GoInt.sub (MinIdleRunners cfg) totalIdleRunnersIncludingNascent in
      GoInt.max nodesNeededFromDeficit needed
    else nodesNeededFromDeficit in
  if isUtilizationTooHigh metrics cfg && Z.eqb nodesNeededFromDeficit 0 then 1
  else nodesNeededFromDeficit.

(** The value of [nodesToCreate]. *)
Definition nodesToCreate (cfg : Config) (state : ClusterState) (metrics : ResourceMetrics) : Z :=
  GoInt.sub (nodesNeeded cfg state metrics) (GoInt.len (PendingPlaceholders state)).

(** The loop [for i := 0; i < n; i++] around [createPlaceholderPod]. *)
Definition createPlaceholderPods (n : Z) : list Action :=
  repeat CreatePlaceholder (Z.to_nat n).

(** Returns whether scale-up was triggered, and the commands issued. *)
Definition handleScaleUp (cfg : Config) (state : ClusterState) (metrics : ResourceMetrics)
  : bool * list Action :=
  let nodesToCreate := nodesToCreate cfg state metrics in
  if Z.ltb 0 nodesToCreate then (true, createPlaceholderPods nodesToCreate)
  else (false, []).

(** ** handleScaleDown *)

Definition isSafeToDelete (cfg : Config) (metrics : ResourceMetrics)
    (nodeCpuCapacity nodeMemCapacity : spec_float) : bool :=
  let hypotheticalAvailableCpu := F32.sub (TotalAvailableCPU metrics) nodeCpuCapacity in
  let hypotheticalAvailableMemoryGiB :=
    F32.sub (TotalAvailableMemoryGiB metrics) nodeMemCapacity in
  let isSafeToDelete := true in
  let isSafeToDelete :=
    if F32.ltb hypotheticalAvailableCpu (F32.of_int (MinIdleCpu cfg)) then false
    else isSafeToDelete in
  let isSafeToDelete :=
    if F32.ltb hypotheticalAvailableMemoryGiB (F32.of_int (MinIdleMemory cfg)) then false
    else isSafeToDelete in
  isSafeToDelete.

(** The first scheduled placeholder on the node, [None] for Go's [nil]. *)
Definition placeholderFound (scheduled : list Pod) (nodeName : string) : option Pod :=
  List.find (fun pod => bool_decide (pod_NodeName pod = nodeName)) scheduled.

(** One iteration of the loop over the deletable runners; the loop only
    carries [placeholdersToDeleteInBatch]. *)
Definition scaleDownStep (cfg : Config) (state : ClusterState) (metrics : ResourceMetrics)
    (placeholdersToDeleteInBatch : list Pod) (runnerToScaleDown : RunnerFull) : list Pod :=
  let domainToScaleDown := GetDomain runnerToScaleDown in
  if decide (domainToScaleDown = "") then placeholdersToDeleteInBatch
  else
    match NodeByIP state !! domainToScaleDown with
    | None => placeholdersToDeleteInBatch
    | Some k8sNode =>
        let nodeName := node_Name k8sNode in
        match getNodeAllocatableResources k8sNode with
        | (_, _, Some _) => placeholdersToDeleteInBatch
        | (nodeCpuCapacity, nodeMemCapacity, None) =>
            if negb (isSafeToDelete cfg metrics nodeCpuCapacity nodeMemCapacity)
            then placeholdersToDeleteInBatch
            else
              match placeholderFound (ScheduledPlaceholders state) nodeName with
              | Some pod => placeholdersToDeleteInBatch ++ [pod]
              | None => placeholdersToDeleteInBatch
              end
        end
    end.

Definition placeholdersToDeleteInBatch (cfg : Config) (state : ClusterState)
    (metrics : ResourceMetrics) : list Pod :=
  fold_left (scaleDownStep cfg state metrics) (DeletableRunners state) [].

Definition deletePods (pods : list Pod) : list Action :=
  map (fun pod => DeletePod (pod_Name pod)) pods.

Definition handleScaleDown (cfg : Config) (state : ClusterState) (metrics : ResourceMetrics)
    (needsScaleUp : bool) : list Action :=
  let pending :=
    if negb needsScaleUp && Z.ltb 0 (GoInt.len (PendingPlaceholders state))
    then deletePods (PendingPlaceholders state) else [] in
  if Z.eqb (GoInt.len (DeletableRunners state)) 0 then pending
  else pending ++ deletePods (placeholdersToDeleteInBatch cfg state metrics).

(** ** One iteration of runControllerLoop *)

Definition tick (cfg : Config) (api : Fetched) : list Action :=
  match gatherClusterState api with
  | Err _ => []
  | Ok state =>
      let metrics := calculateResourceMetrics state in
      let needsScaleUp :=
        shouldScaleUp metrics cfg (GoInt.len (IdleRunners state))
                      (GoInt.len (NascentNodes state)) in
      let '(scaled, created) :=
        if needsScaleUp then handleScaleUp cfg state metrics else (false, []) in
      if scaled then created
      else created ++ handleScaleDown cfg state metrics needsScaleUp
  end.

(** ** Specification vocabulary *)

(** The three classes of a runner, as the specification words them. *)
Definition Active (r : RunnerFull) : Prop :=
  F32.gtb (GetCurrentAllocatedCpu r) F32.zero = true
  \/ F32.gtb (GetCurrentAllocatedMemoryGiB r) F32.zero = true
  \/ F32.gtb (GetCurrentAllocatedDiskGiB r) F32.zero = true
  \/ F32.gtb (GetCurrentStartedSandboxes r) F32.zero = true
  \/ F32.gtb (GetCurrentSnapshotCount r) F32.zero = true.

Definition Deletable (r : RunnerFull) : Prop := ~ Active r /\ GetUnschedulable r = true.

Definition Idle (r : RunnerFull) : Prop := ~ Active r /\ GetUnschedulable r = false.

(** CPU and memory that [getNodeAllocatableResources] reports for a node. *)
Definition nodeCpu (node : Node) : spec_float := fst (fst (getNodeAllocatableResources node)).
Definition nodeMem (node : Node) : spec_float := snd (fst (getNodeAllocatableResources node)).

(** Left-to-right accumulation with [+=], starting from [init]. *)
Definition fsum (init : spec_float) (terms : list spec_float) : spec_float :=
  fold_left F32.add terms init.

Definition schedulableRunners (state : ClusterState) : list RunnerFull :=
  List.filter (fun r => negb (GetUnschedulable r)) (Runners state).

(** The name of the node a runner's domain resolves to. *)
Definition matchedNode (byIP : gmap string Node) (r : RunnerFull) : option string :=
  if decide (GetDomain r = "") then None else node_Name <$> byIP !! GetDomain r.

(** The names of the nodes matched to a schedulable runner. *)
Definition matchedNodes (state : ClusterState) : gset string :=
  list_to_set (omap (matchedNode (NodeByIP state)) (schedulableRunners state)).

(** The schedulable nodes that are matched to no schedulable runner. *)
Definition fallbackNodes (state : ClusterState) : list Node :=
  List.filter (fun n => negb (node_Unschedulable n)
                        && negb (bool_decide (node_Name n ∈ matchedNodes state)))
              (Nodes state).

(** The availability that would be left without the node. *)
Definition hypotheticalAvailableCpu (metrics : ResourceMetrics) (node : Node) : spec_float :=
  F32.sub (TotalAvailableCPU metrics) (nodeCpu node).
Definition hypotheticalAvailableMemoryGiB (metrics : ResourceMetrics) (node : Node)
  : spec_float :=
  F32.sub (TotalAvailableMemoryGiB metrics) (nodeMem node).

(** The scale-down filter turns the node down. *)
Definition rejected (cfg : Config) (metrics : ResourceMetrics) (node : Node) : bool :=
  negb (isSafeToDelete cfg metrics (nodeCpu node) (nodeMem node)).

(** What one candidate contributes to the batch, decided against [metrics]. *)
Definition candidate (cfg : Config) (state : ClusterState) (metrics : ResourceMetrics)
    (r : RunnerFull) : list Pod :=
  scaleDownStep cfg state metrics [] r.

(** The node reports no CPU and no memory: the entries are missing or zero. *)
Definition noAllocatable (node : Node) : Prop :=
  MilliValue (default zeroQuantity (node_Allocatable node !! ResourceCPU)) = 0 /\
  Value (default zeroQuantity (node_Allocatable node !! ResourceMemory)) = 0.

(** The number of placeholder pods a list of commands creates. *)
Definition created (actions : list Action) : Z :=
  GoInt.len (List.filter (fun a => match a with CreatePlaceholder => true | _ => false end)
                         actions).

(** [cfg] with another value of [MinIdleCpu]. *)
Definition withMinIdleCpu (cfg : Config) (minIdleCpu : Z) : Config :=
  {| MaxResourceUtilizationPercent := MaxResourceUtilizationPercent cfg;
     MinIdleRunners := MinIdleRunners cfg;
     MinIdleCpu := minIdleCpu;
     MinIdleMemory := MinIdleMemory cfg |}.

(** Scale-up fires in the tick. *)
Definition scaleUpFires (cfg : Config) (state : ClusterState) (metrics : ResourceMetrics)
  : bool :=
  shouldScaleUp metrics cfg (GoInt.len (IdleRunners state)) (GoInt.len (NascentNodes state)).

(** [nodesToCreate] of a tick, a tick in which scale-up does not fire
    counting as 0. *)
Definition tickNodesToCreate (cfg : Config) (state : ClusterState)
    (metrics : ResourceMetrics) : Z :=
  if scaleUpFires cfg state metrics then nodesToCreate cfg state metrics else 0.

(** The number of placeholder pods that a tick creates. *)
Definition podsCreated (cfg : Config) (state : ClusterState) (metrics : ResourceMetrics) : Z :=
  if scaleUpFires cfg state metrics then Z.max 0 (nodesToCreate cfg state metrics) else 0.

(** The CPU deficit in nodes is a number that the conversion to [int]
    represents. *)
Definition cpuDeficitFits (cfg : Config) (metrics : ResourceMetrics) : bool :=
  F64.fits_int
    (F64.ceil (F64.div (F64.of_f32 (F32.sub (F32.of_int (MinIdleCpu cfg))
                                            (TotalAvailableCPU metrics)))
                       (F64.of_f32 (AvgCpuPerNode metrics)))).

(** ** loadConfig *)

(** [os.Getenv]: the value of the variable, the empty string when it is
    not set. *)
Definition Getenv (env : gmap string string) (key : string) : string :=
  default "" (env !! key).

(** [Config] as [loadConfig] fills it: the five string fields, and the
    numeric fields held in [limits]. *)
Record LoadedConfig : Type := {
  APIPort : string;
  DaytonaAPIURL : string;
  DaytonaAPIKey : string;
  ProviderNamespace : string;
  RegionID : string;
  limits : Config
}.

Section LoadConfig.

(** [strconv.Atoi] *)
Variable Atoi : string -> result Z.

Definition loadConfig (env : gmap string string) : result LoadedConfig :=
  let apiPort := Getenv env "API_PORT" in
  if decide (apiPort = "") then Err "environment variable API_PORT not set" else
  let daytonaAPIURL := Getenv env "DAYTONA_API_URL" in
  if decide (daytonaAPIURL = "") then Err "environment variable DAYTONA_API_URL not set" else
  let daytonaAPIKey := Getenv env "DAYTONA_API_KEY" in
  if decide (daytonaAPIKey = "") then Err "environment variable DAYTONA_API_KEY not set" else
  let providerNamespace := Getenv env "PROVIDER_NAMESPACE" in
  if decide (providerNamespace = "")
  then Err "environment variable PROVIDER_NAMESPACE not set" else
  let regionID := Getenv env "REGION_ID" in
  if decide (regionID = "") then Err "environment variable REGION_ID not set" else
  let maxResourceUtilizationPercentStr := Getenv env "MAX_RESOURCE_UTILIZATION_PERCENT" in
  if decide (maxResourceUtilizationPercentStr = "")
  then Err "environment variable MAX_RESOURCE_UTILIZATION_PERCENT not set" else
  match Atoi maxResourceUtilizationPercentStr with
  | Err err => Err ("invalid MAX_RESOURCE_UTILIZATION_PERCENT: " +:+ err)
  | Ok maxResourceUtilizationPercent =>
  if Z.ltb maxResourceUtilizationPercent 0 || Z.ltb 100 maxResourceUtilizationPercent
  then Err "MAX_RESOURCE_UTILIZATION_PERCENT must be between 0 and 100" else
  let minIdleRunnersStr := Getenv env "MIN_IDLE_RUNNERS" in
  if decide (minIdleRunnersStr = "")
  then Err "environment variable MIN_IDLE_RUNNERS not set" else
  match Atoi minIdleRunnersStr with
  | Err err => Err ("invalid MIN_IDLE_RUNNERS: " +:+ err)
  | Ok minIdleRunners =>
  if Z.ltb minIdleRunners 0 then Err "MIN_IDLE_RUNNERS cannot be negative" else
  let minIdleCpuStr := Getenv env "MIN_IDLE_CPU" in
  if decide (minIdleCpuStr = "") then Err "environment variable MIN_IDLE_CPU not set" else
  match Atoi minIdleCpuStr with
  | Err err => Err ("invalid MIN_IDLE_CPU: " +:+ err)
  | Ok minIdleCpu =>
  if Z.ltb minIdleCpu 0 then Err "MIN_IDLE_CPU cannot be negative" else
  let minIdleMemoryStr := Getenv env "MIN_IDLE_MEMORY" in
  if decide (minIdleMemoryStr = "")
  then Err "environment variable MIN_IDLE_MEMORY not set" else
  match Atoi minIdleMemoryStr with
  | Err err => Err ("invalid MIN_IDLE_MEMORY: " +:+ err)
  | Ok minIdleMemory =>
  if Z.ltb minIdleMemory 0 then Err "MIN_IDLE_MEMORY cannot be negative" else
  Ok {| APIPort := apiPort;
        DaytonaAPIURL := daytonaAPIURL;
        DaytonaAPIKey := daytonaAPIKey;
        ProviderNamespace := providerNamespace;
        RegionID := regionID;
        limits := {| MaxResourceUtilizationPercent := maxResourceUtilizationPercent;
                     MinIdleRunners := minIdleRunners;
                     MinIdleCpu := minIdleCpu;
                     MinIdleMemory := minIdleMemory |} |}
  end end end end.

End LoadConfig.

(** The nine variables that [loadConfig] reads, in the order it reads them. *)
Definition requiredVariables : list string :=
  ["API_PORT"; "DAYTONA_API_URL"; "DAYTONA_API_KEY"; "PROVIDER_NAMESPACE"; "REGION_ID";
   "MAX_RESOURCE_UTILIZATION_PERCENT"; "MIN_IDLE_RUNNERS"; "MIN_IDLE_CPU";
   "MIN_IDLE_MEMORY"].

(** ** generateRandomString *)

Definition charset : string := "abcdefghijklmnopqrstuvwxyz0123456789".

(** [charset[now % int64(len(charset))]] for a reading [now] of
    [time.Now().UnixNano()]: [%] truncates toward zero, and indexing with
    a negative number panics ([None]). *)
Definition charsetByte (now : Z) : option Ascii.ascii :=
  let i := Z.rem now (Z.of_nat (String.length charset)) in
  if Z.ltb i 0 then None else String.get (Z.to_nat i) charset.

(** The loop of [generateRandomString] from iteration [i] on, with [n]
    iterations left; [clock i] is the reading of the clock in iteration
    [i]. *)
Fixpoint writeBytes (clock : nat -> Z) (i n : nat) (result : string) : option string :=
  match n with
  | O => Some result
  | S n' =>
      match charsetByte (clock i) with
      | Some c => writeBytes clock (S i) n' (result +:+ String c EmptyString)
      | None => None
      end
  end.

Definition generateRandomString (clock : nat -> Z) (length : Z) : option string :=
  writeBytes clock 0 (Z.to_nat length) "".

(** ** Vocabulary of the further properties *)

(** The pods that the commands of a tick delete, by name. *)
Definition deleted (actions : list Action) : list string :=
  omap (fun a => match a with DeletePod name => Some name | CreatePlaceholder => None end)
       actions.

(** The last element of a list that satisfies [f]: what a map holds for a
    key after a loop has assigned it once per matching element. *)
Definition lastWith {A} (f : A -> bool) (l : list A) : option A := List.find f (rev l).

(** The node has a runner: one of its addresses is the domain of a runner. *)
Definition nodeHasRunner (state : ClusterState) (node : Node) : Prop :=
  exists ip r, In ip (node_Addresses node) /\ In r (Runners state) /\
               GetDomain r = ip /\ ip <> "".

(** A scheduled placeholder sits on the node. *)
Definition hostsPlaceholder (state : ClusterState) (node : Node) : Prop :=
  exists pod, In pod (ScheduledPlaceholders state) /\ pod_NodeName pod = node_Name node.

(** The allocatable CPU of a node in thousandths of a core, and its
    allocatable memory in bytes. *)
Definition cpuMilli (node : Node) : Z :=
  MilliValue (default zeroQuantity (node_Allocatable node !! ResourceCPU)).
Definition memoryBytes (node : Node) : Z :=
  Value (default zeroQuantity (node_Allocatable node !! ResourceMemory)).

(** [cfg'] asks for at least the idle runners, idle CPU and idle memory of
    [cfg], with the same utilization limit. *)
Definition asksNoLess (cfg cfg' : Config) : Prop :=
  MaxResourceUtilizationPercent cfg' = MaxResourceUtilizationPercent cfg /\
  MinIdleRunners cfg <= MinIdleRunners cfg' /\
  MinIdleCpu cfg <= MinIdleCpu cfg' /\
  MinIdleMemory cfg <= MinIdleMemory cfg'.

(** The memory deficit in nodes is a number that the conversion to [int]
    represents. *)
Definition memDeficitFits (cfg : Config) (metrics : ResourceMetrics) : bool :=
  F64.fits_int
    (F64.ceil (F64.div (F64.of_f32 (F32.sub (F32.of_int (MinIdleMemory cfg))
                                            (TotalAvailableMemoryGiB metrics)))
                       (F64.of_f32 (AvgMemPerNode metrics)))).

(** The numeric fields of a configuration are values that [loadConfig]
    accepts. *)
Definition validLimits (cfg : Config) : Prop :=
  0 <= MaxResourceUtilizationPercent cfg <= 100 /\
  0 <= MinIdleRunners cfg /\ 0 <= MinIdleCpu cfg /\ 0 <= MinIdleMemory cfg.

(** The node that the domain of a runner resolves to. *)
Definition resolvedNode (state : ClusterState) (r : RunnerFull) : option Node :=
  if decide (GetDomain r = "") then None else NodeByIP state !! GetDomain r.

(** [cfg] holds what the environment [env] holds, every variable being
    set and every number being one that [loadConfig] accepts. *)
Definition describes (Atoi : string -> result Z) (env : gmap string string)
    (cfg : LoadedConfig) : Prop :=
  (APIPort cfg = Getenv env "API_PORT" /\ APIPort cfg <> "") /\
  (DaytonaAPIURL cfg = Getenv env "DAYTONA_API_URL" /\ DaytonaAPIURL cfg <> "") /\
  (DaytonaAPIKey cfg = Getenv env "DAYTONA_API_KEY" /\ DaytonaAPIKey cfg <> "") /\
  (ProviderNamespace cfg = Getenv env "PROVIDER_NAMESPACE" /\ ProviderNamespace cfg <> "") /\
  (RegionID cfg = Getenv env "REGION_ID" /\ RegionID cfg <> "") /\
  (Getenv env "MAX_RESOURCE_UTILIZATION_PERCENT" <> "" /\
   Atoi (Getenv env "MAX_RESOURCE_UTILIZATION_PERCENT")
     = Ok (MaxResourceUtilizationPercent (limits cfg))) /\
  (Getenv env "MIN_IDLE_RUNNERS" <> "" /\
   Atoi (Getenv env "MIN_IDLE_RUNNERS") = Ok (MinIdleRunners (limits cfg))) /\
  (Getenv env "MIN_IDLE_CPU" <> "" /\
   Atoi (Getenv env "MIN_IDLE_CPU") = Ok (MinIdleCpu (limits cfg))) /\
  (Getenv env "MIN_IDLE_MEMORY" <> "" /\
   Atoi (Getenv env "MIN_IDLE_MEMORY") = Ok (MinIdleMemory (limits cfg))) /\
  validLimits (limits cfg).

End RunnerManager.

(** * The preview proxy: credential resolution *)

Module ProxyAuth.

(** ** Data model *)

(** The part of [http.Request] the resolver reads and rewrites: the
    header (by canonical name, [Get] returns the empty string for a
    missing name), the parsed query string, the cookies and the host. *)
Record Request : Type := {
  Header : gmap string string;
  Query : gmap string (list string);
  Cookies : gmap string string;
  Host : string
}.

(** A cookie handed to [ctx.SetCookie]. *)
Record SetCookie : Type := {
  cookie_Name : string;
  cookie_Value : string;
  cookie_MaxAge : Z;
  cookie_Path : string;
  cookie_Domain : string;
  cookie_Secure : bool;
  cookie_HttpOnly : bool
}.

(** Calls to the collaborators, in the order they are made. *)
Inductive Call : Type :=
  | CallBearerTokenValid (sandboxId token : string)
  | CallAuthKeyValid (sandboxId authKey : string)
  | CallCookieDecode (name value : string)
  | CallSignedPreviewUrlToken (token : string) (port : spec_float)
  | CallCookieEncode (name value : string)
  | CallGetAuthUrl (sandboxId : string).

(** [gin.Context]: the request, what has been written to the response,
    and the collaborator calls made so far. *)
Record Context : Type := {
  ctx_Request : Request;
  ctx_SetCookies : list SetCookie;
  ctx_Redirect : option (Z * string);
  ctx_Calls : list Call
}.

(** Package-level names declared outside this file, and the library
    function [strings.TrimSpace]. *)
Record Package : Type := {
  SANDBOX_AUTH_KEY_HEADER : string;
  SANDBOX_AUTH_KEY_QUERY_PARAM : string;
  SANDBOX_AUTH_COOKIE_NAME : string;
  TrimSpace : string -> string
}.

(** The receiver [p *Proxy]: its configuration, its cookie codec, and
    the methods and API client it calls; a call answers either a value
    or an error. *)
Record Proxy : Type := {
  EnableTLS : bool;
  getSandboxBearerTokenValid : string -> string -> result (option bool);
  getSandboxAuthKeyValid : string -> string -> result (option bool);
  secureCookie_Decode : string -> string -> result string;
  secureCookie_Encode : string -> string -> result string;
  GetSandboxIdFromSignedPreviewUrlToken : string -> spec_float -> result string;
  getCookieDomain : string -> string;
  getAuthUrl : Request -> string -> result string
}.

(** What a block of [Authenticate] does: it returns from the function,
    or falls through with the failure reasons collected so far. *)
Inductive Flow : Type :=
  | Return (sandboxId : string) (didRedirect : bool) (err : option string)
  | Continue (authErrors : list string).

Definition StatusTemporaryRedirect : Z := 307.

Definition newline : string := String (Ascii.ascii_of_nat 10) EmptyString.

(** [strings.Join] *)
Fixpoint Join (elems : list string) (sep : string) : string :=
  match elems with
  | [] => ""
  | [s] => s
  | s :: rest => s +:+ sep +:+ Join rest sep
  end.

(** [strings.HasPrefix] *)
Definition HasPrefix (s pre : string) : bool := String.prefix pre s.

(** [strings.TrimPrefix] *)
Definition TrimPrefix (s pre : string) : string :=
  if HasPrefix s pre
  then String.substring (String.length pre) (String.length s - String.length pre) s
  else s.

Definition missingAuthentication : string :=
  "missing authentication: provide a preview access token (via header, query parameter, or cookie) or use an API key or JWT".

(** ** Updates of the context *)

Definition recordCall (c : Call) (ctx : Context) : Context :=
  {| ctx_Request := ctx_Request ctx;
     ctx_SetCookies := ctx_SetCookies ctx;
     ctx_Redirect := ctx_Redirect ctx;
     ctx_Calls := ctx_Calls ctx ++ [c] |}.

Definition setRequest (r : Request) (ctx : Context) : Context :=
  {| ctx_Request := r;
     ctx_SetCookies := ctx_SetCookies ctx;
     ctx_Redirect := ctx_Redirect ctx;
     ctx_Calls := ctx_Calls ctx |}.

(** [ctx.Request.Header.Del(name)] *)
Definition headerDel (name : string) (ctx : Context) : Context :=
  let r := ctx_Request ctx in
  setRequest {| Header := delete name (Header r); Query := Query r;
                Cookies := Cookies r; Host := Host r |} ctx.

(** [newQuery.Del(name)] followed by the assignment of
    [newQuery.Encode()] to [ctx.Request.URL.RawQuery]. *)
Definition queryDel (name : string) (ctx : Context) : Context :=
  let r := ctx_Request ctx in
  setRequest {| Header := Header r; Query := delete name (Query r);
                Cookies := Cookies r; Host := Host r |} ctx.

(** [ctx.SetCookie] *)
Definition setCookie (c : SetCookie) (ctx : Context) : Context :=
  {| ctx_Request := ctx_Request ctx;
     ctx_SetCookies := ctx_SetCookies ctx ++ [c];
     ctx_Redirect := ctx_Redirect ctx;
     ctx_Calls := ctx_Calls ctx |}.

(** [ctx.Redirect] *)
Definition redirect (code : Z) (location : string) (ctx : Context) : Context :=
  {| ctx_Request := ctx_Request ctx;
     ctx_SetCookies := ctx_SetCookies ctx;
     ctx_Redirect := Some (code, location);
     ctx_Calls := ctx_Calls ctx |}.

(** [ctx.Request.Header.Get(name)] *)
Definition headerGet (name : string) (ctx : Context) : string :=
  default "" (Header (ctx_Request ctx) !! name).

(** [ctx.Query(name)]: the first value of the parameter. *)
Definition queryGet (name : string) (ctx : Context) : string :=
  match Query (ctx_Request ctx) !! name with
  | Some (v :: _) => v
  | _ => ""
  end.

(** [ctx.Cookie(name)]: [None] stands for [http.ErrNoCookie]. *)
Definition cookieGet (name : string) (ctx : Context) : option string :=
  Cookies (ctx_Request ctx) !! name.

Section Resolver.

Variable pkg : Package.
Variable p : Proxy.

(** ** getSandboxIdFromSignedPreviewUrlToken *)

Definition getSandboxIdFromSignedPreviewUrlToken (ctx : Context)
    (sandboxIdOrSignedToken : string) (port : spec_float) (cookieDomain : string)
  : Context * result string :=
  let ctx := recordCall (CallSignedPreviewUrlToken sandboxIdOrSignedToken port) ctx in
  match GetSandboxIdFromSignedPreviewUrlToken p sandboxIdOrSignedToken port with
  | Err err =>
      (ctx, Err ("failed to get sandbox ID: " +:+ err +:+ ". Is the token expired?"))
  | Ok sandboxId =>
      let name := SANDBOX_AUTH_COOKIE_NAME pkg +:+ sandboxId in
      let ctx := recordCall (CallCookieEncode name sandboxId) ctx in
      match secureCookie_Encode p name sandboxId with
      | Err err => (ctx, Err ("failed to encode cookie: " +:+ err))
      | Ok encoded =>
          let ctx :=
            setCookie {| cookie_Name := name; cookie_Value := encoded;
                         cookie_MaxAge := 3600; cookie_Path := "/";
                         cookie_Domain := cookieDomain;
                         cookie_Secure := EnableTLS p;
                         cookie_HttpOnly := true |} ctx in
          (ctx, Ok sandboxId)
      end
  end.

(** ** Authenticate, block by block *)

(** Authorization header with Bearer token. *)
Definition tryBearer (ctx : Context) (sandboxIdOrSignedToken : string)
    (authErrors : list string) : Context * Flow :=
  let authHeader := headerGet "Authorization" ctx in
  if negb (String.eqb authHeader "") && HasPrefix authHeader "Bearer " then
    let bearerToken := TrimSpace pkg (TrimPrefix authHeader "Bearer ") in
    let ctx := recordCall (CallBearerTokenValid sandboxIdOrSignedToken bearerToken) ctx in
    match getSandboxBearerTokenValid p sandboxIdOrSignedToken bearerToken with
    | Err err =>
        (ctx, Continue (authErrors ++ ["Bearer token validation error: " +:+ err]))
    | Ok (Some true) => (ctx, Return sandboxIdOrSignedToken false None)
    | Ok _ => (ctx, Continue (authErrors ++ ["Bearer token is invalid"]))
    end
  else (ctx, Continue authErrors).

(** Auth key from header. *)
Definition tryAuthKeyHeader (ctx : Context) (sandboxIdOrSignedToken : string)
    (authErrors : list string) : Context * Flow :=
  let authKey := headerGet (SANDBOX_AUTH_KEY_HEADER pkg) ctx in
  if negb (String.eqb authKey "") then
    let ctx := headerDel (SANDBOX_AUTH_KEY_HEADER pkg) ctx in
    let ctx := recordCall (CallAuthKeyValid sandboxIdOrSignedToken authKey) ctx in
    match getSandboxAuthKeyValid p sandboxIdOrSignedToken authKey with
    | Err err =>
        (ctx, Continue (authErrors ++ ["Auth key header validation error: " +:+ err]))
    | Ok (Some true) => (ctx, Return sandboxIdOrSignedToken false None)
    | Ok _ => (ctx, Continue (authErrors ++ ["Auth key header is invalid"]))
    end
  else (ctx, Continue authErrors).

(** Auth key from query parameter. *)
Definition tryAuthKeyQuery (ctx : Context) (sandboxIdOrSignedToken : string)
    (authErrors : list string) : Context * Flow :=
  let queryAuthKey := queryGet (SANDBOX_AUTH_KEY_QUERY_PARAM pkg) ctx in
  if negb (String.eqb queryAuthKey "") then
    let ctx := recordCall (CallAuthKeyValid sandboxIdOrSignedToken queryAuthKey) ctx in
    match getSandboxAuthKeyValid p sandboxIdOrSignedToken queryAuthKey with
    | Err err =>
        (ctx, Continue (authErrors ++ ["Auth key query param validation error: " +:+ err]))
    | Ok (Some true) =>
        let ctx := queryDel (SANDBOX_AUTH_KEY_QUERY_PARAM pkg) ctx in
        (ctx, Return sandboxIdOrSignedToken false None)
    | Ok _ => (ctx, Continue (authErrors ++ ["Auth key query parameter is invalid"]))
    end
  else (ctx, Continue authErrors).

(** Cookie authentication. *)
Definition tryCookie (ctx : Context) (sandboxIdOrSignedToken : string)
    (authErrors : list string) : Context * Flow :=
  let cookieName := SANDBOX_AUTH_COOKIE_NAME pkg +:+ sandboxIdOrSignedToken in
  match cookieGet cookieName ctx with
  | Some cookieValue =>
      if negb (String.eqb cookieValue "") then
        let ctx := recordCall (CallCookieDecode cookieName cookieValue) ctx in
        match secureCookie_Decode p cookieName cookieValue with
        | Err err => (ctx, Continue (authErrors ++ ["Cookie decoding error: " +:+ err]))
        | Ok decodedValue =>
            if String.eqb decodedValue sandboxIdOrSignedToken
            then (ctx, Return sandboxIdOrSignedToken false None)
            else (ctx, Continue authErrors)
        end
      else (ctx, Continue authErrors)
  | None => (ctx, Continue authErrors)
  end.

(** Signed preview URL token. *)
Definition trySignedToken (ctx : Context) (sandboxIdOrSignedToken : string)
    (port : spec_float) (authErrors : list string) : Context * Flow :=
  let cookieDomain := getCookieDomain p (Host (ctx_Request ctx)) in
  match getSandboxIdFromSignedPreviewUrlToken ctx sandboxIdOrSignedToken port cookieDomain with
  | (ctx, Ok sandboxId) => (ctx, Return sandboxId false None)
  | (ctx, Err err) => (ctx, Continue (authErrors ++ [err]))
  end.

(** The message of the error returned with the redirect. *)
Definition errorMsg (authErrors : list string) : string :=
  if Z.ltb 0 (GoInt.len authErrors)
  then "authentication failed:" +:+ newline +:+ Join authErrors (newline +:+ ";" +:+ newline)
  else missingAuthentication.

(** All authentication methods failed: redirect to the auth URL. *)
Definition redirectToAuthUrl (ctx : Context) (sandboxIdOrSignedToken : string)
    (authErrors : list string) : Context * (string * bool * option string) :=
  let ctx := recordCall (CallGetAuthUrl sandboxIdOrSignedToken) ctx in
  match getAuthUrl p (ctx_Request ctx) sandboxIdOrSignedToken with
  | Err err => (ctx, (sandboxIdOrSignedToken, false, Some ("failed to get auth URL: " +:+ err)))
  | Ok authUrl =>
      let ctx := redirect StatusTemporaryRedirect authUrl ctx in
      (ctx, (sandboxIdOrSignedToken, true, Some (errorMsg authErrors)))
  end.

(** Runs the next block unless the previous one returned. *)
Definition andThen (r : Context * Flow) (next : Context -> list string -> Context * Flow)
  : Context * Flow :=
  match r with
  | (ctx, Continue authErrors) => next ctx authErrors
  | (ctx, Return _ _ _) => r
  end.

(** The four credential attempts that precede the signed token exchange. *)
Definition credentialAttempts (ctx : Context) (sandboxIdOrSignedToken : string)
  : Context * Flow :=
  andThen (andThen (andThen
    (tryBearer ctx sandboxIdOrSignedToken [])
    (fun ctx errs => tryAuthKeyHeader ctx sandboxIdOrSignedToken errs))
    (fun ctx errs => tryAuthKeyQuery ctx sandboxIdOrSignedToken errs))
    (fun ctx errs => tryCookie ctx sandboxIdOrSignedToken errs).

(** All five attempts, with the reasons they leave behind. *)
Definition attempts (ctx : Context) (sandboxIdOrSignedToken : string) (port : spec_float)
  : Context * Flow :=
  andThen (credentialAttempts ctx sandboxIdOrSignedToken)
          (fun ctx errs => trySignedToken ctx sandboxIdOrSignedToken port errs).

(** Returns the context after the call and [(sandboxId, didRedirect, err)]. *)
Definition Authenticate (ctx : Context) (sandboxIdOrSignedToken : string) (port : spec_float)
  : Context * (string * bool * option string) :=
  match attempts ctx sandboxIdOrSignedToken port with
  | (ctx, Return sandboxId didRedirect err) => (ctx, (sandboxId, didRedirect, err))
  | (ctx, Continue authErrors) => redirectToAuthUrl ctx sandboxIdOrSignedToken authErrors
  end.

End Resolver.

(** ** Specification vocabulary *)

(** The request carries a bearer token that the validator accepts. *)
Definition bearerAccepted (pkg : Package) (p : Proxy) (ctx : Context) (id : string) : bool :=
  let authHeader := headerGet "Authorization" ctx in
  negb (String.eqb authHeader "") && HasPrefix authHeader "Bearer "
  && match getSandboxBearerTokenValid p id (TrimSpace pkg (TrimPrefix authHeader "Bearer ")) with
     | Ok (Some true) => true
     | _ => false
     end.

(** The token the bearer validator is asked about. *)
Definition bearerTokenOf (pkg : Package) (ctx : Context) : string :=
  TrimSpace pkg (TrimPrefix (headerGet "Authorization" ctx) "Bearer ").

(** The header-key validator was called during the request. *)
Definition authKeyValidatorCalled (calls : list Call) : bool :=
  existsb (fun c => match c with CallAuthKeyValid _ _ => true | _ => false end) calls.

(** [p] with a token exchange that fails with [err] for every token. *)
Definition withFailingExchange (p : Proxy) (err : string) : Proxy :=
  {| EnableTLS := EnableTLS p;
     getSandboxBearerTokenValid := getSandboxBearerTokenValid p;
     getSandboxAuthKeyValid := getSandboxAuthKeyValid p;
     secureCookie_Decode := secureCookie_Decode p;
     secureCookie_Encode := secureCookie_Encode p;
     GetSandboxIdFromSignedPreviewUrlToken := fun _ _ => Err err;
     getCookieDomain := getCookieDomain p;
     getAuthUrl := getAuthUrl p |}.

(** What a block may do to the context: nothing is ever written to the
    response, and only the auth-key header and the auth-key query
    parameter may go away. *)
Record preserves (ctx ctx' : Context) : Prop := {
  pres_cookies : ctx_SetCookies ctx' = ctx_SetCookies ctx;
  pres_redirect : ctx_Redirect ctx' = ctx_Redirect ctx;
  pres_host : Host (ctx_Request ctx') = Host (ctx_Request ctx);
  pres_header : forall k, Header (ctx_Request ctx) !! k = None ->
                          Header (ctx_Request ctx') !! k = None
}.

(** Every block that returns reports no redirect. *)
Definition noRedirect (f : Flow) : Prop :=
  match f with
  | Return _ didRedirect _ => didRedirect = false
  | Continue _ => True
  end.

(** ** Vocabulary of the further properties *)

(** The request carries an auth key in the header that the validator
    accepts. *)
Definition headerKeyAccepted (pkg : Package) (p : Proxy) (ctx : Context) (id : string)
  : bool :=
  let authKey := headerGet (SANDBOX_AUTH_KEY_HEADER pkg) ctx in
  negb (String.eqb authKey "")
  && match getSandboxAuthKeyValid p id authKey with
     | Ok (Some true) => true
     | _ => false
     end.

(** The request carries an auth key in the query string that the
    validator accepts. *)
Definition queryKeyAccepted (pkg : Package) (p : Proxy) (ctx : Context) (id : string)
  : bool :=
  let queryAuthKey := queryGet (SANDBOX_AUTH_KEY_QUERY_PARAM pkg) ctx in
  negb (String.eqb queryAuthKey "")
  && match getSandboxAuthKeyValid p id queryAuthKey with
     | Ok (Some true) => true
     | _ => false
     end.

(** The request carries the auth cookie of the path token, and the cookie
    decodes to the path token. *)
Definition cookieAccepted (pkg : Package) (p : Proxy) (ctx : Context) (id : string) : bool :=
  match cookieGet (SANDBOX_AUTH_COOKIE_NAME pkg +:+ id) ctx with
  | Some cookieValue =>
      negb (String.eqb cookieValue "")
      && match secureCookie_Decode p (SANDBOX_AUTH_COOKIE_NAME pkg +:+ id) cookieValue with
         | Ok decodedValue => String.eqb decodedValue id
         | Err _ => false
         end
  | None => false
  end.

(** One of the four credentials of the request is accepted. *)
Definition credentialAccepted (pkg : Package) (p : Proxy) (ctx : Context) (id : string)
  : bool :=
  bearerAccepted pkg p ctx id || headerKeyAccepted pkg p ctx id
  || queryKeyAccepted pkg p ctx id || cookieAccepted pkg p ctx id.

(** The request as [Authenticate] leaves it: without the auth-key header
    once the header attempt is reached, and without the auth-key query
    parameter when the query attempt succeeds. *)
Definition forwardedRequest (pkg : Package) (p : Proxy) (ctx : Context) (id : string)
  : Request :=
  let r := ctx_Request ctx in
  if bearerAccepted pkg p ctx id then r
  else
    {| Header := if String.eqb (headerGet (SANDBOX_AUTH_KEY_HEADER pkg) ctx) ""
                 then Header r else delete (SANDBOX_AUTH_KEY_HEADER pkg) (Header r);
       Query := if negb (headerKeyAccepted pkg p ctx id) && queryKeyAccepted pkg p ctx id
                then delete (SANDBOX_AUTH_KEY_QUERY_PARAM pkg) (Query r) else Query r;
       Cookies := Cookies r;
       Host := Host r |}.

(** The cookie that a successful token exchange issues for [sandboxId]. *)
Definition issuedCookie (pkg : Package) (p : Proxy) (host sandboxId encoded : string)
  : SetCookie :=
  {| cookie_Name := SANDBOX_AUTH_COOKIE_NAME pkg +:+ sandboxId;
     cookie_Value := encoded;
     cookie_MaxAge := 3600;
     cookie_Path := "/";
     cookie_Domain := getCookieDomain p host;
     cookie_Secure := EnableTLS p;
     cookie_HttpOnly := true |}.

(** The request presents no bearer token and no auth key. *)
Definition cookieOnly (pkg : Package) (ctx : Context) : Prop :=
  headerGet "Authorization" ctx = "" /\
  headerGet (SANDBOX_AUTH_KEY_HEADER pkg) ctx = "" /\
  queryGet (SANDBOX_AUTH_KEY_QUERY_PARAM pkg) ctx = "".

(** The request carries an Authorization header with a Bearer token. *)
Definition bearerPresented (ctx : Context) : bool :=
  let authHeader := headerGet "Authorization" ctx in
  negb (String.eqb authHeader "") && HasPrefix authHeader "Bearer ".

(** The calls that the four credential attempts make: one per credential
    that the request presents, up to the first one that is accepted. *)
Definition credentialCalls (pkg : Package) (p : Proxy) (ctx : Context) (id : string)
  : list Call :=
  (if bearerPresented ctx then [CallBearerTokenValid id (bearerTokenOf pkg ctx)] else [])
  ++ if bearerAccepted pkg p ctx id then [] else
  (if String.eqb (headerGet (SANDBOX_AUTH_KEY_HEADER pkg) ctx) "" then []
   else [CallAuthKeyValid id (headerGet (SANDBOX_AUTH_KEY_HEADER pkg) ctx)])
  ++ if headerKeyAccepted pkg p ctx id then [] else
  (if String.eqb (queryGet (SANDBOX_AUTH_KEY_QUERY_PARAM pkg) ctx) "" then []
   else [CallAuthKeyValid id (queryGet (SANDBOX_AUTH_KEY_QUERY_PARAM pkg) ctx)])
  ++ if queryKeyAccepted pkg p ctx id then [] else
  match cookieGet (SANDBOX_AUTH_COOKIE_NAME pkg +:+ id) ctx with
  | Some cookieValue =>
      if String.eqb cookieValue "" then []
      else [CallCookieDecode (SANDBOX_AUTH_COOKIE_NAME pkg +:+ id) cookieValue]
  | None => []
  end.

(** The API resolves the token and the cookie can be encoded. *)
Definition exchangeAccepted (pkg : Package) (p : Proxy) (id : string) (port : spec_float)
  : bool :=
  match GetSandboxIdFromSignedPreviewUrlToken p id port with
  | Ok sandboxId =>
      match secureCookie_Encode p (SANDBOX_AUTH_COOKIE_NAME pkg +:+ sandboxId) sandboxId with
      | Ok _ => true
      | Err _ => false
      end
  | Err _ => false
  end.

(** The calls of the token exchange. *)
Definition exchangeCalls (pkg : Package) (p : Proxy) (id : string) (port : spec_float)
  : list Call :=
  CallSignedPreviewUrlToken id port
  :: match GetSandboxIdFromSignedPreviewUrlToken p id port with
     | Ok sandboxId =>
         [CallCookieEncode (SANDBOX_AUTH_COOKIE_NAME pkg +:+ sandboxId) sandboxId]
     | Err _ => []
     end.

(** All the calls of one resolution. *)
Definition resolutionCalls (pkg : Package) (p : Proxy) (ctx : Context) (id : string)
    (port : spec_float) : list Call :=
  credentialCalls pkg p ctx id
  ++ if credentialAccepted pkg p ctx id then []
     else exchangeCalls pkg p id port
          ++ if exchangeAccepted pkg p id port then [] else [CallGetAuthUrl id].

End ProxyAuth.

(** * Concrete scenarios *)

Module Scenarios.

Import ProxyAuth.

(** ** A proxy and its collaborators *)

Definition isAsciiSpace (c : Ascii.ascii) : bool :=
  let n := Ascii.nat_of_ascii c in
  (Nat.eqb n 32 || (Nat.leb 9 n && Nat.leb n 13))%bool.

Fixpoint trimLeft (s : string) : string :=
  match s with
  | String c rest => if isAsciiSpace c then trimLeft rest else s
  | EmptyString => s
  end.

Fixpoint trimRight (s : string) : string :=
  match s with
  | String c rest =>
      match trimRight rest with
      | EmptyString => if isAsciiSpace c then EmptyString else String c EmptyString
      | rest' => String c rest'
      end
  | EmptyString => s
  end.

Definition pkg0 : Package :=
  {| SANDBOX_AUTH_KEY_HEADER := "X-Daytona-Preview-Token";
     SANDBOX_AUTH_KEY_QUERY_PARAM := "DAYTONA_SANDBOX_AUTH_KEY";
     SANDBOX_AUTH_COOKIE_NAME := "daytona-sandbox-auth-";
     TrimSpace := fun s => trimRight (trimLeft s) |}.

(** A codec that binds the value to the cookie name. *)
Definition encode0 (name value : string) : result string := Ok (name +:+ "|" +:+ value).

Definition decode0 (name value : string) : result string :=
  if String.prefix (name +:+ "|") value
  then Ok (String.substring (String.length name + 1)
                            (String.length value - (String.length name + 1)) value)
  else Err "securecookie: the value is not valid".

Definition proxy0 : Proxy :=
  {| EnableTLS := true;
     getSandboxBearerTokenValid := fun _ token => Ok (Some (String.eqb token "good-jwt"));
     getSandboxAuthKeyValid := fun _ key => Ok (Some (String.eqb key "good-key"));
     secureCookie_Decode := decode0;
     secureCookie_Encode := encode0;
     GetSandboxIdFromSignedPreviewUrlToken :=
       fun token _ => if String.eqb token "signed-token" then Ok "sandbox-1"
                      else Err "404 Not Found";
     getCookieDomain := fun host => host;
     getAuthUrl := fun _ id => Ok ("https://auth.example/" +:+ id) |}.

(** The same proxy with a cookie codec whose [Encode] fails. *)
Definition proxyEncodeFails : Proxy :=
  {| EnableTLS := true;
     getSandboxBearerTokenValid := getSandboxBearerTokenValid proxy0;
     getSandboxAuthKeyValid := getSandboxAuthKeyValid proxy0;
     secureCookie_Decode := decode0;
     secureCookie_Encode := fun _ _ => Err "securecookie: the value is too long";
     GetSandboxIdFromSignedPreviewUrlToken := GetSandboxIdFromSignedPreviewUrlToken proxy0;
     getCookieDomain := getCookieDomain proxy0;
     getAuthUrl := getAuthUrl proxy0 |}.

Definition port0 : spec_float := F32.of_int 3000.

Definition context (r : Request) : Context :=
  {| ctx_Request := r; ctx_SetCookies := []; ctx_Redirect := None; ctx_Calls := [] |}.

(** A request with a valid bearer token and an auth-key header. *)
Definition requestBearerAndKey : Request :=
  {| Header := <["Authorization" := "Bearer good-jwt"]>
                 (<["X-Daytona-Preview-Token" := "good-key"]> ∅);
     Query := ∅; Cookies := ∅; Host := "3000-sandbox-1.proxy.example" |}.

(** A request with an invalid auth-key header and nothing else. *)
Definition requestBadKey : Request :=
  {| Header := <["X-Daytona-Preview-Token" := "bad-key"]> ∅;
     Query := ∅; Cookies := ∅; Host := "3000-sandbox-1.proxy.example" |}.

(** A request that presents no credentials at all. *)
Definition requestNoCredentials : Request :=
  {| Header := ∅; Query := ∅; Cookies := ∅; Host := "3000-sandbox-1.proxy.example" |}.

(** A request whose cookie for [sandbox-1] decodes to another sandbox. *)
Definition requestForeignCookie : Request :=
  {| Header := ∅; Query := ∅;
     Cookies := <["daytona-sandbox-auth-sandbox-1" :=
                    "daytona-sandbox-auth-sandbox-1|sandbox-2"]> ∅;
     Host := "3000-sandbox-1.proxy.example" |}.

(** ** A cluster *)

Import RunnerManager.

Definition runner (name domain : string) (cpu mem : Z) (allocatedCpu : option Z)
    (unschedulable : bool) : RunnerFull :=
  {| runner_Name := name;
     runner_Domain := Some domain;
     runner_Cpu := F32.of_int cpu;
     runner_Memory := F32.of_int mem;
     runner_CurrentAllocatedCpu := F32.of_int <$> allocatedCpu;
     runner_CurrentAllocatedMemoryGiB := None;
     runner_CurrentAllocatedDiskGiB := None;
     runner_CurrentStartedSandboxes := None;
     runner_CurrentSnapshotCount := None;
     runner_Unschedulable := unschedulable |}.

(** A node with [cpu] cores and [mem] GiB allocatable. *)
Definition node (name address : string) (cpu mem : Z) : Node :=
  {| node_Name := name;
     node_Unschedulable := false;
     node_Addresses := [address];
     node_Allocatable :=
       <[ResourceCPU := {| MilliValue := cpu * 1000; Value := cpu |}]>
         (<[ResourceMemory := {| MilliValue := mem * 2 ^ 30 * 1000;
                                 Value := mem * 2 ^ 30 |}]> ∅) |}.

(** A node whose status reports no allocatable resources. *)
Definition bareNode (name address : string) : Node :=
  {| node_Name := name; node_Unschedulable := false;
     node_Addresses := [address]; node_Allocatable := ∅ |}.

Definition runnerIdle : RunnerFull := runner "runner-a" "10.0.0.1" 8 16 None false.
Definition runnerActive : RunnerFull := runner "runner-b" "10.0.0.2" 8 16 (Some 3) false.
Definition runnerDeletable : RunnerFull := runner "runner-c" "10.0.0.3" 8 16 None true.

Definition nodeA : Node := node "node-a" "10.0.0.1" 8 16.
Definition nodeB : Node := node "node-b" "10.0.0.2" 8 16.
Definition nodeC : Node := node "node-c" "10.0.0.3" 8 16.
Definition nodeD : Node := node "node-d" "10.0.0.4" 8 16.

Definition podPending : Pod := {| pod_Name := "placeholder-p"; pod_NodeName := "" |}.
Definition podOnC : Pod := {| pod_Name := "placeholder-c"; pod_NodeName := "node-c" |}.
Definition podOnD : Pod := {| pod_Name := "placeholder-d"; pod_NodeName := "node-d" |}.

Definition fetched (runners : list RunnerFull) (pods : list Pod) (nodes : list Node)
  : Fetched :=
  {| fetchedRunners := Ok runners; fetchedPlaceholders := Ok pods;
     fetchedNodes := Ok nodes |}.

(** Three runners of the three classes, a fourth node still without a
    runner, one pending placeholder. *)
Definition cluster : Fetched :=
  fetched [runnerIdle; runnerActive; runnerDeletable] [podPending; podOnC; podOnD]
          [nodeA; nodeB; nodeC; nodeD].

Definition stateOf (api : Fetched) : ClusterState :=
  match gatherClusterState api with
  | Ok state => state
  | Err _ => emptyState
  end.

Definition config (maxUtil minRunners minCpu minMem : Z) : Config :=
  {| MaxResourceUtilizationPercent := maxUtil; MinIdleRunners := minRunners;
     MinIdleCpu := minCpu; MinIdleMemory := minMem |}.

(** Scenario S1: one idle runner of 8 cores and 16 GiB on its node. *)
Definition clusterS1 : Fetched := fetched [runnerIdle] [] [nodeA].
Definition configS1 : Config := config 80 0 16 32.

(** Five placeholders still pending around the idle runner of S1. *)
Definition clusterInFlight : Fetched :=
  fetched [runnerIdle] [podPending; podPending; podPending; podPending; podPending] [nodeA].

(** ** Further clusters *)

(** An empty pool: no runner, no placeholder, no node. *)
Definition clusterEmpty : Fetched := fetched [] [] [].

(** One runner with 3 of its 8 cores allocated, on its node. *)
Definition clusterBusy : Fetched := fetched [runnerActive] [] [nodeB].

(** The listing of the nodes fails after the two other listings. *)
Definition clusterUnreachable : Fetched :=
  {| fetchedRunners := Ok [runnerIdle]; fetchedPlaceholders := Ok [podPending];
     fetchedNodes := Err "connection refused" |}.

(** ** An environment *)

Definition digitOf (c : Ascii.ascii) : option Z :=
  let n := Ascii.nat_of_ascii c in
  if (Nat.leb 48 n && Nat.leb n 57)%bool then Some (Z.of_nat (n - 48)) else None.

Fixpoint digitsOf (acc : Z) (s : string) : option Z :=
  match s with
  | EmptyString => Some acc
  | String c rest =>
      match digitOf c with
      | Some d => digitsOf (10 * acc + d) rest
      | None => None
      end
  end.

(** A stand-in for [strconv.Atoi]: decimal digits after an optional sign,
    within the range of an [int]. *)
Definition atoi0 (s : string) : result Z :=
  let parsed :=
    match s with
    | EmptyString => None
    | String c rest =>
        if Nat.eqb (Ascii.nat_of_ascii c) 45 then
          (if String.eqb rest "" then None else Z.opp <$> digitsOf 0 rest)
        else if Nat.eqb (Ascii.nat_of_ascii c) 43 then
          (if String.eqb rest "" then None else digitsOf 0 rest)
        else digitsOf 0 s
    end in
  match parsed with
  | None => Err "invalid syntax"
  | Some n =>
      if (Z.leb GoInt.min_int n && Z.leb n GoInt.max_int)%bool then Ok n
      else Err "value out of range"
  end.

Definition env0 : gmap string string :=
  list_to_map
    [("API_PORT", "8080"); ("DAYTONA_API_URL", "https://api.example");
     ("DAYTONA_API_KEY", "secret"); ("PROVIDER_NAMESPACE", "runners");
     ("REGION_ID", "eu"); ("MAX_RESOURCE_UTILIZATION_PERCENT", "80");
     ("MIN_IDLE_RUNNERS", "1"); ("MIN_IDLE_CPU", "16"); ("MIN_IDLE_MEMORY", "32")].

(** A clock that advances by 7 nanoseconds between two readings. *)
Definition clock0 (i : nat) : Z := 1700000000000000000 + 7 * Z.of_nat i.

(** ** Further requests *)

(** A request with an invalid auth-key header and a valid key in the
    query string. *)
Definition requestBadHeaderGoodQuery : Request :=
  {| Header := <["X-Daytona-Preview-Token" := "bad-key"]> ∅;
     Query := <["DAYTONA_SANDBOX_AUTH_KEY" := ["good-key"]]> (<["page" := ["2"]]> ∅);
     Cookies := ∅; Host := "3000-sandbox-1.proxy.example" |}.

(** A request that only carries the cookie issued for [sandbox-1]. *)
Definition requestWithIssuedCookie : Request :=
  {| Header := ∅; Query := ∅;
     Cookies := <["daytona-sandbox-auth-sandbox-1" :=
                    "daytona-sandbox-auth-sandbox-1|sandbox-1"]> ∅;
     Host := "3000-sandbox-1.proxy.example" |}.

(** The proxy when its API cannot build the auth URL. *)
Definition proxyNoAuthUrl : Proxy :=
  {| EnableTLS := true;
     getSandboxBearerTokenValid := getSandboxBearerTokenValid proxy0;
     getSandboxAuthKeyValid := getSandboxAuthKeyValid proxy0;
     secureCookie_Decode := decode0;
     secureCookie_Encode := encode0;
     GetSandboxIdFromSignedPreviewUrlToken := GetSandboxIdFromSignedPreviewUrlToken proxy0;
     getCookieDomain := getCookieDomain proxy0;
     getAuthUrl := fun _ _ => Err "503 Service Unavailable" |}.

(** ** Clusters at the limits of [float32] *)

(** The largest finite [float32], as an integer. *)
Definition maxFloat32 : Z := (2 ^ 24 - 1) * 2 ^ 104.

(** Two runners whose CPU is the largest finite [float32], all of it
    allocated, and a deletable runner on [node-c] with its placeholder. *)
Definition clusterSaturated : Fetched :=
  fetched [runner "runner-x" "10.0.0.1" maxFloat32 16 (Some maxFloat32) false;
           runner "runner-y" "10.0.0.2" maxFloat32 16 (Some maxFloat32) false;
           runnerDeletable]
          [podOnC] [nodeA; nodeB; nodeC].

(** A node with [milli] thousandths of a core and [mem] GiB allocatable. *)
Definition nodeMilli (name address : string) (milli mem : Z) : Node :=
  {| node_Name := name;
     node_Unschedulable := false;
     node_Addresses := [address];
     node_Allocatable :=
       <[ResourceCPU := {| MilliValue := milli; Value := milli / 1000 |}]>
         (<[ResourceMemory := {| MilliValue := mem * 2 ^ 30 * 1000;
                                 Value := mem * 2 ^ 30 |}]> ∅) |}.

(** One runner of 8 cores on its node, and two nodes without a runner
    with 7.91 and 0.94 allocatable cores. *)
Definition clusterFractional : Fetched :=
  fetched [runnerIdle] []
          [nodeA; nodeMilli "node-e" "10.0.0.5" 7910 16; nodeMilli "node-f" "10.0.0.6" 940 16].

(** The same cluster with the two nodes without a runner listed in the
    other order. *)
Definition clusterFractionalSwapped : Fetched :=
  fetched [runnerIdle] []
          [nodeA; nodeMilli "node-f" "10.0.0.6" 940 16; nodeMilli "node-e" "10.0.0.5" 7910 16].

(** A second deletable runner, on [node-d]. *)
Definition runnerDeletableD : RunnerFull := runner "runner-d" "10.0.0.4" 8 16 None true.

(** An idle runner and two deletable runners, each of them on its own node
    with its placeholder. *)
Definition clusterDraining : Fetched :=
  fetched [runnerIdle; runnerDeletable; runnerDeletableD] [podOnC; podOnD]
          [nodeA; nodeC; nodeD].

End Scenarios.

(** * Facts about the floating-point operations *)

Module FloatFacts.

(** ** Comparison *)

Lemma SFcompare_antisym (x y : spec_float) (c : comparison) :
  SFcompare x y = Some c -> SFcompare y x = Some (CompOpp c).
Proof.
  destruct x as [sx|sx| |sx mx ex], y as [sy|sy| |sy my ey]; cbn;
    try discriminate; try (destruct sx); try (destruct sy);
    intros [= <-]; try reflexivity.
  - rewrite (Z.compare_antisym ey ex).
    destruct (ey ?= ex); cbn; try reflexivity.
    rewrite CompOpp_involutive. now rewrite Pos.compare_cont_antisym.
  - rewrite (Z.compare_antisym ey ex).
    destruct (ey ?= ex); cbn; try reflexivity.
    now rewrite Pos.compare_cont_antisym.
Qed.

Lemma SFcompare_nan (x y : spec_float) :
  SFcompare x y = None <-> F32.is_nan x = true \/ F32.is_nan y = true.
Proof.
  destruct x as [sx|sx| |sx mx ex], y as [sy|sy| |sy my ey]; cbn;
    intuition discriminate.
Qed.

(** For two numbers, "not below" is "at least". *)
Lemma not_ltb_geb (x y : spec_float) :
  F32.is_nan x = false -> F32.is_nan y = false ->
  F32.ltb x y = false -> F32.geb x y = true.
Proof.
  intros Hx Hy. unfold F32.ltb, F32.geb, SFltb, SFleb.
  destruct (SFcompare x y) as [c|] eqn:Hc.
  - rewrite (SFcompare_antisym _ _ _ Hc). now destruct c.
  - apply SFcompare_nan in Hc as [H|H]; congruence.
Qed.

Lemma geb_not_ltb (x y : spec_float) : F32.geb x y = true -> F32.ltb x y = false.
Proof.
  unfold F32.ltb, F32.geb, SFltb, SFleb.
  destruct (SFcompare y x) as [c|] eqn:Hc; [|discriminate].
  rewrite (SFcompare_antisym _ _ _ Hc). now destruct c.
Qed.

(** ** Rounding never yields NaN *)

Section Rounding.

Variables prec emax : Z.

Lemma shr_1_nonneg mrs : 0 <= shr_m mrs -> 0 <= shr_m (shr_1 mrs).
Proof.
  destruct mrs as [m r s]. cbn.
  destruct m as [|[p|p|]|[p|p|]]; cbn; lia.
Qed.

Lemma iter_shr_1_nonneg n : forall mrs,
  0 <= shr_m mrs -> 0 <= shr_m (SpecFloat.iter_pos shr_1 n mrs).
Proof.
  induction n; intros mrs H; cbn; auto using shr_1_nonneg.
Qed.

Lemma shr_nonneg mrs e n : 0 <= shr_m mrs -> 0 <= shr_m (fst (shr mrs e n)).
Proof.
  destruct n; cbn; auto using iter_shr_1_nonneg.
Qed.

Lemma shr_record_of_loc_m m l : shr_m (shr_record_of_loc m l) = m.
Proof. destruct l as [|[]]; reflexivity. Qed.

Lemma shr_fexp_nonneg m e l : 0 <= m -> 0 <= shr_m (fst (shr_fexp prec emax m e l)).
Proof.
  intros H. unfold shr_fexp. apply shr_nonneg. now rewrite shr_record_of_loc_m.
Qed.

Lemma round_nearest_even_nonneg m l : 0 <= m -> 0 <= round_nearest_even m l.
Proof.
  destruct l as [|[]]; cbn; try lia. destruct (Z.even m); lia.
Qed.

Lemma binary_round_aux_not_nan sx mx ex lx :
  0 <= mx -> F32.is_nan (binary_round_aux prec emax sx mx ex lx) = false.
Proof.
  intros H. unfold binary_round_aux.
  pose proof (shr_fexp_nonneg mx ex lx H) as H1.
  destruct (shr_fexp prec emax mx ex lx) as [mrs' e']. cbn [fst] in H1.
  pose proof (shr_fexp_nonneg _ e' loc_Exact
                (round_nearest_even_nonneg _ (loc_of_shr_record mrs') H1)) as H2.
  destruct (shr_fexp prec emax _ e' loc_Exact) as [mrs'' e'']. cbn [fst] in H2.
  destruct (shr_m mrs''); [reflexivity| |lia].
  destruct (e'' <=? emax - prec); reflexivity.
Qed.

Lemma binary_round_not_nan sx mx ex :
  F32.is_nan (binary_round prec emax sx mx ex) = false.
Proof.
  unfold binary_round. destruct (shl_align _ _ _) as [mz ez].
  apply binary_round_aux_not_nan. lia.
Qed.

Lemma binary_normalize_not_nan m e szero :
  F32.is_nan (binary_normalize prec emax m e szero) = false.
Proof.
  destruct m; cbn; auto using binary_round_not_nan.
Qed.

End Rounding.

Lemma of_int_not_nan (n : Z) : F32.is_nan (F32.of_int n) = false.
Proof. apply binary_normalize_not_nan. Qed.

(** ** Adding and removing zero *)

Lemma sub_zero (x : spec_float) : F32.sub x F32.zero = x.
Proof. destruct x as [[]|[]| |s m e]; reflexivity. Qed.

Lemma zero_cores : F32.div (F32.of_int 0) (F32.of_int 1000) = F32.zero.
Proof. reflexivity. Qed.

Lemma zero_GiB : F32.div (F32.of_int 0) (F32.of_int (1024 * 1024 * 1024)) = F32.zero.
Proof. reflexivity. Qed.

End FloatFacts.

(** * Rounding to nearest is monotone *)

Module RoundingFacts.

Import Rounding.

(** ** Sticky integers *)


Lemma stk_nonneg n D : 0 <= n -> 0 < D -> 0 <= stk n D.
Proof.
  intros Hn HD. unfold stk.
  pose proof (Z.div_pos n D Hn HD). destruct (n mod D =? 0); lia.
Qed.

Lemma stk_mono n1 D1 n2 D2 :
  0 < D1 -> 0 < D2 -> n1 * D2 <= n2 * D1 -> stk n1 D1 <= stk n2 D2.
Proof.
  intros H1 H2 Hle. unfold stk.
  pose proof (Z.div_mod n1 D1 ltac:(lia)) as E1.
  pose proof (Z.div_mod n2 D2 ltac:(lia)) as E2.
  pose proof (Z.mod_pos_bound n1 D1 H1) as B1.
  pose proof (Z.mod_pos_bound n2 D2 H2) as B2.
  set (q1 := n1 / D1) in *. set (q2 := n2 / D2) in *.
  set (r1 := n1 mod D1) in *. set (r2 := n2 mod D2) in *.
  assert (Hq : q1 <= q2).
  { destruct (Z.le_gt_cases q1 q2) as [|Hgt]; [assumption|exfalso].
    assert (q2 + 1 <= q1) by lia.
    assert (n2 * D1 < (q2 + 1) * D2 * D1) by nia.
    assert ((q2 + 1) * D2 * D1 <= q1 * D1 * D2) by nia.
    nia. }
  destruct (Z.eqb_spec r1 0), (Z.eqb_spec r2 0); try lia.
  assert (q1 <> q2); [|lia].
  intros ->. nia.
Qed.

Lemma stk_ratio n1 D1 n2 D2 :
  0 < D1 -> 0 < D2 -> n1 * D2 = n2 * D1 -> stk n1 D1 = stk n2 D2.
Proof.
  intros H1 H2 E. apply Z.le_antisymm; apply stk_mono; lia.
Qed.

Lemma stk_exact m D : 0 < D -> stk (m * D) D = 2 * m.
Proof.
  intros HD. unfold stk. rewrite Z.div_mul, Z.mod_mul by lia. cbn. lia.
Qed.

(** Shifting a sticky integer by [k] more bits. *)
Lemma stk_shift n D k :
  0 <= n -> 0 < D -> 0 <= k -> stk (stk n D) (2 ^ (k + 1)) = stk n (D * 2 ^ k).
Proof.
  intros Hn HD Hk. unfold stk.
  assert (Hp : 0 < 2 ^ k) by (apply Z.pow_pos_nonneg; lia).
  rewrite Z.pow_add_r, Z.pow_1_r by lia.
  set (q := n / D). set (r := n mod D).
  assert (Hr : 0 <= r < D) by (apply Z.mod_pos_bound; lia).
  assert (Hq : 0 <= q) by (apply Z.div_pos; lia).
  set (b := if r =? 0 then 0 else 1).
  assert (Hb : 0 <= b <= 1) by (subst b; destruct (r =? 0); lia).
  assert (Ediv : (2 * q + b) / (2 ^ k * 2) = q / 2 ^ k).
  { rewrite (Z.mul_comm (2 ^ k) 2), <- Z.div_div by lia.
    f_equal. symmetry. apply (Z.div_unique _ 2 q b); lia. }
  assert (Emod : (2 * q + b) mod (2 ^ k * 2) = 2 * (q mod 2 ^ k) + b).
  { rewrite (Z.mul_comm (2 ^ k) 2), Z.rem_mul_r by lia.
    replace ((2 * q + b) mod 2) with b
      by (apply (Z.mod_unique _ 2 q b); lia).
    replace ((2 * q + b) / 2) with q
      by (apply (Z.div_unique _ 2 q b); lia).
    lia. }
  rewrite Ediv, Emod.
  rewrite <- (Z.div_div n D (2 ^ k)) by lia. fold q.
  rewrite (Z.rem_mul_r n D (2 ^ k)) by lia. fold q r.
  pose proof (Z.mod_pos_bound q (2 ^ k) Hp) as Hm.
  assert (Hb' : b = 0 <-> r = 0) by (subst b; destruct (Z.eqb_spec r 0); lia).
  clearbody b q r.
  destruct (Z.eqb_spec (2 * (q mod 2 ^ k) + b) 0),
    (Z.eqb_spec (r + D * (q mod 2 ^ k)) 0); lia || nia.
Qed.

Lemma stk_id N : 0 <= N -> stk N 2 = N.
Proof.
  intros H. unfold stk.
  pose proof (Z.div_mod N 2 ltac:(lia)). pose proof (Z.mod_pos_bound N 2 ltac:(lia)).
  destruct (Z.eqb_spec (N mod 2) 0); lia.
Qed.

(** ** Shift records as sticky integers *)




Lemma Nrec_of_loc m l : Nrec (shr_record_of_loc m l) = 4 * m + code l.
Proof.
  destruct l as [|[]]; unfold Nrec;
    cbn [shr_record_of_loc shr_m shr_r shr_s b2z code]; lia.
Qed.

Lemma stk_4 m c : 0 <= c < 4 -> stk (4 * m + c) 4 = 2 * m + (if c =? 0 then 0 else 1).
Proof.
  intros Hc. unfold stk.
  replace ((4 * m + c) / 4) with m by (apply (Z.div_unique _ 4 m c); lia).
  replace ((4 * m + c) mod 4) with c by (apply (Z.mod_unique _ 4 m c); lia).
  reflexivity.
Qed.

Lemma shr_1_Nrec mrs :
  0 <= shr_m mrs -> Nrec (shr_1 mrs) = stk (Nrec mrs) 4 /\ 0 <= shr_m (shr_1 mrs).
Proof.
  destruct mrs as [m r s]. cbn [shr_m]. intros Hm. unfold Nrec at 2. cbn [shr_m shr_r shr_s].
  replace (4 * m + 2 * b2z r + b2z s) with (4 * m + (2 * b2z r + b2z s)) by lia.
  rewrite stk_4 by (destruct r, s; cbn [b2z]; lia).
  unfold Nrec.
  destruct m as [|[p|p|]|p]; try lia; destruct r, s;
    cbn [shr_1 shr_m shr_r shr_s b2z orb]; split; try lia;
    match goal with |- context [?a =? 0] => destruct (Z.eqb_spec a 0) end; lia.
Qed.

Lemma iter_pos_nat {A} (f : A -> A) (p : positive) : forall x,
  SpecFloat.iter_pos f p x = Nat.iter (Pos.to_nat p) f x.
Proof.
  induction p as [p IH|p IH|]; intros x; cbn [SpecFloat.iter_pos].
  - rewrite !IH, Pos2Nat.inj_xI.
    rewrite <- Nat.iter_succ_r, <- Nat.iter_add.
    f_equal. lia.
  - rewrite !IH, Pos2Nat.inj_xO, <- Nat.iter_add. f_equal. lia.
  - reflexivity.
Qed.

Lemma iter_shr_1_Nrec (k : nat) mrs :
  0 <= shr_m mrs ->
  Nrec (Nat.iter k shr_1 mrs) = stk (Nrec mrs) (2 ^ (Z.of_nat k + 1)) /\
  0 <= shr_m (Nat.iter k shr_1 mrs).
Proof.
  intros Hm.
  assert (HN : 0 <= Nrec mrs).
  { unfold Nrec. destruct (shr_r mrs), (shr_s mrs); cbn [b2z]; lia. }
  induction k as [|k [IH1 IH2]].
  - cbn. split; [|exact Hm]. now rewrite stk_id.
  - change (Nat.iter (S k) shr_1 mrs) with (shr_1 (Nat.iter k shr_1 mrs)).
    destruct (shr_1_Nrec _ IH2) as [E1 E2]. split; [|exact E2].
    rewrite E1, IH1. change 4 with (2 ^ (1 + 1)).
    rewrite stk_shift by (try lia; apply Z.pow_pos_nonneg; lia).
    f_equal. rewrite <- Z.pow_add_r by lia. f_equal. lia.
Qed.

Lemma shr_Nrec mrs e k :
  0 <= shr_m mrs -> 0 <= k ->
  let '(mrs', e') := shr mrs e k in
  Nrec mrs' = stk (Nrec mrs) (2 ^ (k + 1)) /\ 0 <= shr_m mrs' /\ e' = e + k.
Proof.
  intros Hm Hk.
  assert (HN : 0 <= Nrec mrs).
  { unfold Nrec. destruct (shr_r mrs), (shr_s mrs); cbn [b2z]; lia. }
  destruct k as [|p|p]; cbn [shr]; try lia.
  - rewrite stk_id by exact HN. repeat split; [exact Hm|lia].
  - rewrite iter_pos_nat.
    destruct (iter_shr_1_Nrec (Pos.to_nat p) mrs Hm) as [E1 E2].
    rewrite positive_nat_Z in E1. auto.
Qed.

(** A record is determined by its sticky integer. *)
Lemma Nrec_inj a b :
  0 <= shr_m a -> 0 <= shr_m b -> Nrec a = Nrec b -> a = b.
Proof.
  destruct a as [ma ra sa], b as [mb rb sb]. unfold Nrec. cbn [shr_m shr_r shr_s].
  intros Ha Hb E.
  assert (ma = mb) by (destruct ra, sa, rb, sb; cbn [b2z] in E; lia). subst mb.
  destruct ra, sa, rb, sb; cbn [b2z] in E; try lia; reflexivity.
Qed.

(** ** Rounding to nearest, ties to even *)


Lemma RNE_rec mrs :
  round_nearest_even (shr_m mrs) (loc_of_shr_record mrs) = RNE (Nrec mrs).
Proof.
  destruct mrs as [m r s]. unfold RNE, Nrec. cbn [shr_m shr_r shr_s].
  set (c := 2 * b2z r + b2z s).
  assert (Hc : 0 <= c < 4) by (subst c; destruct r, s; cbn; lia).
  replace (4 * m + 2 * b2z r + b2z s) with (4 * m + c) by (subst c; lia).
  replace ((4 * m + c) / 4) with m by (apply (Z.div_unique _ 4 m c); lia).
  replace ((4 * m + c) mod 4) with c by (apply (Z.mod_unique _ 4 m c); lia).
  subst c. destruct r, s; reflexivity.
Qed.

Lemma RNE_bounds N : N / 4 <= RNE N <= N / 4 + 1.
Proof.
  unfold RNE. cbv zeta.
  destruct (N mod 4 <=? 1); [lia|].
  destruct (N mod 4 =? 2); [destruct (Z.even _)|]; lia.
Qed.

Lemma RNE_exact m : RNE (4 * m) = m.
Proof.
  unfold RNE. cbv zeta.
  replace (4 * m) with (m * 4) by lia. rewrite Z.div_mul, Z.mod_mul by lia.
  reflexivity.
Qed.

Lemma RNE_mono N1 N2 : N1 <= N2 -> RNE N1 <= RNE N2.
Proof.
  intros Hle.
  pose proof (Z.div_mod N1 4 ltac:(lia)) as E1.
  pose proof (Z.div_mod N2 4 ltac:(lia)) as E2.
  pose proof (Z.mod_pos_bound N1 4 ltac:(lia)) as B1.
  pose proof (Z.mod_pos_bound N2 4 ltac:(lia)) as B2.
  pose proof (RNE_bounds N1) as R1. pose proof (RNE_bounds N2) as R2.
  destruct (Z.eq_dec (N1 / 4) (N2 / 4)) as [Heq|Hne]; [|lia].
  unfold RNE in *. cbv zeta in *. rewrite <- Heq in *.
  destruct (Z.leb_spec (N1 mod 4) 1), (Z.leb_spec (N2 mod 4) 1),
    (Z.eqb_spec (N1 mod 4) 2), (Z.eqb_spec (N2 mod 4) 2), (Z.even (N1 / 4)); lia.
Qed.

Lemma RNE_upper N B : N < 4 * B -> RNE N <= B.
Proof.
  intros H. pose proof (RNE_bounds N).
  assert (N / 4 < B) by (apply Z.div_lt_upper_bound; lia). lia.
Qed.

Lemma RNE_lower N B : 4 * B <= N -> B <= RNE N.
Proof.
  intros H. pose proof (RNE_bounds N).
  assert (B <= N / 4) by (apply Z.div_le_lower_bound; lia). lia.
Qed.

(** ** Number of digits *)

Lemma digits2_pos_size p : digits2_pos p = Pos.size p.
Proof. induction p; cbn; congruence. Qed.

Lemma Zdigits2_log2 x : 0 < x -> Zdigits2 x = Z.log2 x + 1.
Proof.
  destruct x as [|p|p]; try lia. intros _. cbn [Zdigits2].
  rewrite digits2_pos_size. destruct p; cbn; lia.
Qed.

Lemma Zdigits2_nonneg x : 0 <= Zdigits2 x.
Proof. destruct x; cbn; lia. Qed.

Lemma Zdigits2_bounds x : 0 < x -> 2 ^ (Zdigits2 x - 1) <= x < 2 ^ Zdigits2 x.
Proof.
  intros H. rewrite Zdigits2_log2 by exact H.
  replace (Z.log2 x + 1 - 1) with (Z.log2 x) by lia.
  replace (Z.log2 x + 1) with (Z.succ (Z.log2 x)) by lia.
  apply Z.log2_spec. exact H.
Qed.

Lemma Zdigits2_upper x : 0 <= x -> x < 2 ^ Zdigits2 x.
Proof.
  intros H. destruct (Z.eq_dec x 0) as [->|]; [cbn; lia|].
  apply Zdigits2_bounds. lia.
Qed.

Lemma Zdigits2_unique x d : 0 < d -> 2 ^ (d - 1) <= x < 2 ^ d -> Zdigits2 x = d.
Proof.
  intros Hd Hx.
  assert (0 < x) by (pose proof (Z.pow_pos_nonneg 2 (d - 1)); lia).
  rewrite Zdigits2_log2 by assumption.
  rewrite (Z.log2_unique x (d - 1)); try lia.
  replace (Z.succ (d - 1)) with d by lia. exact Hx.
Qed.

Lemma Zdigits2_le x d : 0 <= x -> 0 <= d -> x < 2 ^ d -> Zdigits2 x <= d.
Proof.
  intros Hx Hd H. destruct (Z.eq_dec x 0) as [->|]; [cbn; lia|].
  pose proof (Zdigits2_bounds x ltac:(lia)) as [Hl _].
  destruct (Z.le_gt_cases (Zdigits2 x) d); [assumption|exfalso].
  assert (2 ^ d <= 2 ^ (Zdigits2 x - 1)) by (apply Z.pow_le_mono_r; lia). lia.
Qed.

Lemma Zdigits2_ge x d : 0 < d -> 2 ^ (d - 1) <= x -> d <= Zdigits2 x.
Proof.
  intros Hd H.
  assert (0 < x) by (pose proof (Z.pow_pos_nonneg 2 (d - 1)); lia).
  pose proof (Zdigits2_bounds x ltac:(lia)) as [_ Hu].
  destruct (Z.le_gt_cases d (Zdigits2 x)); [assumption|exfalso].
  assert (2 ^ Zdigits2 x <= 2 ^ (d - 1)) by (apply Z.pow_le_mono_r; lia). lia.
Qed.

Lemma Zdigits2_mono x y : 0 <= x <= y -> Zdigits2 x <= Zdigits2 y.
Proof.
  intros [Hx Hxy]. destruct (Z.eq_dec x 0) as [->|]; [apply Zdigits2_nonneg|].
  apply Zdigits2_ge.
  - pose proof (Zdigits2_log2 x ltac:(lia)). pose proof (Z.log2_nonneg x). lia.
  - pose proof (Zdigits2_bounds x ltac:(lia)). lia.
Qed.

Lemma Zdigits2_shift x j :
  0 <= x -> 0 <= j -> Zdigits2 (x / 2 ^ j) = Z.max (Zdigits2 x - j) 0.
Proof.
  intros Hx Hj.
  assert (Hp : 0 < 2 ^ j) by (apply Z.pow_pos_nonneg; lia).
  destruct (Z.eq_dec x 0) as [->|Hx0]; [rewrite Z.div_0_l by lia; cbn; lia|].
  pose proof (Zdigits2_bounds x ltac:(lia)) as [Hl Hu].
  destruct (Z.le_gt_cases (Zdigits2 x) j) as [Hle|Hgt].
  - assert (x < 2 ^ j).
    { assert (2 ^ Zdigits2 x <= 2 ^ j) by (apply Z.pow_le_mono_r; lia). lia. }
    rewrite Z.div_small by lia. cbn. lia.
  - rewrite Z.max_l by lia. apply Zdigits2_unique; [lia|]. split.
    + apply Z.div_le_lower_bound; [lia|].
      rewrite <- Z.pow_add_r by lia.
      replace (j + (Zdigits2 x - j - 1)) with (Zdigits2 x - 1) by lia. exact Hl.
    + apply Z.div_lt_upper_bound; [lia|].
      rewrite <- Z.pow_add_r by lia.
      replace (j + (Zdigits2 x - j)) with (Zdigits2 x) by lia. exact Hu.
Qed.

Lemma Nrec_m mrs : shr_m mrs = Nrec mrs / 4.
Proof.
  unfold Nrec.
  apply (Z.div_unique _ 4 _ (2 * b2z (shr_r mrs) + b2z (shr_s mrs))).
  - destruct (shr_r mrs), (shr_s mrs); cbn [b2z]; lia.
  - lia.
Qed.

Lemma stk_div4 S k : 0 <= S -> 0 <= k -> stk S (2 ^ (k + 1)) / 4 = S / 4 / 2 ^ k.
Proof.
  intros HS Hk. unfold stk.
  assert (Hp : 0 < 2 ^ k) by (apply Z.pow_pos_nonneg; lia).
  rewrite Z.pow_add_r, Z.pow_1_r by lia.
  set (b := if S mod (2 ^ k * 2) =? 0 then 0 else 1).
  assert (Hb : 0 <= b <= 1) by (subst b; destruct (_ =? 0); lia).
  change 4 with (2 * 2) at 1. rewrite <- Z.div_div by lia.
  replace ((2 * (S / (2 ^ k * 2)) + b) / 2) with (S / (2 ^ k * 2))
    by (apply (Z.div_unique _ 2 _ b); lia).
  rewrite !Z.div_div by lia. f_equal. lia.
Qed.

Lemma stk_quarter n D : 0 <= n -> 0 < D -> stk n D / 4 = n / (2 * D).
Proof.
  intros Hn HD. unfold stk.
  set (b := if n mod D =? 0 then 0 else 1).
  assert (Hb : 0 <= b <= 1) by (subst b; destruct (_ =? 0); lia).
  change 4 with (2 * 2). rewrite <- Z.div_div by lia.
  replace ((2 * (n / D) + b) / 2) with (n / D) by (apply (Z.div_unique _ 2 _ b); lia).
  rewrite Z.div_div by lia. f_equal. lia.
Qed.

Lemma Zdigits2_mul_pow2 m k : 0 < m -> 0 <= k -> Zdigits2 (m * 2 ^ k) = Zdigits2 m + k.
Proof.
  intros Hm Hk. pose proof (Zdigits2_bounds m Hm) as [Hl Hu].
  pose proof (Zdigits2_nonneg m).
  assert (0 < Zdigits2 m).
  { destruct (Z.eq_dec (Zdigits2 m) 0) as [E|]; [|lia]. rewrite E in Hu. cbn in Hu. lia. }
  assert (Hp : 0 < 2 ^ k) by (apply Z.pow_pos_nonneg; lia).
  apply Zdigits2_unique; [lia|]. split.
  - replace (Zdigits2 m + k - 1) with (Zdigits2 m - 1 + k) by lia.
    rewrite Z.pow_add_r by lia. nia.
  - rewrite Z.pow_add_r by lia. nia.
Qed.

(** Comparing [a * 2 ^ p] with [b * 2 ^ q] only depends on [p - q]. *)
Lemma pow2_le_shift a b p q p' q' :
  0 <= p -> 0 <= q -> 0 <= p' -> 0 <= q' -> p - q = p' - q' ->
  a * 2 ^ p <= b * 2 ^ q -> a * 2 ^ p' <= b * 2 ^ q'.
Proof.
  intros Hp Hq Hp' Hq' E H.
  destruct (Z.le_gt_cases p p') as [Hle|Hgt].
  - replace p' with (p + (p' - p)) by lia. replace q' with (q + (p' - p)) by lia.
    rewrite !Z.pow_add_r by lia.
    assert (0 < 2 ^ (p' - p)) by (apply Z.pow_pos_nonneg; lia). nia.
  - replace p with (p' + (p - p')) in H by lia. replace q with (q' + (p - p')) in H by lia.
    rewrite !Z.pow_add_r in H by lia.
    assert (0 < 2 ^ (p - p')) by (apply Z.pow_pos_nonneg; lia). nia.
Qed.

Lemma shl_align_spec m e e' :
  let '(mz, ez) := shl_align m e e' in
  ez = Z.min e e' /\ Zpos mz = Zpos m * 2 ^ (e - ez).
Proof.
  unfold shl_align. destruct (e' - e) as [|d|d] eqn:Ed.
  - split; [lia|]. replace (e - e) with 0 by lia. lia.
  - split; [lia|]. replace (e - e) with 0 by lia. lia.
  - split; [lia|]. change (Pos.iter xO m d) with (shift_pos d m).
    rewrite shift_pos_correct, Z.pow_pos_fold.
    replace (e - e') with (Zpos d) by lia. lia.
Qed.

Lemma new_location_code m2 r :
  0 <= r < m2 ->
  4 * 0 + code (new_location m2 r) = stk (2 * r) m2.
Proof.
  intros Hr. unfold stk, new_location, new_location_even, new_location_odd.
  assert (Hcases : 2 * r < m2 \/ 2 * r = m2 \/ m2 < 2 * r) by lia.
  assert (Hdiv : (2 * r) / m2 = if 2 * r <? m2 then 0 else 1).
  { destruct (Z.ltb_spec (2 * r) m2).
    - apply Z.div_small; lia.
    - symmetry. apply (Z.div_unique _ m2 1 (2 * r - m2)); lia. }
  assert (Hmod : (2 * r) mod m2 = if 2 * r <? m2 then 2 * r else 2 * r - m2).
  { destruct (Z.ltb_spec (2 * r) m2).
    - apply Z.mod_small; lia.
    - symmetry. apply (Z.mod_unique _ m2 1 (2 * r - m2)); lia. }
  rewrite Hdiv, Hmod.
  assert (Hpar : Z.even m2 = false -> 2 * r <> m2).
  { intros Hev E. rewrite <- E, Z.even_mul in Hev. discriminate. }
  destruct (Z.even m2); cbv beta;
    (destruct (Z.eqb_spec r 0) as [->|Hr0];
     [cbn [code]; destruct (Z.ltb_spec (2 * 0) m2);
      match goal with |- context [?x =? 0] => destruct (Z.eqb_spec x 0) end; lia|]).
  - destruct (Z.compare_spec (2 * r) m2), (Z.ltb_spec (2 * r) m2); cbn [code]; try lia.
    all: match goal with |- context [?x =? 0] => destruct (Z.eqb_spec x 0) end; lia.
  - specialize (Hpar eq_refl).
    destruct (Z.compare_spec (2 * r + 1) m2), (Z.ltb_spec (2 * r) m2); cbn [code]; try lia.
    all: match goal with |- context [?x =? 0] => destruct (Z.eqb_spec x 0) end; lia.
Qed.

Lemma stk_add_mul a b D : 0 < D -> stk (a * D + b) D = 2 * a + stk b D.
Proof.
  intros HD. unfold stk.
  rewrite (Z.add_comm (a * D) b), Z.div_add, Z.mod_add by lia. lia.
Qed.

Lemma stk_pow_ratio n d A B A' B' :
  0 < d -> 0 <= A -> 0 <= B -> 0 <= A' -> 0 <= B' -> A - B = A' - B' ->
  stk (n * 2 ^ A) (d * 2 ^ B) = stk (n * 2 ^ A') (d * 2 ^ B').
Proof.
  intros Hd HA HB HA' HB' E.
  assert (0 < 2 ^ B) by (apply Z.pow_pos_nonneg; lia).
  assert (0 < 2 ^ B') by (apply Z.pow_pos_nonneg; lia).
  apply stk_ratio; try nia.
  replace (n * 2 ^ A * (d * 2 ^ B')) with (n * d * 2 ^ (A + B'))
    by (rewrite Z.pow_add_r by lia; lia).
  replace (n * 2 ^ A' * (d * 2 ^ B)) with (n * d * 2 ^ (A' + B))
    by (rewrite Z.pow_add_r by lia; lia).
  do 2 f_equal. lia.
Qed.

(** ** A binary format *)

Section Format.

Variables prec emax : Z.
Hypothesis prec_pos : 0 < prec.
Hypothesis prec_lt_emax : prec < emax.

Abbreviation emin := (SpecFloat.emin prec emax).
Abbreviation fexp := (SpecFloat.fexp prec emax).
Abbreviation finish := (Rounding.finish prec emax).
Abbreviation K := (Rounding.K prec emax).
Abbreviation Kinf := (Rounding.Kinf prec emax).
Abbreviation fkey := (Rounding.fkey prec emax).
Abbreviation good := (Rounding.good prec emax).
Abbreviation Rs := (Rounding.Rs prec emax).
Abbreviation ival := (Rounding.ival prec emax).
Abbreviation sval := (Rounding.sval prec emax).
Abbreviation Sdiv := (Rounding.Sdiv prec emax).

Lemma fexp_spec e : fexp e = Z.max (e - prec) emin.
Proof. reflexivity. Qed.

Lemma emin_spec : emin = 3 - emax - prec.
Proof. reflexivity. Qed.

Lemma pow_prec : 2 ^ prec = 2 * 2 ^ (prec - 1) /\ 0 < 2 ^ (prec - 1).
Proof.
  split.
  - replace prec with (1 + (prec - 1)) at 1 by lia.
    rewrite Z.pow_add_r by lia. reflexivity.
  - apply Z.pow_pos_nonneg; lia.
Qed.


Lemma binary_round_aux_finish mx ex lx :
  0 <= mx -> ex <= fexp (Zdigits2 mx + ex) ->
  binary_round_aux prec emax false mx ex lx =
  finish (RNE (stk (4 * mx + code lx) (2 ^ (fexp (Zdigits2 mx + ex) - ex + 1))))
         (fexp (Zdigits2 mx + ex)).
Proof.
  intros Hm He. unfold binary_round_aux, finish, shr_fexp at 1.
  pose proof (shr_Nrec (shr_record_of_loc mx lx) ex (fexp (Zdigits2 mx + ex) - ex)) as H.
  rewrite FloatFacts.shr_record_of_loc_m in H.
  destruct (shr (shr_record_of_loc mx lx) ex (fexp (Zdigits2 mx + ex) - ex)) as [mrs' e'].
  destruct H as (HN & _ & ->); [exact Hm|lia|].
  rewrite RNE_rec, HN, Nrec_of_loc.
  replace (ex + (fexp (Zdigits2 mx + ex) - ex)) with (fexp (Zdigits2 mx + ex)) by lia.
  reflexivity.
Qed.

(** ** Non-negative canonical floats and their keys *)





Lemma fkey_compare x y : good x -> good y -> SFcompare x y = Some (fkey x ?= fkey y).
Proof.
  destruct pow_prec as [Hp2 Hp].
  destruct x as [sx|sx| |sx mx ex], y as [sy|sy| |sy my ey]; cbn [good];
    try contradiction.
  9: { intros (-> & Hex & Hmx & Hnx) (-> & Hey & Hmy & Hny).
       cbn [SFcompare fkey]. f_equal. unfold K.
       change (Pos.compare_cont Eq mx my) with (Z.compare (Zpos mx) (Zpos my)).
       destruct (Z.compare_spec ex ey) as [->|Hlt|Hgt].
       - destruct (Z.compare_spec (Zpos mx) (Zpos my)); symmetry;
           rewrite ?Z.compare_eq_iff, ?Z.compare_lt_iff, ?Z.compare_gt_iff; lia.
       - symmetry. rewrite Z.compare_lt_iff.
         assert (2 ^ (prec - 1) <= Zpos my) by (apply Hny; lia). nia.
       - symmetry. rewrite Z.compare_gt_iff.
         assert (2 ^ (prec - 1) <= Zpos mx) by (apply Hnx; lia). nia. }
  all: intros Hx Hy;
    repeat match goal with
      | H : _ /\ _ |- _ => destruct H
      end; subst; cbn [SFcompare fkey]; f_equal; symmetry;
    unfold Kinf, K; rewrite ?Z.compare_eq_iff, ?Z.compare_lt_iff, ?Z.compare_gt_iff;
    try reflexivity; try (unfold SpecFloat.emin in *; nia).
Qed.

Lemma shr_nop mrs e k : k <= 0 -> shr mrs e k = (mrs, e).
Proof. destruct k; intros H; try reflexivity. lia. Qed.

Lemma Kinf_spec : Kinf = (2 * emax - 1) * 2 ^ (prec - 1).
Proof. unfold Kinf, K, SpecFloat.emin. lia. Qed.

Lemma finish_spec m1 t :
  emin <= t -> 0 <= m1 <= 2 ^ prec -> (emin < t -> 2 ^ (prec - 1) <= m1) ->
  good (finish m1 t) /\ fkey (finish m1 t) = Z.min (K t m1) Kinf.
Proof.
  destruct pow_prec as [Hp2 Hp]. intros Ht Hm Hn.
  unfold finish, shr_fexp.
  destruct (Z.eq_dec m1 (2 ^ prec)) as [->|Hne].
  - (* carry *)
    assert (Hd : Zdigits2 (2 ^ prec) = prec + 1).
    { apply Zdigits2_unique; [lia|]. replace (prec + 1 - 1) with prec by lia.
      split; [lia|]. apply Z.pow_lt_mono_r; lia. }
    rewrite Hd, fexp_spec. replace (Z.max (prec + 1 + t - prec) emin - t) with 1 by lia.
    pose proof (shr_Nrec (shr_record_of_loc (2 ^ prec) loc_Exact) t 1) as H.
    destruct (shr _ t 1) as [mrs'' e'']. rewrite FloatFacts.shr_record_of_loc_m in H.
    destruct H as (HN & _ & ->); try lia.
    rewrite Nrec_m, HN, Nrec_of_loc. cbn [code]. change (2 ^ (1 + 1)) with 4.
    replace (4 * 2 ^ prec + 0) with (2 ^ prec * 4) by lia.
    rewrite stk_exact by lia.
    replace (2 * 2 ^ prec / 4) with (2 ^ (prec - 1))
      by (apply (Z.div_unique _ 4 _ 0); lia).
    destruct (2 ^ (prec - 1)) as [|p|p] eqn:Ep; try lia.
    destruct (Z.leb_spec (t + 1) (emax - prec)); cbn [good fkey].
    + split; [repeat split; try lia|].
      unfold Kinf, K. rewrite Ep. unfold SpecFloat.emin in *. nia.
    + split; [reflexivity|]. unfold Kinf, K. rewrite Ep. unfold SpecFloat.emin in *. nia.
  - assert (Hk : fexp (Zdigits2 m1 + t) - t <= 0).
    { assert (Zdigits2 m1 <= prec) by (apply Zdigits2_le; lia).
      rewrite fexp_spec. lia. }
    rewrite (shr_nop _ _ _ Hk), FloatFacts.shr_record_of_loc_m.
    destruct m1 as [|p|p]; try lia.
    + cbn [good fkey]. split; [reflexivity|].
      assert (t = emin) by (destruct (Z.eq_dec t emin); [assumption|]; lia).
      subst t. rewrite Kinf_spec. unfold K. nia.
    + destruct (Z.leb_spec t (emax - prec)); cbn [good fkey].
      * split; [repeat split; try lia|].
        rewrite Kinf_spec. unfold K, SpecFloat.emin in *. nia.
      * split; [reflexivity|].
        assert (2 ^ (prec - 1) <= Zpos p) by (apply Hn; unfold SpecFloat.emin; lia).
        rewrite Kinf_spec. unfold K, SpecFloat.emin in *. nia.
Qed.

(** ** Rounding a sticky integer counted in units of [2 ^ (emin - 1)] *)


Lemma Rs_side S :
  0 <= S ->
  let t := fexp (Zdigits2 (S / 4) + emin) in
  let m1 := RNE (stk S (2 ^ (t - emin + 1))) in
  emin <= t /\ 0 <= m1 <= 2 ^ prec /\ (emin < t -> 2 ^ (prec - 1) <= m1).
Proof.
  destruct pow_prec as [Hp2 Hp]. intros HS t m1.
  assert (HA : 0 <= S / 4) by (apply Z.div_pos; lia).
  assert (Ht : emin <= t) by (subst t; rewrite fexp_spec; lia).
  assert (Hk : 0 <= t - emin) by lia.
  pose proof (RNE_bounds (stk S (2 ^ (t - emin + 1)))) as HR. fold m1 in HR.
  rewrite stk_div4 in HR by lia.
  assert (Hpk : 0 < 2 ^ (t - emin)) by (apply Z.pow_pos_nonneg; lia).
  assert (Hq : 0 <= S / 4 / 2 ^ (t - emin)) by (apply Z.div_pos; lia).
  pose proof (Zdigits2_upper (S / 4) HA) as Hu.
  pose proof (Zdigits2_nonneg (S / 4)) as Hd0.
  split; [exact Ht|]. split; [split; [lia|]|].
  - assert (S / 4 / 2 ^ (t - emin) < 2 ^ prec); [|lia].
    apply Z.div_lt_upper_bound; [lia|]. rewrite <- Z.pow_add_r by lia.
    assert (2 ^ Zdigits2 (S / 4) <= 2 ^ (t - emin + prec)); [|lia].
    apply Z.pow_le_mono_r; [lia|]. subst t. rewrite fexp_spec. lia.
  - intros Hlt.
    assert (Et : t - emin = Zdigits2 (S / 4) - prec) by (subst t; rewrite fexp_spec in *; lia).
    assert (0 < S / 4).
    { destruct (Z.eq_dec (S / 4) 0) as [E|]; [|lia]. rewrite E in Et. cbn in Et. lia. }
    pose proof (Zdigits2_bounds (S / 4) ltac:(lia)) as [Hl _].
    assert (2 ^ (prec - 1) <= S / 4 / 2 ^ (t - emin)); [|lia].
    apply Z.div_le_lower_bound; [lia|]. rewrite <- Z.pow_add_r by lia.
    replace (t - emin + (prec - 1)) with (Zdigits2 (S / 4) - 1) by lia. exact Hl.
Qed.

Lemma Rs_good S : 0 <= S -> good (Rs S).
Proof.
  intros HS. destruct (Rs_side S HS) as (H1 & H2 & H3). now apply finish_spec.
Qed.

Lemma Rs_key S :
  0 <= S ->
  fkey (Rs S) =
  Z.min (K (fexp (Zdigits2 (S / 4) + emin))
           (RNE (stk S (2 ^ (fexp (Zdigits2 (S / 4) + emin) - emin + 1))))) Kinf.
Proof.
  intros HS. destruct (Rs_side S HS) as (H1 & H2 & H3). now apply finish_spec.
Qed.

Lemma Rs_key_mono S1 S2 : 0 <= S1 <= S2 -> fkey (Rs S1) <= fkey (Rs S2).
Proof.
  destruct pow_prec as [Hp2 Hp]. intros [H1 H12].
  rewrite !Rs_key by lia.
  destruct (Rs_side S1 H1) as (Ht1 & Hm1 & Hn1).
  destruct (Rs_side S2 ltac:(lia)) as (Ht2 & Hm2 & Hn2).
  cbv zeta in *.
  set (t1 := fexp (Zdigits2 (S1 / 4) + emin)) in *.
  set (t2 := fexp (Zdigits2 (S2 / 4) + emin)) in *.
  assert (Ht : t1 <= t2).
  { subst t1 t2. rewrite !fexp_spec.
    assert (Zdigits2 (S1 / 4) <= Zdigits2 (S2 / 4)); [|lia].
    apply Zdigits2_mono. split; [apply Z.div_pos; lia|].
    apply Z.div_le_mono; lia. }
  apply Z.min_le_compat_r. unfold K.
  destruct (Z.eq_dec t1 t2) as [E|Hne].
  - rewrite E. apply Z.add_le_mono_l, RNE_mono.
    assert (0 < 2 ^ (t2 - emin + 1)) by (apply Z.pow_pos_nonneg; lia).
    apply stk_mono; nia.
  - assert (2 ^ (prec - 1) <= RNE (stk S2 (2 ^ (t2 - emin + 1)))) by (apply Hn2; lia).
    nia.
Qed.

Lemma Rs_mono S1 S2 : 0 <= S1 <= S2 -> SFleb (Rs S1) (Rs S2) = true.
Proof.
  intros H. unfold SFleb.
  rewrite (fkey_compare _ _ (Rs_good S1 ltac:(lia)) (Rs_good S2 ltac:(lia))).
  pose proof (Rs_key_mono S1 S2 H).
  destruct (Z.compare_spec (fkey (Rs S1)) (fkey (Rs S2))); try reflexivity; lia.
Qed.

(** ** What [binary_round_aux] computes *)

(** The input is the sticky image, at exponent [ex], of the number
    [n / D0] counted in units of [2 ^ (ex - 1 - j)]. *)
Lemma binary_round_aux_Rs mx ex lx n D0 j i :
  0 <= mx -> ex <= fexp (Zdigits2 mx + ex) ->
  0 <= n -> 0 < D0 -> 0 <= j -> 0 <= i -> ex - j = emin - i ->
  4 * mx + code lx = stk n (D0 * 2 ^ j) ->
  binary_round_aux prec emax false mx ex lx = Rs (stk n (D0 * 2 ^ i)).
Proof.
  intros Hm He Hn HD Hj Hi Hji HN.
  rewrite binary_round_aux_finish by assumption. unfold Rs.
  assert (Hpj : 0 < 2 ^ j) by (apply Z.pow_pos_nonneg; lia).
  assert (Hpi : 0 < 2 ^ i) by (apply Z.pow_pos_nonneg; lia).
  set (P := n / (2 * D0)).
  assert (HP : 0 <= P) by (apply Z.div_pos; lia).
  assert (Emx : mx = P / 2 ^ j).
  { replace mx with ((4 * mx + code lx) / 4)
      by (symmetry; apply (Z.div_unique _ 4 _ (code lx)); [destruct lx as [|[]]; cbn; lia|lia]).
    rewrite HN, stk_quarter by nia. subst P.
    rewrite Z.div_div by lia. f_equal. lia. }
  assert (ES : stk n (D0 * 2 ^ i) / 4 = P / 2 ^ i).
  { rewrite stk_quarter by nia. subst P. rewrite Z.div_div by lia. f_equal. lia. }
  assert (Et : fexp (Zdigits2 mx + ex) = fexp (Zdigits2 (stk n (D0 * 2 ^ i) / 4) + emin)).
  { rewrite ES. rewrite Emx in He |- *. rewrite !Zdigits2_shift in * by lia.
    rewrite !fexp_spec in *. lia. }
  rewrite <- Et. set (t := fexp (Zdigits2 mx + ex)) in *.
  assert (emin <= t) by (subst t; rewrite fexp_spec; lia).
  f_equal. f_equal. rewrite HN.
  rewrite !stk_shift by (try lia; nia).
  f_equal. rewrite <- !Z.mul_assoc, <- !Z.pow_add_r by lia. do 2 f_equal. lia.
Qed.

(** Rounding a positive integer mantissa. *)
Lemma binary_round_Rs m e :
  emin <= e -> binary_round prec emax false m e = Rs (4 * (Zpos m * 2 ^ (e - emin))).
Proof.
  intros He. unfold binary_round.
  pose proof (shl_align_spec m e (fexp (Zpos (digits2_pos m) + e))) as H.
  destruct (shl_align _ _ _) as [mz ez]. destruct H as [Ez Em].
  change (Zpos (digits2_pos m)) with (Zdigits2 (Zpos m)) in Ez.
  assert (Hez : emin <= ez) by (rewrite Ez, fexp_spec; lia).
  assert (Hp : 0 < 2 ^ (ez - emin)) by (apply Z.pow_pos_nonneg; lia).
  assert (Hd : Zdigits2 (Zpos mz) + ez = Zdigits2 (Zpos m) + e).
  { rewrite Em, Zdigits2_mul_pow2 by lia. lia. }
  rewrite (binary_round_aux_Rs (Zpos mz) ez loc_Exact
             (2 * Zpos mz * 2 ^ (ez - emin)) 1 (ez - emin) 0); try lia.
  - f_equal. rewrite Z.pow_0_r, Z.mul_1_l.
    replace (2 * Zpos mz * 2 ^ (ez - emin)) with (2 * Zpos mz * 2 ^ (ez - emin) * 1) by lia.
    rewrite stk_exact by lia. rewrite Em, <- !Z.mul_assoc, <- Z.pow_add_r by lia.
    replace (e - ez + (ez - emin)) with (e - emin) by lia. lia.
  - rewrite Hd. lia.
  - cbn [code]. rewrite Z.mul_1_l, stk_exact by lia. lia.
Qed.

(** ** Values of canonical floats *)



Lemma good_fexp m e : good (S754_finite false m e) -> fexp (Zdigits2 (Zpos m) + e) = e.
Proof.
  destruct pow_prec as [Hp2 Hp]. intros (_ & He & Hm & Hn). rewrite fexp_spec.
  assert (Hd : Zdigits2 (Zpos m) <= prec) by (apply Zdigits2_le; lia).
  destruct (Z.eq_dec e emin) as [->|Hne]; [lia|].
  assert (prec <= Zdigits2 (Zpos m)) by (apply Zdigits2_ge; [lia|apply Hn; lia]).
  lia.
Qed.

Lemma valid_good s m e :
  valid_binary prec emax (S754_finite s m e) = true -> good (S754_finite false m e).
Proof.
  destruct pow_prec as [Hp2 Hp].
  cbn [valid_binary]. unfold bounded, canonical_mantissa.
  rewrite andb_true_iff, Z.eqb_eq, Z.leb_le.
  change (Zpos (digits2_pos m)) with (Zdigits2 (Zpos m)). rewrite fexp_spec.
  intros [Hc Hb]. cbn [good].
  pose proof (Zdigits2_bounds (Zpos m) ltac:(lia)) as [Hl Hu].
  split; [reflexivity|]. split; [lia|]. split.
  - assert (2 ^ Zdigits2 (Zpos m) <= 2 ^ prec) by (apply Z.pow_le_mono_r; lia). lia.
  - intros Hlt. assert (Zdigits2 (Zpos m) = prec) by lia.
    replace (prec - 1) with (Zdigits2 (Zpos m) - 1) by lia. exact Hl.
Qed.

Lemma Rs_0 : Rs 0 = S754_zero false.
Proof.
  unfold Rs. rewrite Z.div_0_l by lia. change (Zdigits2 0) with 0. rewrite Z.add_0_l.
  replace (fexp emin) with emin by (rewrite fexp_spec; lia).
  replace (emin - emin + 1) with 1 by lia.
  change (stk 0 (2 ^ 1)) with 0. change (RNE 0) with 0.
  unfold finish, shr_fexp. change (Zdigits2 0) with 0. rewrite Z.add_0_l.
  rewrite shr_nop by (rewrite fexp_spec; lia). reflexivity.
Qed.

Lemma fkey_finite_lt_Kinf m e : good (S754_finite false m e) -> K e (Zpos m) < Kinf.
Proof.
  destruct pow_prec as [Hp2 Hp]. intros (_ & He & Hm & Hn).
  rewrite Kinf_spec. unfold K, SpecFloat.emin in *. nia.
Qed.

Lemma fkey_inj x y : good x -> good y -> fkey x = fkey y -> x = y.
Proof.
  intros Hx Hy E. pose proof (fkey_compare x y Hx Hy) as Hc.
  rewrite E, Z.compare_refl in Hc.
  destruct x as [sx|sx| |sx mx ex], y as [sy|sy| |sy my ey]; cbn [good] in *;
    try contradiction; subst;
    repeat match goal with H : _ /\ _ |- _ => destruct H end; subst;
    try reflexivity; cbn in Hc; try discriminate.
  destruct (Z.compare_spec ex ey); try discriminate. subst.
  injection Hc as Hc. apply Pos.compare_eq in Hc. now subst.
Qed.

(** Rounding leaves a canonical float as it is. *)
Lemma Rs_ival x : good x -> is_finite x = true -> Rs (4 * ival x) = x.
Proof.
  destruct pow_prec as [Hp2 Hp]. intros Hx Hf.
  destruct x as [s|s| |s m e]; try discriminate.
  - cbn [good] in Hx. subst. apply Rs_0.
  - assert (s = false) by (now destruct Hx). subst s.
    pose proof (good_fexp m e Hx) as Hfe. destruct Hx as (_ & He & Hm & Hn).
    assert (Hpe : 0 < 2 ^ (e - emin)) by (apply Z.pow_pos_nonneg; lia).
    apply fkey_inj; [apply Rs_good; cbn [ival]; nia|cbn [good]; auto|].
    rewrite Rs_key by (cbn [ival]; nia). cbn [ival fkey].
    replace (4 * (Zpos m * 2 ^ (e - emin)) / 4) with (Zpos m * 2 ^ (e - emin))
      by (apply (Z.div_unique _ 4 _ 0); lia).
    rewrite Zdigits2_mul_pow2 by lia.
    replace (Zdigits2 (Zpos m) + (e - emin) + emin) with (Zdigits2 (Zpos m) + e) by lia.
    rewrite Hfe.
    replace (4 * (Zpos m * 2 ^ (e - emin))) with (2 * Zpos m * 2 ^ (e - emin + 1))
      by (rewrite Z.pow_add_r by lia; lia).
    rewrite stk_exact by (apply Z.pow_pos_nonneg; lia).
    replace (2 * (2 * Zpos m)) with (4 * Zpos m) by lia. rewrite RNE_exact.
    apply Z.min_l. apply Z.lt_le_incl, fkey_finite_lt_Kinf. cbn [good]. auto.
Qed.

Lemma fkey_leb x y : good x -> good y -> (SFleb x y = true <-> fkey x <= fkey y).
Proof.
  intros Hx Hy. unfold SFleb. rewrite (fkey_compare x y Hx Hy).
  destruct (Z.compare_spec (fkey x) (fkey y)); split; intros; try lia; try reflexivity;
    discriminate.
Qed.

Lemma fkey_ltb x y : good x -> good y -> (SFltb x y = true <-> fkey x < fkey y).
Proof.
  intros Hx Hy. unfold SFltb. rewrite (fkey_compare x y Hx Hy).
  destruct (Z.compare_spec (fkey x) (fkey y)); split; intros; try lia; try reflexivity;
    discriminate.
Qed.

Lemma ival_nonneg x : 0 <= ival x.
Proof.
  destruct x as [s|s| |s m e]; cbn [ival];
    first [lia | pose proof (Z.pow_nonneg 2 (e - emin)); nia].
Qed.

(** On canonical finite floats the order is the order of the values. *)
Lemma ival_le_fkey x y :
  good x -> good y -> is_finite x = true -> is_finite y = true ->
  (ival x <= ival y <-> fkey x <= fkey y).
Proof.
  intros Hx Hy Fx Fy.
  assert (Hmono : forall u v, good u -> good v -> is_finite u = true -> is_finite v = true ->
                              ival u <= ival v -> fkey u <= fkey v).
  { intros u v Hu Hv Fu Fv Hle.
    rewrite <- (Rs_ival u Hu Fu), <- (Rs_ival v Hv Fv).
    apply Rs_key_mono. pose proof (ival_nonneg u). lia. }
  split; [now apply Hmono|].
  intros Hk. destruct (Z.le_gt_cases (ival x) (ival y)) as [|Hgt]; [assumption|].
  assert (fkey y <= fkey x) by (apply Hmono; auto; lia).
  assert (x = y) by (apply fkey_inj; auto; lia). subst. lia.
Qed.

Lemma fkey_le_Kinf x : good x -> fkey x <= Kinf.
Proof.
  destruct pow_prec as [Hp2 Hp].
  destruct x as [s|s| |s m e]; cbn [good fkey]; try contradiction; intros H.
  - rewrite Kinf_spec. nia.
  - lia.
  - destruct H as (-> & H). apply Z.lt_le_incl, fkey_finite_lt_Kinf. cbn [good]. auto.
Qed.

Lemma fkey_nonneg x : good x -> 0 <= fkey x.
Proof.
  destruct pow_prec as [Hp2 Hp].
  destruct x as [s|s| |s m e]; cbn [good fkey]; try contradiction; intros H; try lia.
  - rewrite Kinf_spec. nia.
  - unfold K. nia.
Qed.

Lemma fkey_Kinf x : good x -> fkey x = Kinf -> x = S754_infinity false.
Proof.
  intros Hx E. apply fkey_inj; [assumption|reflexivity|exact E].
Qed.

(** ** Conversion of a non-negative integer *)

Lemma binary_normalize_Rs n :
  emin <= 0 -> 0 <= n ->
  binary_normalize prec emax n 0 false = Rs (4 * (n * 2 ^ (0 - emin))).
Proof.
  intros He Hn. destruct n as [|p|p]; try lia.
  - cbn [binary_normalize].
    replace (4 * (0 * 2 ^ (0 - emin))) with 0 by lia. now rewrite Rs_0.
  - cbn [binary_normalize]. now apply binary_round_Rs.
Qed.

(** ** Comparison with a number below *)

Lemma SFltb_leb_trans a x y :
  valid_binary prec emax a = true -> good x -> good y ->
  SFltb a x = true -> SFleb x y = true -> SFltb a y = true.
Proof.
  intros Va Hx Hy Hax Hxy.
  apply (fkey_leb x y Hx Hy) in Hxy.
  pose proof (fkey_nonneg x Hx) as Hx0.
  destruct a as [sa|[]| |[] ma ea]; try discriminate.
  - (* zero *)
    assert (0 < fkey x).
    { destruct x as [sx|sx| |sx mx ex]; cbn [good] in Hx; try contradiction.
      - discriminate.
      - destruct pow_prec. cbn [fkey]. rewrite Kinf_spec. nia.
      - destruct Hx as (-> & He & _). cbn [fkey]. unfold K. destruct pow_prec. nia. }
    destruct y as [sy|sy| |sy my ey]; cbn [good] in Hy; try contradiction.
    + cbn [fkey] in Hxy. lia.
    + subst. reflexivity.
    + destruct Hy as (-> & _). reflexivity.
  - destruct y as [sy|sy| |sy my ey]; cbn [good] in Hy; try contradiction.
    + reflexivity.
    + subst. reflexivity.
    + destruct Hy as (-> & _). reflexivity.
  - destruct x as [sx|sx| |sx mx ex]; cbn [good] in Hx; try contradiction;
      try (destruct Hx as (-> & _)); subst; discriminate.
  - destruct y as [sy|sy| |sy my ey]; cbn [good] in Hy; try contradiction.
    + reflexivity.
    + subst. reflexivity.
    + destruct Hy as (-> & _). reflexivity.
  - apply valid_good in Va.
    apply (fkey_ltb _ _ Va Hx) in Hax. apply (fkey_ltb _ _ Va Hy). lia.
Qed.

(** ** Subtraction *)


Lemma SFltb_sval a x :
  valid_binary prec emax a = true -> is_finite a = true ->
  good x -> is_finite x = true -> SFltb a x = true -> sval a < ival x.
Proof.
  intros Va Fa Hx Fx Hlt. pose proof (ival_nonneg x) as Hx0.
  destruct a as [sa|sa| |[] ma ea]; try discriminate; cbn [sval cond_Zopp].
  - destruct x as [sx|sx| |sx mx ex]; try discriminate.
    cbn [ival]. destruct Hx as (_ & He & _).
    assert (0 < 2 ^ (ex - emin)) by (apply Z.pow_pos_nonneg; lia). nia.
  - apply valid_good in Va. destruct Va as (_ & He & _).
    assert (0 < 2 ^ (ea - emin)) by (apply Z.pow_pos_nonneg; lia). nia.
  - apply valid_good in Va.
    apply (fkey_ltb _ _ Va Hx) in Hlt.
    destruct (Z.lt_ge_cases (Zpos ma * 2 ^ (ea - emin)) (ival x)) as [|Hge]; [assumption|].
    change (Zpos ma * 2 ^ (ea - emin)) with (ival (S754_finite false ma ea)) in Hge.
    apply (ival_le_fkey x _ Hx Va Fx eq_refl) in Hge. lia.
Qed.

Lemma SFsub_Rs x a :
  good x -> is_finite x = true ->
  valid_binary prec emax a = true -> is_finite a = true ->
  sval a < ival x ->
  SFsub prec emax x a = Rs (4 * (ival x - sval a)).
Proof.
  intros Hx Fx Va Fa Hlt.
  destruct x as [sx|sx| |sx mx ex]; try discriminate;
    destruct a as [sa|sa| |sa ma ea]; try discriminate.
  - cbn [good] in Hx. subst sx. cbv [sval ival] in Hlt |- *.
    pose proof (valid_good _ _ _ Va) as Ga. destruct (Ga) as (_ & He & _).
    assert (0 < 2 ^ (ea - emin)) by (apply Z.pow_pos_nonneg; lia).
    destruct sa; cbn [cond_Zopp] in *; [|nia].
    cbn [SFsub negb].
    replace (4 * (0 - - (Zpos ma * 2 ^ (ea - emin))))
      with (4 * ival (S754_finite false ma ea)) by (cbn [ival]; lia).
    now rewrite Rs_ival.
  - assert (sx = false) by (now destruct Hx). subst sx.
    cbn [SFsub sval]. rewrite Z.sub_0_r. now rewrite Rs_ival.
  - assert (sx = false) by (now destruct Hx). subst sx.
    pose proof (valid_good _ _ _ Va) as Ga.
    destruct Hx as (_ & Hex & _). destruct Ga as (_ & Hea & _).
    cbn [SFsub]. cbv zeta.
    set (ez := Z.min ex ea).
    pose proof (shl_align_spec mx ex ez) as H1.
    pose proof (shl_align_spec ma ea ez) as H2.
    destruct (shl_align mx ex ez) as [mx' ex'], (shl_align ma ea ez) as [ma' ea'].
    destruct H1 as [E1 M1], H2 as [E2 M2]. cbn [fst cond_Zopp].
    assert (Ex' : ex' = ez) by lia. assert (Ea' : ea' = ez) by lia.
    clear E1 E2. subst ex' ea'.
    assert (Hpz : 0 < 2 ^ (ez - emin)) by (apply Z.pow_pos_nonneg; lia).
    assert (Hval : (Zpos mx' - cond_Zopp sa (Zpos ma')) * 2 ^ (ez - emin)
                   = ival (S754_finite false mx ex) - sval (S754_finite sa ma ea)).
    { cbn [ival sval]. rewrite M1, M2.
      replace (ex - emin) with (ex - ez + (ez - emin)) by lia.
      replace (ea - emin) with (ea - ez + (ez - emin)) by lia.
      rewrite !Z.pow_add_r by lia. destruct sa; cbn [cond_Zopp]; ring. }
    assert (Hpos : 0 < (Zpos mx' - cond_Zopp sa (Zpos ma')) * 2 ^ (ez - emin))
      by (rewrite Hval; lia).
    rewrite <- Hval.
    destruct (Zpos mx' - cond_Zopp sa (Zpos ma')) as [|d|d] eqn:Ed; try nia.
    cbn [binary_normalize]. apply binary_round_Rs. lia.
Qed.

Lemma SFsub_mono x x' a :
  good x -> good x' -> valid_binary prec emax a = true ->
  SFltb a x = true -> SFleb x x' = true ->
  good (SFsub prec emax x a) /\ good (SFsub prec emax x' a) /\
  SFleb (SFsub prec emax x a) (SFsub prec emax x' a) = true.
Proof.
  intros Hx Hx' Va Hlt Hle.
  pose proof (SFltb_leb_trans a x x' Va Hx Hx' Hlt Hle) as Hlt'.
  assert (Hinf : good (S754_infinity false)) by reflexivity.
  destruct (is_finite a) eqn:Fa.
  - assert (Hfin : forall y, good y -> SFltb a y = true -> is_finite y = true ->
                   SFsub prec emax y a = Rs (4 * (ival y - sval a)) /\ 0 <= ival y - sval a).
    { intros y Hy Hay Fy. pose proof (SFltb_sval a y Va Fa Hy Fy Hay).
      split; [now apply SFsub_Rs|lia]. }
    assert (Hinfsub : SFsub prec emax (S754_infinity false) a = S754_infinity false).
    { destruct a as [sa|sa| |sa ma ea]; try discriminate; reflexivity. }
    destruct (is_finite x') eqn:Fx'.
    + assert (Fx : is_finite x = true).
      { destruct x as [sx|sx| |sx mx ex]; try reflexivity; [|contradiction].
        cbn [good] in Hx. subst sx.
        apply (fkey_leb _ _ Hinf Hx') in Hle. cbn [fkey] in Hle.
        pose proof (fkey_le_Kinf x' Hx').
        rewrite (fkey_Kinf x' Hx') in Fx' by lia. discriminate. }
      destruct (Hfin x Hx Hlt Fx) as [-> H0], (Hfin x' Hx' Hlt' Fx') as [-> H0'].
      split; [apply Rs_good; lia|]. split; [apply Rs_good; lia|].
      apply Rs_mono.
      apply (fkey_leb _ _ Hx Hx'), (ival_le_fkey x x' Hx Hx' Fx Fx') in Hle. lia.
    + assert (x' = S754_infinity false).
      { destruct x' as [sx|sx| |sx mx ex]; try discriminate; [|contradiction].
        cbn [good] in Hx'. now subst. }
      subst x'. rewrite Hinfsub.
      assert (Gx : good (SFsub prec emax x a)).
      { destruct (is_finite x) eqn:Fx.
        - destruct (Hfin x Hx Hlt Fx) as [-> H0]. apply Rs_good. lia.
        - destruct x as [sx|sx| |sx mx ex]; try discriminate; try contradiction.
          cbn [good] in Hx. subst. now rewrite Hinfsub. }
      split; [exact Gx|]. split; [reflexivity|].
      apply (fkey_leb _ _ Gx Hinf). now apply fkey_le_Kinf.
  - destruct a as [sa|[]| |sa ma ea]; try discriminate.
    + assert (Hs : forall y, good y -> SFsub prec emax y (S754_infinity true)
                                      = S754_infinity false).
      { intros [sy|sy| |sy my ey]; cbn [good]; try contradiction; intros Hy; subst;
          try reflexivity. }
      rewrite !Hs by assumption. auto.
    + destruct x as [sx|[]| |sx mx ex]; discriminate.
Qed.

(** ** Division *)


Lemma SFdiv_Rs m1 e1 m2 e2 :
  SFdiv prec emax (S754_finite false m1 e1) (S754_finite false m2 e2) =
  Rs (Sdiv (Zpos m1) e1 (Zpos m2) e2).
Proof.
  cbn [SFdiv xorb]. unfold SFdiv_core_binary. cbv zeta.
  set (d1 := Zdigits2 (Zpos m1)). set (d2 := Zdigits2 (Zpos m2)).
  set (e' := Z.min (fexp (d1 + e1 - (d2 + e2))) (e1 - e2)).
  set (s := e1 - e2 - e').
  assert (Hs : 0 <= s) by (subst s e'; lia).
  assert (Hps : 0 < 2 ^ s) by (apply Z.pow_pos_nonneg; lia).
  set (m' := match s with Zpos _ => Z.shiftl (Zpos m1) s | Z0 => Zpos m1 | Zneg _ => 0 end).
  assert (Em' : m' = Zpos m1 * 2 ^ s).
  { subst m'. destruct s as [|p|p] eqn:Es; try lia.
    rewrite Z.shiftl_mul_pow2 by lia. reflexivity. }
  assert (Hm'pos : 0 < m') by (rewrite Em'; apply Z.mul_pos_pos; lia).
  pose proof (Z.div_mod m' (Zpos m2) ltac:(lia)) as Hdm.
  pose proof (Z.mod_pos_bound m' (Zpos m2) ltac:(lia)) as Hr.
  unfold Z.div, Z.modulo in Hdm, Hr.
  destruct (Z.div_eucl m' (Zpos m2)) as [q r].
  assert (Hq : 0 <= q) by nia.
  set (j := Z.max (e' - emin) 0). set (i := Z.max (emin - e') 0).
  assert (Hpj : 0 < 2 ^ j) by (apply Z.pow_pos_nonneg; lia).
  pose proof (Zdigits2_bounds (Zpos m1) ltac:(lia)) as [Hl1 Hu1].
  pose proof (Zdigits2_bounds (Zpos m2) ltac:(lia)) as [Hl2 Hu2].
  fold d1 in Hl1, Hu1. fold d2 in Hl2, Hu2.
  rewrite (binary_round_aux_Rs q e' (new_location (Zpos m2) r)
             (2 * m' * 2 ^ j) (Zpos m2) j i); try lia.
  - f_equal. unfold Sdiv. rewrite Em', <- !Z.mul_assoc, <- Z.pow_add_r by lia.
    rewrite !Z.mul_assoc. apply stk_pow_ratio; lia.
  - (* the quotient has enough digits *)
    assert (Hd : d1 + s - d2 <= Zdigits2 q).
    { pose proof (Zdigits2_nonneg q).
      destruct (Z.le_gt_cases (d1 + s - d2) 0); [lia|].
      apply Zdigits2_ge; [lia|].
      assert (Hm : 2 ^ (d1 + s - d2 - 1) * 2 ^ d2 <= m').
      { rewrite <- Z.pow_add_r by (subst d2; pose proof (Zdigits2_nonneg (Zpos m2)); lia).
        replace (d1 + s - d2 - 1 + d2) with (d1 - 1 + s) by lia.
        rewrite Z.pow_add_r by (subst d1; pose proof (Zdigits2_nonneg (Zpos m1));
          destruct (Z.eq_dec (Zdigits2 (Zpos m1)) 0) as [E|]; [rewrite E in Hu1; cbn in Hu1|];
          lia).
        rewrite Em'. nia. }
      assert (0 < 2 ^ (d1 + s - d2 - 1)) by (apply Z.pow_pos_nonneg; lia).
      nia. }
    rewrite !fexp_spec. subst e' s. rewrite !fexp_spec in *. lia.
  - replace (2 * m' * 2 ^ j) with ((2 * m') * 2 ^ j) by lia.
    rewrite (stk_ratio (2 * m' * 2 ^ j) (Zpos m2 * 2 ^ j) (2 * m') (Zpos m2)) by nia.
    replace (2 * m') with ((2 * q) * Zpos m2 + 2 * r) by lia.
    rewrite stk_add_mul by lia.
    rewrite <- new_location_code by lia. lia.
Qed.

Lemma Sdiv_nonneg m1 e1 m2 e2 : 0 <= m1 -> 0 < m2 -> 0 <= Sdiv m1 e1 m2 e2.
Proof.
  intros H1 H2. unfold Sdiv.
  pose proof (Z.pow_pos_nonneg 2 (Z.max (e1 - e2 - emin) 0)).
  pose proof (Z.pow_pos_nonneg 2 (Z.max (- (e1 - e2 - emin)) 0)).
  apply stk_nonneg; nia.
Qed.

Lemma Sdiv_mono m1 e1 m1' e1' m2 e2 :
  0 < m2 -> emin <= e1 -> emin <= e1' ->
  m1 * 2 ^ (e1 - emin) <= m1' * 2 ^ (e1' - emin) ->
  Sdiv m1 e1 m2 e2 <= Sdiv m1' e1' m2 e2.
Proof.
  intros H2 He He' Hle. unfold Sdiv.
  set (A := Z.max (e1 - e2 - emin) 0). set (B := Z.max (- (e1 - e2 - emin)) 0).
  set (A' := Z.max (e1' - e2 - emin) 0). set (B' := Z.max (- (e1' - e2 - emin)) 0).
  assert (0 < 2 ^ B) by (apply Z.pow_pos_nonneg; lia).
  assert (0 < 2 ^ B') by (apply Z.pow_pos_nonneg; lia).
  apply stk_mono; try nia.
  assert (Hs : m1 * 2 ^ (A + B') <= m1' * 2 ^ (A' + B)).
  { apply (pow2_le_shift m1 m1' (e1 - emin) (e1' - emin)); lia. }
  rewrite !Z.pow_add_r in Hs by lia. nia.
Qed.

Lemma SFdiv_mono u u' g :
  good u -> good u' -> good g -> SFleb u u' = true ->
  is_finite (SFdiv prec emax u' g) = true ->
  good (SFdiv prec emax u g) /\ good (SFdiv prec emax u' g) /\
  SFleb (SFdiv prec emax u g) (SFdiv prec emax u' g) = true.
Proof.
  intros Hu Hu' Hg Hle Hfin.
  pose proof Hle as Hk. apply (fkey_leb _ _ Hu Hu') in Hk.
  assert (Hz : good (S754_zero false)) by reflexivity.
  assert (Hu0 : is_finite u' = true -> is_finite u = true).
  { intros F. destruct u as [s|s| |s m e]; try reflexivity; [|contradiction].
    cbn [good] in Hu. subst s. cbn [fkey] in Hk.
    pose proof (fkey_le_Kinf u' Hu').
    rewrite (fkey_Kinf u' Hu') in F by lia. discriminate. }
  destruct g as [sg|sg| |sg mg eg]; cbn [good] in Hg; try contradiction.
  - subst sg. destruct u' as [s|s| |s m e]; discriminate.
  - subst sg. destruct u' as [s'|s'| |s' m' e']; try discriminate;
      cbn [good] in Hu'; (assert (s' = false) by tauto); subst s';
      (assert (Fu : is_finite u = true) by (apply Hu0; reflexivity));
      (destruct u as [s|s| |s m e]; try discriminate);
      cbn [good] in Hu; (assert (s = false) by tauto); subst s; cbn; auto.
  - destruct Hg as (-> & Hg).
    destruct u' as [s'|s'| |s' m' e']; try discriminate;
      cbn [good] in Hu'; (assert (s' = false) by tauto); subst s';
      (assert (Fu : is_finite u = true) by (apply Hu0; reflexivity));
      (destruct u as [s|s| |s m e]; try discriminate);
      cbn [good] in Hu; (assert (s = false) by tauto); subst s.
    + cbn. auto.
    + exfalso. cbn [fkey] in Hk. unfold K in Hk. destruct Hu as (_ & He & _).
      destruct pow_prec. nia.
    + rewrite SFdiv_Rs. cbn [SFdiv xorb].
      pose proof (Sdiv_nonneg (Zpos m') e' (Zpos mg) eg ltac:(lia) ltac:(lia)) as HS'.
      split; [reflexivity|]. split; [now apply Rs_good|].
      apply (fkey_leb _ _ Hz (Rs_good _ HS')). cbn [fkey]. apply fkey_nonneg, Rs_good, HS'.
    + rewrite !SFdiv_Rs.
      pose proof (Sdiv_nonneg (Zpos m) e (Zpos mg) eg ltac:(lia) ltac:(lia)) as HS.
      pose proof (Sdiv_nonneg (Zpos m') e' (Zpos mg) eg ltac:(lia) ltac:(lia)) as HS'.
      split; [now apply Rs_good|]. split; [now apply Rs_good|].
      apply Rs_mono. split; [assumption|].
      apply Sdiv_mono; try lia; try (now destruct Hu as (_ & ? & _));
        try (now destruct Hu' as (_ & ? & _)).
      apply (ival_le_fkey (S754_finite false m e) (S754_finite false m' e')); auto.
Qed.

Lemma pos_valid_good x :
  valid_binary prec emax x = true -> SFltb (S754_zero false) x = true -> good x.
Proof.
  intros Vx Hlt. destruct x as [s|[]| |[] m e]; try discriminate.
  - reflexivity.
  - now apply valid_good in Vx.
Qed.

Lemma good_zero : good (S754_zero false).
Proof. reflexivity. Qed.

Lemma good_inf : good (S754_infinity false).
Proof. reflexivity. Qed.

Lemma good_leb_finite x y :
  good x -> good y -> SFleb x y = true -> is_finite y = true -> is_finite x = true.
Proof.
  intros Hx Hy Hle Fy. apply (fkey_leb _ _ Hx Hy) in Hle.
  destruct x as [s|s| |s m e]; try reflexivity; [|contradiction].
  cbn [good] in Hx. subst s. cbn [fkey] in Hle.
  pose proof (fkey_le_Kinf y Hy).
  rewrite (fkey_Kinf y Hy) in Fy by lia. discriminate.
Qed.

Lemma good_leb_inf x : good x -> SFleb x (S754_infinity false) = true.
Proof.
  intros Hx. apply (fkey_leb _ _ Hx good_inf). now apply fkey_le_Kinf.
Qed.

Lemma good_ival_le x y :
  good x -> good y -> is_finite x = true -> is_finite y = true ->
  SFleb x y = true -> ival x <= ival y.
Proof.
  intros Hx Hy Fx Fy Hle. apply (ival_le_fkey x y Hx Hy Fx Fy).
  now apply (fkey_leb _ _ Hx Hy).
Qed.

End Format.

End RoundingFacts.

(** * The deficit in nodes grows with the minimum *)

Module DeficitFacts.

Import Rounding RoundingFacts.

Lemma prec32 : 0 < F32.prec /\ F32.prec < F32.emax.
Proof. unfold F32.prec, F32.emax. lia. Qed.

Lemma prec64 : 0 < F64.prec /\ F64.prec < F64.emax.
Proof. unfold F64.prec, F64.emax. lia. Qed.

Abbreviation good32 := (good F32.prec F32.emax).
Abbreviation good64 := (good F64.prec F64.emax).
Abbreviation Rs32 := (Rs F32.prec F32.emax).
Abbreviation Rs64 := (Rs F64.prec F64.emax).
Abbreviation ival32 := (ival F32.prec F32.emax).
Abbreviation ival64 := (ival F64.prec F64.emax).

(** ** float32(n) *)

Lemma of_int_Rs n : 0 <= n -> F32.of_int n = Rs32 (4 * (n * 2 ^ 149)).
Proof.
  intros Hn. unfold F32.of_int.
  rewrite (binary_normalize_Rs F32.prec F32.emax (proj1 prec32) (proj2 prec32) n);
    [reflexivity| |exact Hn].
  unfold SpecFloat.emin, F32.prec, F32.emax. lia.
Qed.

Lemma of_int_good n : 0 <= n -> good32 (F32.of_int n).
Proof.
  intros Hn. rewrite of_int_Rs by exact Hn.
  apply Rs_good; try apply prec32. pose proof (Z.pow_pos_nonneg 2 149). nia.
Qed.

Lemma of_int_mono m m' :
  0 <= m <= m' -> SFleb (F32.of_int m) (F32.of_int m') = true.
Proof.
  intros H. rewrite !of_int_Rs by lia.
  apply Rs_mono; try apply prec32. pose proof (Z.pow_pos_nonneg 2 149). nia.
Qed.

(** ** float64(x) *)

Lemma of_f32_Rs x :
  good32 x -> is_finite x = true -> F64.of_f32 x = Rs64 (4 * (ival32 x * 2 ^ 925)).
Proof.
  intros Hx Fx. destruct x as [s|s| |s m e]; try discriminate.
  - cbn [good] in Hx. subst s. cbn [F64.of_f32 ival]. symmetry.
    apply (Rs_0 F64.prec F64.emax); apply prec64.
  - destruct Hx as (-> & He & _). cbn [F64.of_f32 ival].
    change (SpecFloat.emin F32.prec F32.emax) with (-149) in *.
    rewrite (binary_round_Rs F64.prec F64.emax (proj1 prec64) (proj2 prec64))
      by (change (SpecFloat.emin F64.prec F64.emax) with (-1074); lia).
    change (SpecFloat.emin F64.prec F64.emax) with (-1074).
    do 2 f_equal. rewrite <- Z.mul_assoc, <- Z.pow_add_r by lia. do 2 f_equal. lia.
Qed.

Lemma of_f32_inf : F64.of_f32 (S754_infinity false) = S754_infinity false.
Proof. reflexivity. Qed.

Lemma good32_cases x :
  good32 x -> is_finite x = true \/ x = S754_infinity false.
Proof.
  destruct x as [s|s| |s m e]; cbn [good]; intros H; subst; try contradiction; auto.
Qed.

Lemma of_f32_good x : good32 x -> good64 (F64.of_f32 x).
Proof.
  intros Hx. destruct (good32_cases x Hx) as [Fx| ->]; [|reflexivity].
  rewrite of_f32_Rs by assumption. apply Rs_good; try apply prec64.
  pose proof (ival_nonneg F32.prec F32.emax x). pose proof (Z.pow_pos_nonneg 2 925). nia.
Qed.

Lemma of_f32_mono x x' :
  good32 x -> good32 x' -> SFleb x x' = true ->
  SFleb (F64.of_f32 x) (F64.of_f32 x') = true.
Proof.
  intros Hx Hx' Hle.
  destruct (good32_cases x' Hx') as [Fx'| ->].
  - pose proof (good_leb_finite F32.prec F32.emax (proj1 prec32) (proj2 prec32)
                  x x' Hx Hx' Hle Fx') as Fx.
    rewrite !of_f32_Rs by assumption.
    pose proof (good_ival_le F32.prec F32.emax (proj1 prec32) (proj2 prec32)
                  x x' Hx Hx' Fx Fx' Hle).
    pose proof (ival_nonneg F32.prec F32.emax x). pose proof (Z.pow_pos_nonneg 2 925).
    apply Rs_mono; try apply prec64. nia.
  - rewrite of_f32_inf.
    apply (good_leb_inf F64.prec F64.emax (proj1 prec64) (proj2 prec64)).
    now apply of_f32_good.
Qed.

(** ** int(math.Ceil(x)) *)

Lemma pow_1074 : 0 < 2 ^ 1074.
Proof. apply Z.pow_pos_nonneg; lia. Qed.

Lemma trunc64_finite m e :
  -1074 <= e ->
  (if 0 <=? e then Z.shiftl (Zpos m) e else Z.shiftr (Zpos m) (- e)) =
  trunc64 (S754_finite false m e).
Proof.
  intros He. unfold trunc64. cbn [ival].
  change (SpecFloat.emin F64.prec F64.emax) with (-1074).
  pose proof pow_1074 as Hp.
  destruct (Z.leb_spec 0 e).
  - rewrite Z.shiftl_mul_pow2 by lia.
    replace (e - -1074) with (e + 1074) by lia. rewrite Z.pow_add_r by lia.
    rewrite Z.mul_assoc, Z.div_mul by lia. reflexivity.
  - rewrite Z.shiftr_div_pow2 by lia.
    replace (2 ^ 1074) with (2 ^ (- e) * 2 ^ (e - -1074))
      by (rewrite <- Z.pow_add_r by lia; f_equal; lia).
    rewrite Z.div_mul_cancel_r; [reflexivity| |];
      apply Z.pow_nonzero; lia.
Qed.

Lemma to_int_trunc x :
  good64 x -> is_finite x = true ->
  F64.fits_int x = (trunc64 x <=? GoInt.max_int) /\
  (F64.fits_int x = true -> F64.to_int x = trunc64 x) /\
  0 <= trunc64 x.
Proof.
  intros Hx Fx. pose proof pow_1074 as Hp.
  assert (H0 : 0 <= trunc64 x).
  { unfold trunc64. apply Z.div_pos; [apply ival_nonneg|lia]. }
  destruct x as [s|s| |s m e]; try discriminate.
  - unfold trunc64. cbn [ival F64.fits_int F64.to_int]. rewrite Z.div_0_l by lia.
    repeat split; try reflexivity; lia.
  - destruct Hx as (-> & He & _).
    change (SpecFloat.emin F64.prec F64.emax) with (-1074) in He.
    cbn [F64.fits_int F64.to_int]. cbv zeta.
    rewrite trunc64_finite by lia.
    set (v := trunc64 (S754_finite false m e)) in *.
    assert (Hmin : (GoInt.min_int <=? v) = true)
      by (apply Z.leb_le; unfold GoInt.min_int; lia).
    rewrite Hmin. cbn [andb]. split; [reflexivity|]. split; [|exact H0].
    intros ->. reflexivity.
Qed.

Lemma cval64_nonneg x : 0 <= cval64 x.
Proof.
  unfold cval64. pose proof pow_1074.
  pose proof (ival_nonneg F64.prec F64.emax x).
  assert (- ival64 x / 2 ^ 1074 <= 0); [|lia].
  apply Z.div_le_upper_bound; lia.
Qed.

Lemma ceil_Rs q :
  good64 q -> is_finite q = true -> F64.ceil q = Rs64 (4 * (cval64 q * 2 ^ 1074)).
Proof.
  intros Hq Fq. pose proof pow_1074 as Hp.
  destruct q as [s|s| |s m e]; try discriminate.
  - cbn [good] in Hq. subst s. unfold cval64. cbn [ival F64.ceil].
    change (- 0 / 2 ^ 1074) with (0 / 2 ^ 1074). rewrite Z.div_0_l by lia.
    symmetry. apply (Rs_0 F64.prec F64.emax); apply prec64.
  - pose proof Hq as Gq. destruct Hq as (-> & He & _).
    change (SpecFloat.emin F64.prec F64.emax) with (-1074) in He.
    cbn [F64.ceil]. unfold cval64. cbn [ival].
    change (SpecFloat.emin F64.prec F64.emax) with (-1074).
    destruct (Z.leb_spec 0 e).
    + assert (Hc : - (- (Zpos m * 2 ^ (e - -1074)) / 2 ^ 1074) * 2 ^ 1074
                   = ival64 (S754_finite false m e)).
      { cbn [ival]. change (SpecFloat.emin F64.prec F64.emax) with (-1074).
        replace (e - -1074) with (e + 1074) by lia. rewrite Z.pow_add_r by lia.
        replace (- (Zpos m * (2 ^ e * 2 ^ 1074))) with ((- (Zpos m * 2 ^ e)) * 2 ^ 1074)
          by ring.
        rewrite Z.div_mul by lia. ring. }
      rewrite Hc. symmetry. apply Rs_ival; auto; apply prec64.
    + cbv zeta. rewrite Z.shiftr_div_pow2 by lia.
      assert (Hc : - (Zpos m * 2 ^ (e - -1074)) / 2 ^ 1074 = - Zpos m / 2 ^ (- e)).
      { replace (2 ^ 1074) with (2 ^ (- e) * 2 ^ (e - -1074))
          by (rewrite <- Z.pow_add_r by lia; f_equal; lia).
        rewrite <- Z.mul_opp_l.
        rewrite Z.div_mul_cancel_r; [reflexivity| |]; apply Z.pow_nonzero; lia. }
      rewrite Hc.
      assert (Hneg : - Zpos m / 2 ^ (- e) < 0).
      { apply Z.div_lt_upper_bound; [apply Z.pow_pos_nonneg; lia|lia]. }
      destruct (- (- Zpos m / 2 ^ (- e))) as [|c|c] eqn:Ec; try lia.
      rewrite (binary_round_Rs F64.prec F64.emax (proj1 prec64) (proj2 prec64))
        by (change (SpecFloat.emin F64.prec F64.emax) with (-1074); lia).
      change (SpecFloat.emin F64.prec F64.emax) with (-1074).
      reflexivity.
Qed.

Lemma ceil_finite q : F64.fits_int (F64.ceil q) = true -> is_finite q = true.
Proof. destruct q as [s|s| |s m e]; try reflexivity; discriminate. Qed.

Lemma to_int_ceil_mono q q' :
  good64 q -> good64 q' -> SFleb q q' = true ->
  F64.fits_int (F64.ceil q') = true ->
  F64.to_int (F64.ceil q) <= F64.to_int (F64.ceil q').
Proof.
  intros Hq Hq' Hle Hfit. pose proof pow_1074 as Hp.
  destruct prec64 as [P1 P2].
  pose proof (ceil_finite q' Hfit) as Fq'.
  pose proof (good_leb_finite _ _ P1 P2 q q' Hq Hq' Hle Fq') as Fq.
  pose proof (good_ival_le _ _ P1 P2 q q' Hq Hq' Fq Fq' Hle) as Hv.
  assert (Hc : cval64 q <= cval64 q').
  { unfold cval64.
    assert (- ival64 q' / 2 ^ 1074 <= - ival64 q / 2 ^ 1074); [|lia].
    apply Z.div_le_mono; lia. }
  pose proof (cval64_nonneg q) as Hc0.
  rewrite (ceil_Rs q Hq Fq), (ceil_Rs q' Hq' Fq') in *.
  set (x := Rs64 (4 * (cval64 q * 2 ^ 1074))) in *.
  set (x' := Rs64 (4 * (cval64 q' * 2 ^ 1074))) in *.
  assert (Gx : good64 x) by (apply Rs_good; auto; nia).
  assert (Gx' : good64 x') by (apply Rs_good; auto; nia).
  assert (Hxx : SFleb x x' = true) by (apply Rs_mono; auto; nia).
  assert (Fx' : is_finite x' = true).
  { destruct x' as [s|s| |s m e]; try reflexivity; discriminate. }
  pose proof (good_leb_finite _ _ P1 P2 x x' Gx Gx' Hxx Fx') as Fx.
  pose proof (good_ival_le _ _ P1 P2 x x' Gx Gx' Fx Fx' Hxx) as Hiv.
  destruct (to_int_trunc x Gx Fx) as (E1 & T1 & N1).
  destruct (to_int_trunc x' Gx' Fx') as (E2 & T2 & N2).
  assert (Htr : trunc64 x <= trunc64 x') by (apply Z.div_le_mono; lia).
  rewrite E2 in Hfit. apply Z.leb_le in Hfit.
  rewrite T2 by (rewrite E2; apply Z.leb_le; lia).
  rewrite T1 by (rewrite E1; apply Z.leb_le; lia).
  exact Htr.
Qed.

(** ** The deficit *)

Lemma isCpuIdleTooLow_mono a m m' :
  F32.valid a = true -> 0 <= m <= m' ->
  F32.ltb a (F32.of_int m) = true -> F32.ltb a (F32.of_int m') = true.
Proof.
  intros Va Hm Hlt. destruct prec32 as [P1 P2].
  apply (SFltb_leb_trans _ _ P1 P2 a (F32.of_int m) (F32.of_int m')); auto.
  - apply of_int_good; lia.
  - apply of_int_good; lia.
  - now apply of_int_mono.
Qed.

Lemma deficitNodes_mono a g m m' :
  F32.valid a = true -> F32.valid g = true -> 0 <= m <= m' ->
  F32.ltb a (F32.of_int m) = true -> F32.gtb g F32.zero = true ->
  F64.fits_int (F64.ceil (F64.div (F64.of_f32 (F32.sub (F32.of_int m') a))
                                  (F64.of_f32 g))) = true ->
  RunnerManager.deficitNodes m a g <= RunnerManager.deficitNodes m' a g.
Proof.
  intros Va Vg Hm Hlt Hg Hfit. destruct prec32 as [P1 P2]. destruct prec64 as [Q1 Q2].
  unfold RunnerManager.deficitNodes.
  pose proof (of_int_good m ltac:(lia)) as Gx.
  pose proof (of_int_good m' ltac:(lia)) as Gx'.
  pose proof (of_int_mono m m' Hm) as Hxx.
  destruct (SFsub_mono _ _ P1 P2 _ _ a Gx Gx' Va Hlt Hxx) as (Gy & Gy' & Hyy).
  fold F32.sub in Gy, Gy', Hyy.
  pose proof (of_f32_good _ Gy) as Gu. pose proof (of_f32_good _ Gy') as Gu'.
  pose proof (of_f32_mono _ _ Gy Gy' Hyy) as Huu.
  assert (Gg : good32 g) by (apply (pos_valid_good _ _ P1); assumption).
  pose proof (of_f32_good _ Gg) as Gg64.
  pose proof (ceil_finite _ Hfit) as Fq'.
  destruct (SFdiv_mono _ _ Q1 Q2 _ _ _ Gu Gu' Gg64 Huu Fq') as (Gq & Gq' & Hqq).
  fold F64.div in Gq, Gq', Hqq.
  now apply to_int_ceil_mono.
Qed.

End DeficitFacts.

(** * Properties of the runner-manager *)

Module RunnerManagerSpec.

Import RunnerManager Scenarios.

(** ** gatherClusterState: the classifier *)

Lemma isAllocated_Active r : isAllocated r = true <-> Active r.
Proof.
  unfold isAllocated, Active. rewrite !orb_true_iff. tauto.
Qed.

(** The runner loop appends to each class the runners of that class, in
    order, and touches nothing else but the domain index. *)
Lemma categorizeRunner_fold (l : list RunnerFull) : forall s,
  let s' := fold_left categorizeRunner l s in
  ActiveRunners s' = ActiveRunners s ++ List.filter isAllocated l /\
  DeletableRunners s' =
    DeletableRunners s
    ++ List.filter (fun r => negb (isAllocated r) && GetUnschedulable r) l /\
  IdleRunners s' =
    IdleRunners s
    ++ List.filter (fun r => negb (isAllocated r) && negb (GetUnschedulable r)) l /\
  Runners s' = Runners s /\
  PendingPlaceholders s' = PendingPlaceholders s /\
  ScheduledPlaceholders s' = ScheduledPlaceholders s.
Proof.
  induction l as [|r l IH]; intros s; cbn [fold_left List.filter].
  - cbn. rewrite !app_nil_r. repeat split.
  - destruct (IH (categorizeRunner s r)) as (HA & HD & HI & HR & HP & HS).
    cbn zeta in *. rewrite HA, HD, HI, HR, HP, HS. clear.
    unfold categorizeRunner; cbn.
    destruct (isAllocated r), (GetUnschedulable r); cbn;
      rewrite <- ?app_assoc; cbn; repeat split.
Qed.

Lemma categorizePlaceholder_fold (l : list Pod) : forall s,
  let s' := fold_left categorizePlaceholder l s in
  ActiveRunners s' = ActiveRunners s /\
  DeletableRunners s' = DeletableRunners s /\
  IdleRunners s' = IdleRunners s /\
  Runners s' = Runners s /\
  PendingPlaceholders s' =
    PendingPlaceholders s ++ List.filter (fun pod => bool_decide (pod_NodeName pod = "")) l /\
  ScheduledPlaceholders s' =
    ScheduledPlaceholders s
    ++ List.filter (fun pod => negb (bool_decide (pod_NodeName pod = ""))) l.
Proof.
  induction l as [|pod l IH]; intros s; cbn [fold_left List.filter].
  - cbn. rewrite !app_nil_r. repeat split.
  - destruct (IH (categorizePlaceholder s pod)) as (HA & HD & HI & HR & HP & HS).
    cbn zeta in *. rewrite HA, HD, HI, HR, HP, HS. clear.
    unfold categorizePlaceholder; cbn.
    destruct (decide (pod_NodeName pod = "")) as [e|n].
    + rewrite (bool_decide_eq_true_2 _ e). cbn. rewrite <- ?app_assoc. repeat split.
    + rewrite (bool_decide_eq_false_2 _ n). cbn. rewrite <- ?app_assoc. repeat split.
Qed.

(** A three-way split of a list by a total classification is a
    rearrangement of the list. *)
Lemma three_way_split {A} (f g : A -> bool) (l : list A) :
  List.filter f l
  ++ List.filter (fun x => negb (f x) && g x) l
  ++ List.filter (fun x => negb (f x) && negb (g x)) l ≡ₚ l.
Proof.
  induction l as [|x l IH]; cbn; [reflexivity|].
  destruct (f x), (g x); cbn.
  - now rewrite IH.
  - now rewrite IH.
  - rewrite <- Permutation_middle. now rewrite IH.
  - rewrite app_assoc, <- Permutation_middle, <- app_assoc. now rewrite IH.
Qed.

(** C3: a successful [gatherClusterState] splits the fetched runners into
    [ActiveRunners], [DeletableRunners] and [IdleRunners]: each list holds,
    in the fetched order, exactly the runners of its class (Active: one of
    the five counters is positive; Deletable: not Active and unschedulable;
    Idle: not Active and schedulable); every fetched runner is in one list
    and in no other, and the three lists together are a rearrangement of
    the fetched list. *)
Theorem runner_classes_partition (api : Fetched) (state : ClusterState) :
  gatherClusterState api = Ok state ->
  fetchedRunners api = Ok (Runners state) /\
  (forall r, In r (ActiveRunners state) <-> In r (Runners state) /\ Active r) /\
  (forall r, In r (DeletableRunners state) <-> In r (Runners state) /\ Deletable r) /\
  (forall r, In r (IdleRunners state) <-> In r (Runners state) /\ Idle r) /\
  (forall r, In r (Runners state) ->
     (In r (ActiveRunners state)
      /\ ~ In r (DeletableRunners state) /\ ~ In r (IdleRunners state))
     \/ (~ In r (ActiveRunners state)
         /\ In r (DeletableRunners state) /\ ~ In r (IdleRunners state))
     \/ (~ In r (ActiveRunners state)
         /\ ~ In r (DeletableRunners state) /\ In r (IdleRunners state))) /\
  ActiveRunners state ++ DeletableRunners state ++ IdleRunners state ≡ₚ Runners state.
Proof.
  unfold gatherClusterState.
  destruct (fetchedRunners api) as [runners|]; [|discriminate].
  destruct (fetchedPlaceholders api) as [pods|]; [|discriminate].
  destruct (fetchedNodes api) as [nodes|]; [|discriminate].
  intros [= <-]. cbn [Runners ActiveRunners DeletableRunners IdleRunners].
  match goal with
  | |- context [fold_left categorizePlaceholder pods ?s] =>
      destruct (categorizePlaceholder_fold pods s) as (HA & HD & HI & HR & _)
  end.
  cbn zeta in *. rewrite HA, HD, HI, HR. clear HA HD HI HR.
  match goal with
  | |- context [fold_left categorizeRunner runners ?s] =>
      destruct (categorizeRunner_fold runners s) as (HA & HD & HI & HR & _)
  end.
  cbn zeta in *. rewrite HA, HD, HI, HR. clear HA HD HI HR. cbn [app Runners
    ActiveRunners DeletableRunners IdleRunners].
  assert (HinA : forall r, In r (List.filter isAllocated runners)
                           <-> In r runners /\ Active r).
  { intros r. rewrite filter_In, isAllocated_Active. tauto. }
  assert (HinD : forall r,
    In r (List.filter (fun r => negb (isAllocated r) && GetUnschedulable r) runners)
    <-> In r runners /\ Deletable r).
  { intros r. rewrite filter_In, andb_true_iff, negb_true_iff. unfold Deletable.
    rewrite <- isAllocated_Active. destruct (isAllocated r); intuition congruence. }
  assert (HinI : forall r,
    In r (List.filter (fun r => negb (isAllocated r) && negb (GetUnschedulable r)) runners)
    <-> In r runners /\ Idle r).
  { intros r. rewrite filter_In, andb_true_iff, !negb_true_iff. unfold Idle.
    rewrite <- isAllocated_Active. destruct (isAllocated r); intuition congruence. }
  split; [reflexivity|]. split; [exact HinA|]. split; [exact HinD|].
  split; [exact HinI|]. split.
  - intros r Hr. rewrite HinA, HinD, HinI. unfold Deletable, Idle.
    rewrite <- isAllocated_Active.
    destruct (isAllocated r), (GetUnschedulable r); intuition congruence.
  - apply three_way_split.
Qed.

Lemma runner_classes_partition_witness :
  ActiveRunners (stateOf cluster) ++ DeletableRunners (stateOf cluster)
    ++ IdleRunners (stateOf cluster) ≡ₚ Runners (stateOf cluster).
Proof.
  apply (runner_classes_partition cluster (stateOf cluster)).
  vm_compute. reflexivity.
Defined.

(** ** calculateResourceMetrics: capacity *)

Lemma runnerCapacity_fold (byIP : gmap string Node) (l : list RunnerFull) :
  forall cpu mem (seen : gset string),
  let sched := List.filter (fun r => negb (GetUnschedulable r)) l in
  fold_left (runnerCapacityStep byIP) l (cpu, mem, seen) =
  (fsum cpu (map GetCpu sched), fsum mem (map GetMemory sched),
   seen ∪ list_to_set (omap (matchedNode byIP) sched)).
Proof.
  induction l as [|r l IH]; intros cpu mem seen; cbn [fold_left List.filter].
  - cbn. now rewrite (right_id_L ∅ (∪)).
  - cbn zeta in IH.
    assert (Hstep : runnerCapacityStep byIP (cpu, mem, seen) r =
      if GetUnschedulable r then (cpu, mem, seen)
      else (F32.add cpu (GetCpu r), F32.add mem (GetMemory r),
            seen ∪ list_to_set (from_option (fun n => [n]) [] (matchedNode byIP r)))).
    { unfold runnerCapacityStep, matchedNode.
      destruct (GetUnschedulable r); cbn [negb]; [reflexivity|].
      destruct (decide (GetDomain r = "")); cbn.
      - now rewrite (right_id_L ∅ (∪)).
      - destruct (byIP !! GetDomain r); cbn.
        + f_equal. rewrite (right_id_L ∅ (∪)). apply (comm_L (∪)).
        + now rewrite (right_id_L ∅ (∪)). }
    rewrite Hstep. destruct (GetUnschedulable r); cbn [negb]; [apply IH|].
    rewrite IH. cbn [map fsum fold_left]. f_equal.
    rewrite <- (assoc_L (∪)). f_equal.
    change (omap (matchedNode byIP) (r :: ?l)) with
      (match matchedNode byIP r with
       | Some n => n :: omap (matchedNode byIP) l
       | None => omap (matchedNode byIP) l
       end).
    destruct (matchedNode byIP r); cbn [from_option list_to_set].
    + now rewrite (right_id_L ∅ (∪)).
    + now rewrite (left_id_L ∅ (∪)).
Qed.

Lemma nodeCapacity_fold (seen : gset string) (l : list Node) :
  forall cpu mem,
  let fallback :=
    List.filter (fun n => negb (node_Unschedulable n)
                          && negb (bool_decide (node_Name n ∈ seen))) l in
  fold_left (nodeCapacityStep seen) l (cpu, mem) =
  (fsum cpu (map nodeCpu fallback), fsum mem (map nodeMem fallback)).
Proof.
  induction l as [|n l IH]; intros cpu mem; cbn [fold_left List.filter]; [reflexivity|].
  cbn zeta in IH.
  assert (Hstep : nodeCapacityStep seen (cpu, mem) n =
    if negb (node_Unschedulable n) && negb (bool_decide (node_Name n ∈ seen))
    then (F32.add cpu (nodeCpu n), F32.add mem (nodeMem n)) else (cpu, mem)).
  { unfold nodeCapacityStep.
    destruct (node_Unschedulable n); cbn [negb andb]; [reflexivity|].
    destruct (bool_decide (node_Name n ∈ seen)); reflexivity. }
  rewrite Hstep.
  destruct (negb (node_Unschedulable n) && negb (bool_decide (node_Name n ∈ seen)));
    [|apply IH].
  rewrite IH. reflexivity.
Qed.

Lemma capacity_totals (state : ClusterState) :
  TotalCPUCapacity (calculateResourceMetrics state) =
    fsum (fsum F32.zero (map GetCpu (schedulableRunners state)))
         (map nodeCpu (fallbackNodes state)) /\
  TotalMemoryGiBCapacity (calculateResourceMetrics state) =
    fsum (fsum F32.zero (map GetMemory (schedulableRunners state)))
         (map nodeMem (fallbackNodes state)).
Proof.
  unfold calculateResourceMetrics.
  rewrite runnerCapacity_fold. cbn zeta.
  rewrite nodeCapacity_fold. cbn zeta.
  destruct (fold_left allocatedStep _ _) as [allocCpu allocMem].
  cbn [TotalCPUCapacity TotalMemoryGiBCapacity].
  unfold fallbackNodes, matchedNodes, schedulableRunners.
  rewrite (left_id_L ∅ (∪)). split; reflexivity.
Qed.

(** C4, as the code has it: the CPU capacity total is the [float32]
    accumulation, from 0 and one addition after the other, of the capacity
    that each schedulable runner reports, in the order of the runners,
    followed by the allocatable CPU of each schedulable node whose name is
    not among the nodes that the domain of a schedulable runner resolves
    to through [NodeByIP], in the order of the nodes; likewise for memory.
    Every addition rounds, so the total is this accumulation and not the
    sum of two sums.  A node counted by its allocatable resources is
    matched to no schedulable runner: no capacity is counted both from a
    runner and from its node. *)
Theorem capacity_counts_each_node_once (state : ClusterState) :
  let metrics := calculateResourceMetrics state in
  TotalCPUCapacity metrics =
    fsum (fsum F32.zero (map GetCpu (schedulableRunners state)))
         (map nodeCpu (fallbackNodes state)) /\
  TotalMemoryGiBCapacity metrics =
    fsum (fsum F32.zero (map GetMemory (schedulableRunners state)))
         (map nodeMem (fallbackNodes state)) /\
  (forall n, In n (fallbackNodes state) <->
     In n (Nodes state) /\ node_Unschedulable n = false /\
     node_Name n ∉ matchedNodes state) /\
  (forall name, name ∈ matchedNodes state <->
     exists r node, In r (Runners state) /\ GetUnschedulable r = false /\
       GetDomain r <> "" /\ NodeByIP state !! GetDomain r = Some node /\
       node_Name node = name) /\
  (forall r node n, In r (Runners state) -> GetUnschedulable r = false ->
     GetDomain r <> "" -> NodeByIP state !! GetDomain r = Some node ->
     In n (fallbackNodes state) -> node_Name n <> node_Name node).
Proof.
  cbn zeta. destruct (capacity_totals state) as [Hcpu Hmem].
  assert (Hmatched : forall name, name ∈ matchedNodes state <->
     exists r node, In r (Runners state) /\ GetUnschedulable r = false /\
       GetDomain r <> "" /\ NodeByIP state !! GetDomain r = Some node /\
       node_Name node = name).
  { intros name. unfold matchedNodes, schedulableRunners.
    rewrite elem_of_list_to_set, list_elem_of_omap. split.
    - intros (r & Hin & Hm). apply list_elem_of_In, filter_In in Hin as [Hin Hs].
      apply negb_true_iff in Hs. unfold matchedNode in Hm.
      destruct (decide (GetDomain r = "")); [discriminate|].
      destruct (NodeByIP state !! GetDomain r) as [node|] eqn:Hn; [|discriminate].
      injection Hm as <-. eauto 10.
    - intros (r & node & Hin & Hs & Hd & Hn & <-). exists r. split.
      + apply list_elem_of_In, filter_In. split; [exact Hin|]. now rewrite Hs.
      + unfold matchedNode. destruct (decide (GetDomain r = "")); [contradiction|].
        now rewrite Hn. }
  assert (Hfallback : forall n, In n (fallbackNodes state) <->
     In n (Nodes state) /\ node_Unschedulable n = false /\
     node_Name n ∉ matchedNodes state).
  { intros n. unfold fallbackNodes.
    rewrite filter_In, andb_true_iff, !negb_true_iff, bool_decide_eq_false. tauto. }
  repeat split; try apply Hfallback; try apply Hmatched; auto.
  intros r node n Hin Hs Hd Hn Hfb Heq.
  apply Hfallback in Hfb as (_ & _ & Hnot). apply Hnot, Hmatched.
  exists r, node. auto.
Qed.

(** ** handleScaleDown: the safety filter *)

Lemma getNodeAllocatableResources_eq (node : Node) :
  getNodeAllocatableResources node = (nodeCpu node, nodeMem node, None).
Proof. reflexivity. Qed.

Lemma rejected_iff (cfg : Config) (metrics : ResourceMetrics) (node : Node) :
  rejected cfg metrics node = true <->
  F32.ltb (hypotheticalAvailableCpu metrics node) (F32.of_int (MinIdleCpu cfg)) = true
  \/ F32.ltb (hypotheticalAvailableMemoryGiB metrics node)
             (F32.of_int (MinIdleMemory cfg)) = true.
Proof.
  unfold rejected, isSafeToDelete, hypotheticalAvailableCpu, hypotheticalAvailableMemoryGiB.
  destruct (F32.ltb _ _), (F32.ltb _ _); cbn; intuition discriminate.
Qed.

(** The loop over the deletable runners carries nothing from one
    candidate to the next but the batch it appends to. *)
Lemma scaleDownStep_app (cfg : Config) (state : ClusterState) (metrics : ResourceMetrics)
    (batch : list Pod) (r : RunnerFull) :
  scaleDownStep cfg state metrics batch r = batch ++ candidate cfg state metrics r.
Proof.
  unfold candidate, scaleDownStep.
  destruct (decide (GetDomain r = "")); [now rewrite app_nil_r|].
  destruct (NodeByIP state !! GetDomain r) as [node|]; [|now rewrite app_nil_r].
  rewrite getNodeAllocatableResources_eq.
  destruct (negb (isSafeToDelete _ _ _ _)); [now rewrite app_nil_r|].
  destruct (placeholderFound _ _); [reflexivity|now rewrite app_nil_r].
Qed.

Lemma scaleDown_fold (cfg : Config) (state : ClusterState) (metrics : ResourceMetrics)
    (l : list RunnerFull) : forall batch,
  fold_left (scaleDownStep cfg state metrics) l batch =
  batch ++ concat (map (candidate cfg state metrics) l).
Proof.
  induction l as [|r l IH]; intros batch; cbn [fold_left map concat].
  - now rewrite app_nil_r.
  - rewrite IH, scaleDownStep_app, app_assoc. reflexivity.
Qed.

Lemma candidate_resolved (cfg : Config) (state : ClusterState) (metrics : ResourceMetrics)
    (r : RunnerFull) (node : Node) :
  GetDomain r <> "" -> NodeByIP state !! GetDomain r = Some node ->
  candidate cfg state metrics r =
  if rejected cfg metrics node then []
  else match placeholderFound (ScheduledPlaceholders state) (node_Name node) with
       | Some pod => [pod]
       | None => []
       end.
Proof.
  intros Hd Hn. unfold candidate, scaleDownStep, rejected.
  destruct (decide (GetDomain r = "")); [contradiction|].
  rewrite Hn, getNodeAllocatableResources_eq. reflexivity.
Qed.

Lemma candidate_inv (cfg : Config) (state : ClusterState) (metrics : ResourceMetrics)
    (r : RunnerFull) (pod : Pod) :
  In pod (candidate cfg state metrics r) ->
  exists node, GetDomain r <> "" /\ NodeByIP state !! GetDomain r = Some node /\
    rejected cfg metrics node = false /\
    placeholderFound (ScheduledPlaceholders state) (node_Name node) = Some pod.
Proof.
  unfold candidate, scaleDownStep.
  destruct (decide (GetDomain r = "")) as [|Hd]; [intros []|].
  destruct (NodeByIP state !! GetDomain r) as [node|] eqn:Hn; [|intros []].
  rewrite getNodeAllocatableResources_eq. fold (rejected cfg metrics node).
  destruct (rejected cfg metrics node) eqn:Hrej; [intros []|].
  destruct (placeholderFound _ _) as [pod'|] eqn:Hp; [|intros []].
  intros [<-|[]]. eauto.
Qed.

(** C1, as the code has it: the batch of the scale-down filter is made of
    the contributions of the deletable runners, each decided against the
    same metrics.  A deletable runner whose domain resolves to a node is
    turned down exactly when the CPU or the memory that would be left
    without the node is below its minimum, and then contributes nothing;
    otherwise it contributes the first scheduled placeholder of that node.
    So every pod of the batch sits on the node of a deletable runner for
    which neither hypothetical value is below its minimum.  A hypothetical
    value that is a number is then at least the minimum; one that is NaN
    is below nothing, and does not hold the node back. *)
Theorem scale_down_safety (cfg : Config) (state : ClusterState) (metrics : ResourceMetrics) :
  placeholdersToDeleteInBatch cfg state metrics =
    concat (map (candidate cfg state metrics) (DeletableRunners state))
  /\
  (forall r node,
     In r (DeletableRunners state) ->
     GetDomain r <> "" -> NodeByIP state !! GetDomain r = Some node ->
     (rejected cfg metrics node = true <->
      F32.ltb (hypotheticalAvailableCpu metrics node) (F32.of_int (MinIdleCpu cfg)) = true
      \/ F32.ltb (hypotheticalAvailableMemoryGiB metrics node)
                 (F32.of_int (MinIdleMemory cfg)) = true) /\
     candidate cfg state metrics r =
       if rejected cfg metrics node then []
       else match placeholderFound (ScheduledPlaceholders state) (node_Name node) with
            | Some pod => [pod]
            | None => []
            end)
  /\
  (forall pod,
     In pod (placeholdersToDeleteInBatch cfg state metrics) ->
     exists r node,
       In r (DeletableRunners state) /\
       NodeByIP state !! GetDomain r = Some node /\
       In pod (ScheduledPlaceholders state) /\ pod_NodeName pod = node_Name node /\
       F32.ltb (hypotheticalAvailableCpu metrics node) (F32.of_int (MinIdleCpu cfg)) = false /\
       F32.ltb (hypotheticalAvailableMemoryGiB metrics node)
               (F32.of_int (MinIdleMemory cfg)) = false /\
       (F32.is_nan (hypotheticalAvailableCpu metrics node) = false ->
        F32.geb (hypotheticalAvailableCpu metrics node)
                (F32.of_int (MinIdleCpu cfg)) = true) /\
       (F32.is_nan (hypotheticalAvailableMemoryGiB metrics node) = false ->
        F32.geb (hypotheticalAvailableMemoryGiB metrics node)
                (F32.of_int (MinIdleMemory cfg)) = true)).
Proof.
  assert (Hbatch : placeholdersToDeleteInBatch cfg state metrics =
                   concat (map (candidate cfg state metrics) (DeletableRunners state))).
  { unfold placeholdersToDeleteInBatch. now rewrite scaleDown_fold. }
  split; [exact Hbatch|]. split.
  - intros r node _ Hd Hn. split; [apply rejected_iff|].
    now apply candidate_resolved.
  - intros pod. rewrite Hbatch, in_concat.
    intros (c & Hc & Hpod). apply in_map_iff in Hc as (r & <- & Hr).
    apply candidate_inv in Hpod as (node & Hd & Hn & Hrej & Hfound).
    exists r, node.
    assert (Hcpu : F32.ltb (hypotheticalAvailableCpu metrics node)
                           (F32.of_int (MinIdleCpu cfg)) = false).
    { destruct (F32.ltb _ _) eqn:E; [|reflexivity].
      assert (rejected cfg metrics node = true) by (apply rejected_iff; auto). congruence. }
    assert (Hmem : F32.ltb (hypotheticalAvailableMemoryGiB metrics node)
                           (F32.of_int (MinIdleMemory cfg)) = false).
    { destruct (F32.ltb _ (F32.of_int (MinIdleMemory cfg))) eqn:E; [|reflexivity].
      assert (rejected cfg metrics node = true) by (apply rejected_iff; auto). congruence. }
    unfold placeholderFound in Hfound. apply find_some in Hfound as [Hin Hname].
    apply bool_decide_eq_true in Hname.
    repeat split; auto.
    + intros Hnan. apply FloatFacts.not_ltb_geb; auto using FloatFacts.of_int_not_nan.
    + intros Hnan. apply FloatFacts.not_ltb_geb; auto using FloatFacts.of_int_not_nan.
Qed.

Lemma scale_down_safety_witness :
  let cfg := config 80 0 16 0 in
  let state := stateOf cluster in
  let metrics := calculateResourceMetrics state in
  exists r node,
    In r (DeletableRunners state) /\
    NodeByIP state !! GetDomain r = Some node /\
    In podOnC (ScheduledPlaceholders state) /\ pod_NodeName podOnC = node_Name node /\
    F32.ltb (hypotheticalAvailableCpu metrics node) (F32.of_int (MinIdleCpu cfg)) = false /\
    F32.ltb (hypotheticalAvailableMemoryGiB metrics node)
            (F32.of_int (MinIdleMemory cfg)) = false /\
    (F32.is_nan (hypotheticalAvailableCpu metrics node) = false ->
     F32.geb (hypotheticalAvailableCpu metrics node) (F32.of_int (MinIdleCpu cfg)) = true) /\
    (F32.is_nan (hypotheticalAvailableMemoryGiB metrics node) = false ->
     F32.geb (hypotheticalAvailableMemoryGiB metrics node)
             (F32.of_int (MinIdleMemory cfg)) = true).
Proof.
  cbn zeta.
  apply (proj2 (proj2 (scale_down_safety (config 80 0 16 0) (stateOf cluster)
                         (calculateResourceMetrics (stateOf cluster)))) podOnC).
  vm_compute. left. reflexivity.
Defined.

Lemma capacity_counts_each_node_once_witness :
  In nodeD (fallbackNodes (stateOf cluster)) /\
  "node-a" ∈ matchedNodes (stateOf cluster) /\
  node_Name nodeD <> node_Name nodeA.
Proof.
  assert (Hd : In nodeD (fallbackNodes (stateOf cluster))).
  { vm_compute. right. left. reflexivity. }
  destruct (capacity_counts_each_node_once (stateOf cluster))
    as (_ & _ & _ & Hmatched & Hdisjoint).
  split; [exact Hd|]. split.
  - apply Hmatched. exists runnerIdle, nodeA. vm_compute.
    repeat split; auto. discriminate.
  - apply (Hdisjoint runnerIdle nodeA nodeD).
    + vm_compute. auto.
    + reflexivity.
    + vm_compute. discriminate.
    + vm_compute. reflexivity.
    + exact Hd.
Defined.

(** C1 fails as stated: with two runners whose CPU is the largest finite
    [float32], all of it allocated, capacity and allocation both overflow
    to infinity and the available CPU is NaN.  The hypothetical CPU
    without [node-c] is NaN too: it is not below the minimum of 16, so the
    placeholder of [node-c] is put in the batch and the tick deletes it,
    and it is not at least 16 either. *)
Lemma scale_down_deletes_when_availability_is_not_a_number :
  let cfg := config 80 0 16 0 in
  let state := stateOf clusterSaturated in
  let metrics := calculateResourceMetrics state in
  F32.of_int maxFloat32 = S754_finite false 16777215 104 /\
  F32.valid (F32.of_int maxFloat32) = true /\
  In runnerDeletable (DeletableRunners state) /\
  NodeByIP state !! GetDomain runnerDeletable = Some nodeC /\
  TotalAvailableCPU metrics = S754_nan /\
  hypotheticalAvailableCpu metrics nodeC = S754_nan /\
  In podOnC (placeholdersToDeleteInBatch cfg state metrics) /\
  tick cfg clusterSaturated = [DeletePod "placeholder-c"] /\
  ~ (F32.geb (hypotheticalAvailableCpu metrics nodeC) (F32.of_int (MinIdleCpu cfg)) = true).
Proof.
  cbv zeta.
  split; [vm_compute; reflexivity|]. split; [vm_compute; reflexivity|].
  split; [vm_compute; left; reflexivity|]. split; [vm_compute; reflexivity|].
  split; [vm_compute; reflexivity|]. split; [vm_compute; reflexivity|].
  split; [vm_compute; left; reflexivity|]. split; [vm_compute; reflexivity|].
  vm_compute. discriminate.
Qed.

(** C4 fails as stated: with one runner of 8 cores and two nodes without a
    runner that have 7.91 and 0.94 allocatable cores, the code's total,
    which adds the two nodes to the runners one after the other, is
    [8834253 * 2 ^ -19], while the sum of the runners plus the sum of the
    nodes is [8834252 * 2 ^ -19]; and listing the two nodes in the other
    order changes the total. *)
Lemma capacity_total_is_not_the_sum_of_the_two_sums :
  let state := stateOf clusterFractional in
  let metrics := calculateResourceMetrics state in
  let runners := fsum F32.zero (map GetCpu (schedulableRunners state)) in
  let nodes := fsum F32.zero (map nodeCpu (fallbackNodes state)) in
  map node_Name (fallbackNodes state) = ["node-e"; "node-f"] /\
  TotalCPUCapacity metrics = S754_finite false 8834253 (-19) /\
  F32.add runners nodes = S754_finite false 8834252 (-19) /\
  TotalCPUCapacity metrics <> F32.add runners nodes /\
  TotalCPUCapacity (calculateResourceMetrics (stateOf clusterFractionalSwapped))
    <> TotalCPUCapacity metrics.
Proof.
  cbv zeta.
  split; [vm_compute; reflexivity|]. split; [vm_compute; reflexivity|].
  split; [vm_compute; reflexivity|]. split; vm_compute; discriminate.
Qed.

(** ** handleScaleUp: placeholder accounting *)

Lemma wrap_in_range (z : Z) : GoInt.in_range (GoInt.wrap z).
Proof.
  unfold GoInt.in_range, GoInt.wrap, GoInt.min_int, GoInt.max_int.
  pose proof (Z.mod_pos_bound (z + 2 ^ 63) (2 ^ 64) eq_refl). lia.
Qed.

Lemma wrap_id (z : Z) : GoInt.in_range z -> GoInt.wrap z = z.
Proof.
  unfold GoInt.in_range, GoInt.wrap, GoInt.min_int, GoInt.max_int. intros H.
  rewrite Z.mod_small; lia.
Qed.

Lemma to_int_in_range (x : spec_float) : GoInt.in_range (F64.to_int x).
Proof.
  assert (Hi : GoInt.in_range F64.int_indefinite)
    by (unfold GoInt.in_range, F64.int_indefinite, GoInt.min_int, GoInt.max_int; lia).
  destruct x as [s|s| |s m e]; cbn [F64.to_int]; auto.
  - unfold GoInt.in_range, GoInt.min_int, GoInt.max_int. lia.
  - cbv zeta.
    match goal with |- context [if ?c then _ else _] => destruct c eqn:Hc end; auto.
    apply andb_true_iff in Hc as [H1 H2]. unfold GoInt.in_range. lia.
Qed.

Lemma max_range (a b : Z) :
  0 <= a <= GoInt.max_int -> GoInt.in_range b -> 0 <= GoInt.max a b <= GoInt.max_int.
Proof.
  unfold GoInt.max, GoInt.in_range. intros Ha Hb.
  destruct (Z.ltb_spec b a); lia.
Qed.

Lemma max_step_range (c : bool) (a b : Z) :
  0 <= a <= GoInt.max_int -> GoInt.in_range b ->
  0 <= (if c then GoInt.max a b else a) <= GoInt.max_int.
Proof.
  intros Ha Hb. destruct c; [now apply max_range|exact Ha].
Qed.

Lemma nodesNeeded_range (cfg : Config) (state : ClusterState) (metrics : ResourceMetrics) :
  0 <= nodesNeeded cfg state metrics <= GoInt.max_int.
Proof.
  unfold nodesNeeded. cbv zeta.
  destruct (isUtilizationTooHigh metrics cfg && _); [unfold GoInt.max_int; lia|].
  repeat (apply max_step_range; [|apply to_int_in_range || apply wrap_in_range]).
  unfold GoInt.max_int; lia.
Qed.

Lemma len_nonneg {A} (l : list A) : 0 <= GoInt.len l.
Proof. unfold GoInt.len. lia. Qed.

Lemma created_createPlaceholderPods (n : Z) : created (createPlaceholderPods n) = Z.max 0 n.
Proof.
  unfold created, createPlaceholderPods, GoInt.len.
  assert (H : forall k, List.filter
            (fun a => match a with CreatePlaceholder => true | _ => false end)
            (repeat CreatePlaceholder k) = repeat CreatePlaceholder k).
  { induction k; cbn; congruence. }
  rewrite H, repeat_length. lia.
Qed.

Lemma created_deletePods (pods : list Pod) : created (deletePods pods) = 0.
Proof.
  unfold created, deletePods. induction pods; cbn; auto.
Qed.

Lemma created_app (a b : list Action) : created (a ++ b) = created a + created b.
Proof.
  unfold created, GoInt.len. rewrite List.filter_app, length_app. lia.
Qed.

Lemma created_handleScaleDown cfg state metrics needsScaleUp :
  created (handleScaleDown cfg state metrics needsScaleUp) = 0.
Proof.
  unfold handleScaleDown.
  destruct (_ && _), (Z.eqb _ _);
    rewrite ?created_app, ?created_deletePods; reflexivity.
Qed.

Lemma created_handleScaleUp cfg state metrics :
  created (snd (handleScaleUp cfg state metrics)) = Z.max 0 (nodesToCreate cfg state metrics).
Proof.
  unfold handleScaleUp. cbv zeta.
  destruct (Z.ltb_spec 0 (nodesToCreate cfg state metrics)); cbn [snd].
  - apply created_createPlaceholderPods.
  - change (created []) with 0. lia.
Qed.

(** The placeholders one tick creates. *)
Lemma created_tick (cfg : Config) (api : Fetched) (state : ClusterState) :
  gatherClusterState api = Ok state ->
  let metrics := calculateResourceMetrics state in
  created (tick cfg api) =
  if shouldScaleUp metrics cfg (GoInt.len (IdleRunners state))
                   (GoInt.len (NascentNodes state))
  then Z.max 0 (nodesToCreate cfg state metrics) else 0.
Proof.
  intros Hg. unfold tick. rewrite Hg. cbv zeta.
  destruct (shouldScaleUp _ _ _ _).
  - pose proof (created_handleScaleUp cfg state (calculateResourceMetrics state)) as Hc.
    destruct (handleScaleUp cfg state (calculateResourceMetrics state)) as [[] acts];
      cbn [snd] in Hc; [exact Hc|].
    rewrite created_app, created_handleScaleDown. lia.
  - cbn [app]. apply created_handleScaleDown.
Qed.

Lemma placeholder_accounting_eq (cfg : Config) (state : ClusterState)
    (metrics : ResourceMetrics) :
  GoInt.len (PendingPlaceholders state) <= GoInt.max_int ->
  nodesToCreate cfg state metrics =
  nodesNeeded cfg state metrics - GoInt.len (PendingPlaceholders state).
Proof.
  intros Hlen.
  pose proof (nodesNeeded_range cfg state metrics) as Hn.
  pose proof (len_nonneg (PendingPlaceholders state)) as Hp.
  unfold nodesToCreate, GoInt.sub. apply wrap_id.
  unfold GoInt.in_range, GoInt.min_int, GoInt.max_int in *. lia.
Qed.

(** C2: [nodesToCreate] is [nodesNeeded] minus the number of pending
    placeholders; [handleScaleUp] creates that many placeholders when the
    number is positive and none otherwise, and so does the tick in which
    scale-up fires; when the pending placeholders cover the need, nothing
    is created. *)
Theorem placeholder_accounting (cfg : Config) (state : ClusterState)
    (metrics : ResourceMetrics) :
  GoInt.len (PendingPlaceholders state) <= GoInt.max_int ->
  nodesToCreate cfg state metrics =
    nodesNeeded cfg state metrics - GoInt.len (PendingPlaceholders state) /\
  handleScaleUp cfg state metrics =
    (if Z.ltb 0 (nodesToCreate cfg state metrics)
     then (true, repeat CreatePlaceholder (Z.to_nat (nodesToCreate cfg state metrics)))
     else (false, [])) /\
  created (snd (handleScaleUp cfg state metrics)) = Z.max 0 (nodesToCreate cfg state metrics) /\
  (nodesNeeded cfg state metrics <= GoInt.len (PendingPlaceholders state) ->
   handleScaleUp cfg state metrics = (false, [])) /\
  (forall api, gatherClusterState api = Ok state ->
     metrics = calculateResourceMetrics state ->
     shouldScaleUp metrics cfg (GoInt.len (IdleRunners state))
                   (GoInt.len (NascentNodes state)) = true ->
     created (tick cfg api) = Z.max 0 (nodesToCreate cfg state metrics)).
Proof.
  intros Hlen.
  pose proof (nodesNeeded_range cfg state metrics) as Hn.
  pose proof (len_nonneg (PendingPlaceholders state)) as Hp.
  pose proof (placeholder_accounting_eq cfg state metrics Hlen) as Heq.
  split; [exact Heq|]. split; [reflexivity|]. split; [apply created_handleScaleUp|].
  split.
  - intros Hle. unfold handleScaleUp. cbv zeta.
    destruct (Z.ltb_spec 0 (nodesToCreate cfg state metrics)); [lia|reflexivity].
  - intros api Hg -> Hs. rewrite (created_tick cfg api state Hg). cbv zeta.
    now rewrite Hs.
Qed.

Lemma placeholder_accounting_witness :
  let state := stateOf clusterInFlight in
  let metrics := calculateResourceMetrics state in
  nodesToCreate configS1 state metrics = 1 - 5 /\
  handleScaleUp configS1 state metrics = (false, []).
Proof.
  cbn zeta.
  destruct (placeholder_accounting configS1 (stateOf clusterInFlight)
              (calculateResourceMetrics (stateOf clusterInFlight)))
    as (H1 & _ & _ & H4 & _).
  - vm_compute. discriminate.
  - split.
    + rewrite H1. vm_compute. reflexivity.
    + apply H4. vm_compute. discriminate.
Defined.

(** ** getNodeAllocatableResources never fails *)

(** C9: [getNodeAllocatableResources] returns a nil error for every node.
    So the capacity loop adds the allocatable resources of every schedulable
    node without a runner, and the scale-down loop runs its safety check
    for every deletable runner whose domain resolves to a node: neither
    ever skips a node for an error.  A node whose allocatable CPU and
    memory are missing or zero is reported with 0 cores and 0 GiB: it adds
    0 to both capacity totals, and the hypothetical availability of the
    scale-down check is the availability itself. *)
Theorem allocatable_resources_never_fail :
  (forall node, snd (getNodeAllocatableResources node) = None) /\
  (forall seen cpu mem node,
     node_Unschedulable node = false -> node_Name node ∉ seen ->
     nodeCapacityStep seen (cpu, mem) node =
     (F32.add cpu (nodeCpu node), F32.add mem (nodeMem node))) /\
  (forall cfg state metrics batch r node,
     GetDomain r <> "" -> NodeByIP state !! GetDomain r = Some node ->
     scaleDownStep cfg state metrics batch r =
     if rejected cfg metrics node then batch
     else match placeholderFound (ScheduledPlaceholders state) (node_Name node) with
          | Some pod => batch ++ [pod]
          | None => batch
          end) /\
  (forall node, noAllocatable node ->
     getNodeAllocatableResources node = (F32.zero, F32.zero, None) /\
     (forall seen cpu mem,
        node_Unschedulable node = false -> node_Name node ∉ seen ->
        nodeCapacityStep seen (cpu, mem) node = (F32.add cpu F32.zero, F32.add mem F32.zero)) /\
     (forall metrics,
        hypotheticalAvailableCpu metrics node = TotalAvailableCPU metrics /\
        hypotheticalAvailableMemoryGiB metrics node = TotalAvailableMemoryGiB metrics)).
Proof.
  assert (Hstep : forall seen cpu mem node,
     node_Unschedulable node = false -> node_Name node ∉ seen ->
     nodeCapacityStep seen (cpu, mem) node =
     (F32.add cpu (nodeCpu node), F32.add mem (nodeMem node))).
  { intros seen cpu mem node Hs Hn. unfold nodeCapacityStep. rewrite Hs.
    rewrite (bool_decide_eq_false_2 _ Hn). reflexivity. }
  assert (Hzero : forall node, noAllocatable node ->
     getNodeAllocatableResources node = (F32.zero, F32.zero, None)).
  { intros node [Hc Hm]. unfold getNodeAllocatableResources. cbv zeta.
    rewrite Hc, Hm. reflexivity. }
  split; [reflexivity|]. split; [exact Hstep|]. split.
  - intros cfg state metrics batch r node Hd Hn.
    unfold scaleDownStep, rejected.
    destruct (decide (GetDomain r = "")); [contradiction|].
    rewrite Hn, getNodeAllocatableResources_eq. reflexivity.
  - intros node Hno. pose proof (Hzero node Hno) as Hz.
    split; [exact Hz|]. split.
    + intros seen cpu mem Hs Hn. rewrite (Hstep seen cpu mem node Hs Hn).
      unfold nodeCpu, nodeMem. rewrite Hz. reflexivity.
    + intros metrics. unfold hypotheticalAvailableCpu, hypotheticalAvailableMemoryGiB,
        nodeCpu, nodeMem. rewrite Hz. cbn [fst snd].
      split; apply FloatFacts.sub_zero.
Qed.

Lemma allocatable_resources_never_fail_witness :
  getNodeAllocatableResources (bareNode "node-e" "10.0.0.5") = (F32.zero, F32.zero, None) /\
  nodeCapacityStep ∅ (F32.of_int 8, F32.of_int 16) (bareNode "node-e" "10.0.0.5") =
  (F32.add (F32.of_int 8) F32.zero, F32.add (F32.of_int 16) F32.zero).
Proof.
  destruct allocatable_resources_never_fail as (_ & _ & _ & H).
  destruct (H (bareNode "node-e" "10.0.0.5")) as (H1 & H2 & _).
  - split; reflexivity.
  - split; [exact H1|]. apply H2; [reflexivity|]. apply not_elem_of_empty.
Defined.

(** ** Scale-up grows with MinIdleCpu *)

Lemma max_mono_l (a a' b : Z) : a <= a' -> GoInt.max a b <= GoInt.max a' b.
Proof.
  unfold GoInt.max. intros H.
  destruct (Z.ltb_spec b a), (Z.ltb_spec b a'); lia.
Qed.

Lemma max_step_mono (c : bool) (a a' b : Z) :
  a <= a' -> (if c then GoInt.max a b else a) <= (if c then GoInt.max a' b else a').
Proof. intros H. destruct c; [now apply max_mono_l|exact H]. Qed.

Lemma at_least_one_mono (u : bool) (a a' : Z) :
  0 <= a <= a' ->
  (if u && Z.eqb a 0 then 1 else a) <= (if u && Z.eqb a' 0 then 1 else a').
Proof.
  intros H. destruct u; cbn [andb]; [|lia].
  destruct (Z.eqb_spec a 0), (Z.eqb_spec a' 0); lia.
Qed.

Lemma max_zero_nonneg (b : Z) : 0 <= GoInt.max 0 b.
Proof. unfold GoInt.max. destruct (Z.ltb_spec b 0); lia. Qed.

Lemma nodesNeeded_mono (cfg : Config) (state : ClusterState) (metrics : ResourceMetrics)
    (delta : Z) :
  F32.valid (TotalAvailableCPU metrics) = true ->
  F32.valid (AvgCpuPerNode metrics) = true ->
  0 <= MinIdleCpu cfg -> 0 <= delta ->
  let cfg' := withMinIdleCpu cfg (MinIdleCpu cfg + delta) in
  (isCpuIdleTooLow metrics cfg' = true ->
   F32.gtb (AvgCpuPerNode metrics) F32.zero = true ->
   cpuDeficitFits cfg' metrics = true) ->
  (isCpuIdleTooLow metrics cfg = true -> isCpuIdleTooLow metrics cfg' = true) /\
  nodesNeeded cfg state metrics <= nodesNeeded cfg' state metrics.
Proof.
  intros Va Vg Hm Hd cfg' Hfit.
  assert (Hlow : isCpuIdleTooLow metrics cfg = true -> isCpuIdleTooLow metrics cfg' = true).
  { unfold isCpuIdleTooLow. subst cfg'. cbn [withMinIdleCpu MinIdleCpu].
    apply DeficitFacts.isCpuIdleTooLow_mono; [assumption|lia]. }
  split; [exact Hlow|].
  unfold nodesNeeded. cbv zeta.
  change (isUtilizationTooHigh metrics cfg') with (isUtilizationTooHigh metrics cfg).
  change (isMemIdleTooLow metrics cfg') with (isMemIdleTooLow metrics cfg).
  change (MinIdleRunners cfg') with (MinIdleRunners cfg).
  change (MinIdleMemory cfg') with (MinIdleMemory cfg).
  assert (Hcpu :
    (if isCpuIdleTooLow metrics cfg && F32.gtb (AvgCpuPerNode metrics) F32.zero
     then GoInt.max 0 (deficitNodes (MinIdleCpu cfg) (TotalAvailableCPU metrics)
                                    (AvgCpuPerNode metrics))
     else 0)
    <=
    (if isCpuIdleTooLow metrics cfg' && F32.gtb (AvgCpuPerNode metrics) F32.zero
     then GoInt.max 0 (deficitNodes (MinIdleCpu cfg') (TotalAvailableCPU metrics)
                                    (AvgCpuPerNode metrics))
     else 0)).
  { destruct (isCpuIdleTooLow metrics cfg) eqn:Elow; cbn [andb].
    - rewrite (Hlow eq_refl). cbn [andb].
      destruct (F32.gtb (AvgCpuPerNode metrics) F32.zero) eqn:Eavg; [|lia].
      specialize (Hfit (Hlow eq_refl) eq_refl).
      assert (deficitNodes (MinIdleCpu cfg) (TotalAvailableCPU metrics)
                           (AvgCpuPerNode metrics)
              <= deficitNodes (MinIdleCpu cfg') (TotalAvailableCPU metrics)
                              (AvgCpuPerNode metrics)).
      { subst cfg'. cbn [withMinIdleCpu MinIdleCpu].
        apply DeficitFacts.deficitNodes_mono; auto; lia. }
      unfold GoInt.max.
      repeat match goal with |- context [Z.ltb ?x 0] => destruct (Z.ltb_spec x 0) end; lia.
    - destruct (isCpuIdleTooLow metrics cfg' && _); [apply max_zero_nonneg|lia]. }
  apply at_least_one_mono. split.
  - match goal with |- 0 <= ?n => enough (R : 0 <= n <= GoInt.max_int) by apply R end.
    repeat (apply max_step_range; [|apply to_int_in_range || apply wrap_in_range]).
    unfold GoInt.max_int; lia.
  - repeat apply max_step_mono. exact Hcpu.
Qed.

(** C7, as the code has it: with the state and the metrics fixed, raising
    [MinIdleCpu] never lowers [nodesNeeded]; when scale-up fires at the
    smaller value it fires at the larger one and [nodesToCreate] does not
    decrease; and the number of placeholder pods that the tick creates
    ([nodesToCreate] when scale-up fires and the number is positive, none
    otherwise) never decreases.  The availability and the average are
    valid [float32] values, [MinIdleCpu] is not negative, and the CPU deficit
    in nodes at the larger value fits an [int]. *)
Theorem pods_created_grow_with_MinIdleCpu (cfg : Config) (state : ClusterState)
    (metrics : ResourceMetrics) (delta : Z) :
  F32.valid (TotalAvailableCPU metrics) = true ->
  F32.valid (AvgCpuPerNode metrics) = true ->
  0 <= MinIdleCpu cfg -> 0 <= delta ->
  GoInt.len (PendingPlaceholders state) <= GoInt.max_int ->
  let cfg' := withMinIdleCpu cfg (MinIdleCpu cfg + delta) in
  (isCpuIdleTooLow metrics cfg' = true ->
   F32.gtb (AvgCpuPerNode metrics) F32.zero = true ->
   cpuDeficitFits cfg' metrics = true) ->
  nodesNeeded cfg state metrics <= nodesNeeded cfg' state metrics /\
  (scaleUpFires cfg state metrics = true ->
   scaleUpFires cfg' state metrics = true /\
   nodesToCreate cfg state metrics <= nodesToCreate cfg' state metrics) /\
  podsCreated cfg state metrics <= podsCreated cfg' state metrics.
Proof.
  intros Va Vg Hm Hd Hlen cfg' Hfit.
  destruct (nodesNeeded_mono cfg state metrics delta Va Vg Hm Hd Hfit) as [Hlow Hneeded].
  fold cfg' in Hlow, Hneeded.
  assert (Hfires : scaleUpFires cfg state metrics = true ->
                   scaleUpFires cfg' state metrics = true).
  { unfold scaleUpFires, shouldScaleUp. cbv zeta.
    change (isUtilizationTooHigh metrics cfg') with (isUtilizationTooHigh metrics cfg).
    change (isMemIdleTooLow metrics cfg') with (isMemIdleTooLow metrics cfg).
    change (MinIdleRunners cfg') with (MinIdleRunners cfg).
    rewrite !orb_true_iff. intuition. }
  assert (Hcreate : nodesToCreate cfg state metrics <= nodesToCreate cfg' state metrics).
  { rewrite (placeholder_accounting_eq cfg state metrics Hlen).
    rewrite (placeholder_accounting_eq cfg' state metrics Hlen). lia. }
  split; [exact Hneeded|]. split; [auto|].
  unfold podsCreated.
  destruct (scaleUpFires cfg state metrics) eqn:E.
  - rewrite (Hfires eq_refl). lia.
  - destruct (scaleUpFires cfg' state metrics); lia.
Qed.

Lemma pods_created_grow_with_MinIdleCpu_witness :
  let state := stateOf clusterS1 in
  let metrics := calculateResourceMetrics state in
  podsCreated configS1 state metrics
  <= podsCreated (withMinIdleCpu configS1 (16 + 8)) state metrics.
Proof.
  cbn zeta.
  apply (pods_created_grow_with_MinIdleCpu configS1 (stateOf clusterS1)
           (calculateResourceMetrics (stateOf clusterS1)) 8).
  - vm_compute. reflexivity.
  - vm_compute. reflexivity.
  - vm_compute. discriminate.
  - lia.
  - vm_compute. discriminate.
  - intros _ _. vm_compute. reflexivity.
Defined.

(** C7 fails as stated: around the idle runner of S1 with five placeholders
    pending, scale-up does not fire with [MinIdleCpu = 0], which counts as
    [nodesToCreate = 0]; with [MinIdleCpu = 16] it fires, one node is needed
    and [nodesToCreate] is [1 - 5]. *)
Lemma nodesToCreate_drops_when_scale_up_starts_to_fire :
  let state := stateOf clusterInFlight in
  let metrics := calculateResourceMetrics state in
  let cfg := config 80 0 0 0 in
  let cfg' := withMinIdleCpu cfg (0 + 16) in
  tickNodesToCreate cfg state metrics = 0 /\
  tickNodesToCreate cfg' state metrics = -4 /\
  ~ (tickNodesToCreate cfg state metrics <= tickNodesToCreate cfg' state metrics).
Proof.
  vm_compute. repeat split; try reflexivity. intros H. apply H. reflexivity.
Qed.

End RunnerManagerSpec.

(** * Properties of the credential resolver *)

Module ProxyAuthSpec.

Import ProxyAuth Scenarios.

(** ** The shape of a block's result *)

Create HintDb pres.

Section Blocks.

Variable pkg : Package.
Variable p : Proxy.

Lemma preserves_refl ctx : preserves ctx ctx.
Proof. split; auto. Qed.

Lemma preserves_trans a b c : preserves a b -> preserves b c -> preserves a c.
Proof.
  intros [] []; split; try congruence; auto.
Qed.

Lemma preserves_recordCall c ctx : preserves ctx (recordCall c ctx).
Proof. split; auto. Qed.

Lemma preserves_headerDel k ctx : preserves ctx (headerDel k ctx).
Proof.
  split; auto. intros k' H. cbn.
  destruct (decide (k = k')) as [->|Hne].
  - apply lookup_delete_eq.
  - rewrite lookup_delete_ne; auto.
Qed.

Lemma preserves_queryDel k ctx : preserves ctx (queryDel k ctx).
Proof. split; auto. Qed.

#[local] Hint Resolve preserves_refl preserves_recordCall preserves_headerDel
  preserves_queryDel : pres.

Ltac pres := cbn [fst snd]; eauto using preserves_trans with pres.

Lemma tryBearer_preserves ctx id errs :
  preserves ctx (fst (tryBearer pkg p ctx id errs)).
Proof.
  unfold tryBearer.
  destruct (_ && _); [|pres].
  destruct (getSandboxBearerTokenValid _ _ _) as [[[]|]|]; pres.
Qed.

Lemma tryAuthKeyHeader_preserves ctx id errs :
  preserves ctx (fst (tryAuthKeyHeader pkg p ctx id errs)).
Proof.
  unfold tryAuthKeyHeader.
  destruct (negb _); [|pres].
  destruct (getSandboxAuthKeyValid _ _ _) as [[[]|]|]; pres.
Qed.

Lemma tryAuthKeyQuery_preserves ctx id errs :
  preserves ctx (fst (tryAuthKeyQuery pkg p ctx id errs)).
Proof.
  unfold tryAuthKeyQuery.
  destruct (negb _); [|pres].
  destruct (getSandboxAuthKeyValid _ _ _) as [[[]|]|]; pres.
Qed.

Lemma tryCookie_preserves ctx id errs :
  preserves ctx (fst (tryCookie pkg p ctx id errs)).
Proof.
  unfold tryCookie.
  destruct (cookieGet _ _); [|pres].
  destruct (negb _); [|pres].
  destruct (secureCookie_Decode _ _ _); [|pres].
  destruct (String.eqb _ _); pres.
Qed.

Lemma tryBearer_noRedirect ctx id errs : noRedirect (snd (tryBearer pkg p ctx id errs)).
Proof.
  unfold tryBearer. destruct (_ && _); cbn; auto.
  destruct (getSandboxBearerTokenValid _ _ _) as [[[]|]|]; cbn; auto.
Qed.

Lemma tryAuthKeyHeader_noRedirect ctx id errs :
  noRedirect (snd (tryAuthKeyHeader pkg p ctx id errs)).
Proof.
  unfold tryAuthKeyHeader. destruct (negb _); cbn; auto.
  destruct (getSandboxAuthKeyValid _ _ _) as [[[]|]|]; cbn; auto.
Qed.

Lemma tryAuthKeyQuery_noRedirect ctx id errs :
  noRedirect (snd (tryAuthKeyQuery pkg p ctx id errs)).
Proof.
  unfold tryAuthKeyQuery. destruct (negb _); cbn; auto.
  destruct (getSandboxAuthKeyValid _ _ _) as [[[]|]|]; cbn; auto.
Qed.

Lemma tryCookie_noRedirect ctx id errs : noRedirect (snd (tryCookie pkg p ctx id errs)).
Proof.
  unfold tryCookie. destruct (cookieGet _ _); cbn; auto.
  destruct (negb _); cbn; auto.
  destruct (secureCookie_Decode _ _ _); cbn; auto.
  destruct (String.eqb _ _); cbn; auto.
Qed.

Lemma trySignedToken_noRedirect ctx id port errs :
  noRedirect (snd (trySignedToken pkg p ctx id port errs)).
Proof.
  unfold trySignedToken, getSandboxIdFromSignedPreviewUrlToken.
  destruct (GetSandboxIdFromSignedPreviewUrlToken _ _ _); cbn; auto.
  destruct (secureCookie_Encode _ _ _); cbn; auto.
Qed.

Lemma andThen_noRedirect r next :
  noRedirect (snd r) ->
  (forall ctx errs, noRedirect (snd (next ctx errs))) ->
  noRedirect (snd (andThen r next)).
Proof.
  destruct r as [ctx [sid d err|errs]]; cbn; auto.
Qed.

Lemma andThen_preserves ctx0 r next :
  preserves ctx0 (fst r) ->
  (forall ctx errs, preserves ctx (fst (next ctx errs))) ->
  preserves ctx0 (fst (andThen r next)).
Proof.
  destruct r as [ctx [sid d err|errs]]; cbn; auto.
  intros H1 H2. eapply preserves_trans; eauto.
Qed.

Lemma credentialAttempts_noRedirect ctx id :
  noRedirect (snd (credentialAttempts pkg p ctx id)).
Proof.
  unfold credentialAttempts.
  repeat (apply andThen_noRedirect; [|intros]);
    auto using tryBearer_noRedirect, tryAuthKeyHeader_noRedirect,
               tryAuthKeyQuery_noRedirect, tryCookie_noRedirect.
Qed.

Lemma credentialAttempts_preserves ctx id :
  preserves ctx (fst (credentialAttempts pkg p ctx id)).
Proof.
  unfold credentialAttempts.
  repeat (apply andThen_preserves; [|intros]);
    auto using tryBearer_preserves, tryAuthKeyHeader_preserves,
               tryAuthKeyQuery_preserves, tryCookie_preserves.
Qed.

Lemma attempts_noRedirect ctx id port : noRedirect (snd (attempts pkg p ctx id port)).
Proof.
  unfold attempts. apply andThen_noRedirect.
  - apply credentialAttempts_noRedirect.
  - intros. apply trySignedToken_noRedirect.
Qed.

(** The signed token exchange never falls through without a reason. *)
Lemma trySignedToken_reason ctx id port errs ctx' errs' :
  trySignedToken pkg p ctx id port errs = (ctx', Continue errs') ->
  exists reason, errs' = errs ++ [reason].
Proof.
  unfold trySignedToken, getSandboxIdFromSignedPreviewUrlToken.
  destruct (GetSandboxIdFromSignedPreviewUrlToken _ _ _).
  - destruct (secureCookie_Encode _ _ _); intros [=]; subst; eauto.
  - intros [=]; subst; eauto.
Qed.

Lemma attempts_reason ctx id port ctx' errs' :
  attempts pkg p ctx id port = (ctx', Continue errs') ->
  exists errs reason, errs' = errs ++ [reason].
Proof.
  unfold attempts.
  destruct (credentialAttempts pkg p ctx id) as [c [sid d err|errs]]; cbn.
  - intros [=].
  - intros H. apply trySignedToken_reason in H as [r ->]. eauto.
Qed.

End Blocks.

Lemma errorMsg_nonempty errs reason :
  errorMsg (errs ++ [reason]) =
  "authentication failed:" +:+ newline +:+ Join (errs ++ [reason]) (newline +:+ ";" +:+ newline).
Proof.
  unfold errorMsg, GoInt.len. rewrite length_app. cbn [length].
  destruct (Z.ltb_spec 0 (Z.of_nat (length errs + 1))); [reflexivity|lia].
Qed.

Section Resolution.

Variable pkg : Package.
Variable p : Proxy.

Lemma trySignedToken_request ctx id port errs :
  ctx_Request (fst (trySignedToken pkg p ctx id port errs)) = ctx_Request ctx.
Proof.
  unfold trySignedToken, getSandboxIdFromSignedPreviewUrlToken.
  destruct (GetSandboxIdFromSignedPreviewUrlToken _ _ _); cbn; auto.
  destruct (secureCookie_Encode _ _ _); cbn; auto.
Qed.

Lemma redirectToAuthUrl_request ctx id errs :
  ctx_Request (fst (redirectToAuthUrl p ctx id errs)) = ctx_Request ctx.
Proof.
  unfold redirectToAuthUrl. cbn.
  destruct (getAuthUrl _ _ _); cbn; auto.
Qed.

(** Once the credential attempts are over, the request is not touched
    any more. *)
Lemma Authenticate_request ctx id port ctx1 f :
  credentialAttempts pkg p ctx id = (ctx1, f) ->
  ctx_Request (fst (Authenticate pkg p ctx id port)) = ctx_Request ctx1.
Proof.
  intros H. unfold Authenticate, attempts. rewrite H.
  destruct f as [sid d err|errs]; cbn; auto.
  pose proof (trySignedToken_request ctx1 id port errs) as Hreq.
  destruct (trySignedToken pkg p ctx1 id port errs) as [ctx2 [sid d err|errs2]];
    cbn in *; auto.
  rewrite redirectToAuthUrl_request. auto.
Qed.

Lemma tryBearer_accepted ctx id errs :
  bearerAccepted pkg p ctx id = true ->
  tryBearer pkg p ctx id errs =
  (recordCall (CallBearerTokenValid id (bearerTokenOf pkg ctx)) ctx, Return id false None).
Proof.
  unfold bearerAccepted, tryBearer, bearerTokenOf.
  destruct (negb _ && HasPrefix _ _); cbn; [|discriminate].
  destruct (getSandboxBearerTokenValid _ _ _) as [[[]|]|]; try discriminate. auto.
Qed.

Lemma tryBearer_rejected ctx id errs :
  bearerAccepted pkg p ctx id = false ->
  exists ctx1 errs1,
    tryBearer pkg p ctx id errs = (ctx1, Continue errs1) /\
    ctx_Request ctx1 = ctx_Request ctx.
Proof.
  unfold bearerAccepted, tryBearer.
  destruct (negb _ && HasPrefix _ _); cbn; [|eauto].
  destruct (getSandboxBearerTokenValid _ _ _) as [[[]|]|]; try discriminate; eauto.
Qed.

Lemma tryAuthKeyHeader_strips ctx id errs :
  headerGet (SANDBOX_AUTH_KEY_HEADER pkg) ctx <> "" ->
  Header (ctx_Request (fst (tryAuthKeyHeader pkg p ctx id errs)))
    !! SANDBOX_AUTH_KEY_HEADER pkg = None.
Proof.
  intros Hne. unfold tryAuthKeyHeader.
  destruct (String.eqb_spec (headerGet (SANDBOX_AUTH_KEY_HEADER pkg) ctx) "");
    [contradiction|]. cbn [negb].
  destruct (getSandboxAuthKeyValid _ _ _) as [[[]|]|]; cbn; apply lookup_delete_eq.
Qed.

End Resolution.

(** ** Credential precedence and the auth-key header *)




(** ** The message of the redirect error *)

(** C6: whenever [Authenticate] answers with a redirect, the error it
    returns is the aggregated one: it starts with "authentication failed:"
    and is never the canonical "missing authentication" message, also for
    a request that presents no credentials at all, because the failed
    token exchange has always left a reason behind. *)
Theorem redirect_error_is_never_missing_authentication
    (pkg : Package) (p : Proxy) (ctx ctx' : Context) (id sid : string) (port : spec_float)
    (err : option string) :
  Authenticate pkg p ctx id port = (ctx', (sid, true, err)) ->
  exists errs reason,
    err = Some ("authentication failed:" +:+ newline
                +:+ Join (errs ++ [reason]) (newline +:+ ";" +:+ newline)) /\
    err <> Some missingAuthentication.
Proof.
  unfold Authenticate.
  pose proof (attempts_noRedirect pkg p ctx id port) as Hno.
  destruct (attempts pkg p ctx id port) as [c [s d e|errs']] eqn:Hatt.
  - cbn in Hno. intros [=]; subst. discriminate.
  - apply attempts_reason in Hatt as (errs & reason & ->).
    unfold redirectToAuthUrl.
    destruct (getAuthUrl _ _ _); intros [=]; subst.
    exists errs, reason. rewrite errorMsg_nonempty. split; [reflexivity|].
    intros [=].
Qed.

Lemma redirect_error_is_never_missing_authentication_witness :
  exists errs reason,
    Some ("authentication failed:" +:+ newline +:+
          "failed to get sandbox ID: 404 Not Found. Is the token expired?") =
    Some ("authentication failed:" +:+ newline
          +:+ Join (errs ++ [reason]) (newline +:+ ";" +:+ newline)) /\
    Some ("authentication failed:" +:+ newline +:+
          "failed to get sandbox ID: 404 Not Found. Is the token expired?")
    <> Some missingAuthentication.
Proof.
  apply (redirect_error_is_never_missing_authentication pkg0 proxy0
           (context requestNoCredentials)
           (fst (Authenticate pkg0 proxy0 (context requestNoCredentials) "sandbox-1" port0))
           "sandbox-1" "sandbox-1" port0).
  vm_compute. reflexivity.
Defined.

(** The request without credentials, evaluated. *)
Lemma no_credentials_error_message :
  snd (Authenticate pkg0 proxy0 (context requestNoCredentials) "sandbox-1" port0) =
  ("sandbox-1", true,
   Some ("authentication failed:" +:+ newline +:+
         "failed to get sandbox ID: 404 Not Found. Is the token expired?")).
Proof. vm_compute. reflexivity. Qed.

(** ** Reasons collected from the attempts *)



(** The request with the foreign cookie, evaluated: the aggregated error
    holds the reason of the token exchange only. *)
Lemma foreign_cookie_error_message :
  snd (Authenticate pkg0 proxy0 (context requestForeignCookie) "sandbox-1" port0) =
  ("sandbox-1", true,
   Some ("authentication failed:" +:+ newline +:+
         "failed to get sandbox ID: 404 Not Found. Is the token expired?")).
Proof. vm_compute. reflexivity. Qed.

(** ** A cookie that cannot be encoded *)

(** C10: when the API resolves the signed token but the cookie cannot be
    encoded, [getSandboxIdFromSignedPreviewUrlToken] returns an error and
    writes nothing to the response; [Authenticate], once the credential
    attempts have fallen through, then answers as for a token the API
    rejects: it returns the path token (not the resolved sandbox id), sets
    no cookie and redirects with status 307 to the auth URL, the encoding
    failure being the last reason of the aggregated error. *)
Theorem encode_failure_is_failed_authentication
    (pkg : Package) (p : Proxy) (ctx : Context) (id : string) (port : spec_float)
    (sid err : string) :
  GetSandboxIdFromSignedPreviewUrlToken p id port = Ok sid ->
  secureCookie_Encode p (SANDBOX_AUTH_COOKIE_NAME pkg +:+ sid) sid = Err err ->
  (forall cookieDomain,
     let '(ctx', r) := getSandboxIdFromSignedPreviewUrlToken pkg p ctx id port cookieDomain in
     r = Err ("failed to encode cookie: " +:+ err) /\
     ctx_SetCookies ctx' = ctx_SetCookies ctx /\
     ctx_Redirect ctx' = ctx_Redirect ctx /\
     ctx_Request ctx' = ctx_Request ctx)
  /\
  (forall ctx1 errs rejected,
     credentialAttempts pkg p ctx id = (ctx1, Continue errs) ->
     let '(ctxA, (sidA, redirectedA, errA)) := Authenticate pkg p ctx id port in
     let '(ctxB, (sidB, redirectedB, errB)) :=
       Authenticate pkg (withFailingExchange p rejected) ctx id port in
     sidA = id /\ sidB = id /\
     redirectedA = redirectedB /\
     ctx_Request ctxA = ctx_Request ctxB /\
     ctx_SetCookies ctxA = ctx_SetCookies ctx /\
     ctx_SetCookies ctxB = ctx_SetCookies ctx /\
     ctx_Redirect ctxA = ctx_Redirect ctxB /\
     (forall authUrl,
        getAuthUrl p (ctx_Request ctx1) id = Ok authUrl ->
        redirectedA = true /\
        ctx_Redirect ctxA = Some (StatusTemporaryRedirect, authUrl) /\
        errA = Some (errorMsg (errs ++ ["failed to encode cookie: " +:+ err])))).
Proof.
  intros Hex Henc. split.
  - intros dom. unfold getSandboxIdFromSignedPreviewUrlToken.
    rewrite Hex, Henc. cbn. auto.
  - intros ctx1 errs rejected Hcred.
    pose proof (credentialAttempts_preserves pkg p ctx id) as Hpres.
    rewrite Hcred in Hpres. cbn [fst] in Hpres. destruct Hpres as [Hc Hr _ _].
    unfold Authenticate, attempts.
    change (credentialAttempts pkg (withFailingExchange p rejected) ctx id)
      with (credentialAttempts pkg p ctx id).
    rewrite Hcred. cbn [andThen].
    unfold trySignedToken, getSandboxIdFromSignedPreviewUrlToken.
    rewrite Hex, Henc. unfold redirectToAuthUrl.
    cbn -[errorMsg String.append].
    destruct (getAuthUrl p (ctx_Request ctx1) id) as [url|e];
      cbn -[errorMsg String.append]; repeat split; auto; try discriminate.
    congruence.
Qed.

Lemma encode_failure_is_failed_authentication_witness :
  snd (getSandboxIdFromSignedPreviewUrlToken pkg0 proxyEncodeFails
         (context requestNoCredentials) "signed-token" port0 "proxy.example") =
  Err "failed to encode cookie: securecookie: the value is too long"
  /\
  Authenticate pkg0 proxyEncodeFails (context requestNoCredentials) "signed-token" port0 =
  (redirect StatusTemporaryRedirect "https://auth.example/signed-token"
     (recordCall (CallGetAuthUrl "signed-token")
        (recordCall (CallCookieEncode "daytona-sandbox-auth-sandbox-1" "sandbox-1")
           (recordCall (CallSignedPreviewUrlToken "signed-token" port0)
              (context requestNoCredentials)))),
   ("signed-token", true,
    Some (errorMsg ["failed to encode cookie: securecookie: the value is too long"]))).
Proof.
  pose proof (encode_failure_is_failed_authentication pkg0 proxyEncodeFails
                (context requestNoCredentials) "signed-token" port0 "sandbox-1"
                "securecookie: the value is too long" eq_refl eq_refl) as [H1 H2].
  split.
  - specialize (H1 "proxy.example").
    destruct (getSandboxIdFromSignedPreviewUrlToken _ _ _ _ _ _). apply H1.
  - vm_compute. reflexivity.
Defined.

End ProxyAuthSpec.

(** * Further properties of the runner-manager *)

Module RunnerManagerProps.

Import RunnerManager Scenarios.

(** ** gatherClusterState: what a successful gathering holds *)

Lemma find_app {A} (f : A -> bool) (a b : list A) :
  List.find f (a ++ b) = match List.find f a with Some x => Some x | None => List.find f b end.
Proof.
  induction a as [|x a IH]; [reflexivity|]. cbn [app List.find].
  destruct (f x); [reflexivity|exact IH].
Qed.

Lemma lastWith_cons {A} (f : A -> bool) (x : A) (l : list A) :
  lastWith f (x :: l) =
  match lastWith f l with Some y => Some y | None => if f x then Some x else None end.
Proof. unfold lastWith. cbn [rev]. rewrite find_app. reflexivity. Qed.

Lemma lastWith_Some {A} (f : A -> bool) (l : list A) (x : A) :
  lastWith f l = Some x -> In x l /\ f x = true.
Proof.
  unfold lastWith. intros H. apply List.find_some in H. rewrite <- in_rev in H. exact H.
Qed.

Lemma lastWith_None {A} (f : A -> bool) (l : list A) :
  lastWith f l = None <-> forall x, In x l -> f x = false.
Proof.
  unfold lastWith. split.
  - intros H x Hx. apply (List.find_none _ _ H). now rewrite <- in_rev.
  - intros H. destruct (List.find f (rev l)) as [x|] eqn:E; [|reflexivity].
    apply List.find_some in E. rewrite <- in_rev in E. destruct E as [Hx Hf].
    rewrite (H x Hx) in Hf. discriminate.
Qed.

(** The runner loop leaves in the domain index, for every domain, the
    last runner of that domain. *)
Lemma categorizeRunner_byDomain (l : list RunnerFull) : forall s domain,
  RunnerByDomain (fold_left categorizeRunner l s) !! domain =
  match (if decide (domain = "") then None
         else lastWith (fun r => bool_decide (GetDomain r = domain)) l) with
  | Some r => Some r
  | None => RunnerByDomain s !! domain
  end.
Proof.
  induction l as [|r l IH]; intros s domain.
  - cbn [fold_left]. unfold lastWith. cbn. now destruct (decide (domain = "")).
  - cbn [fold_left]. rewrite IH. destruct (decide (domain = "")) as [->|Hd].
    + cbn [categorizeRunner RunnerByDomain].
      destruct (decide (GetDomain r = "")) as [_|Hr]; [reflexivity|].
      now rewrite lookup_insert_ne.
    + rewrite lastWith_cons.
      destruct (lastWith _ l) as [y|]; [reflexivity|].
      cbn [categorizeRunner RunnerByDomain].
      destruct (decide (GetDomain r = "")) as [Hr|Hr].
      * rewrite bool_decide_eq_false_2 by congruence. reflexivity.
      * destruct (decide (GetDomain r = domain)) as [<-|Hne].
        -- rewrite bool_decide_eq_true_2 by reflexivity. now rewrite lookup_insert_eq.
        -- rewrite bool_decide_eq_false_2 by assumption. now rewrite lookup_insert_ne.
Qed.

Lemma categorizePlaceholder_byDomain (l : list Pod) : forall s,
  RunnerByDomain (fold_left categorizePlaceholder l s) = RunnerByDomain s /\
  NodeByIP (fold_left categorizePlaceholder l s) = NodeByIP s /\
  NascentNodes (fold_left categorizePlaceholder l s) = NascentNodes s.
Proof.
  induction l as [|pod l IH]; intros s; [now cbn|].
  cbn [fold_left]. destruct (IH (categorizePlaceholder s pod)) as (-> & -> & ->).
  now cbn.
Qed.

Lemma categorizeRunner_byIP (l : list RunnerFull) : forall s,
  NodeByIP (fold_left categorizeRunner l s) = NodeByIP s /\
  NascentNodes (fold_left categorizeRunner l s) = NascentNodes s.
Proof.
  induction l as [|r l IH]; intros s; [now cbn|].
  cbn [fold_left]. destruct (IH (categorizeRunner s r)) as (-> & ->). now cbn.
Qed.

Lemma indexNode_lookup (node : Node) (byIP : gmap string Node) (ip : string) :
  indexNode byIP node !! ip =
  if bool_decide (ip ∈ node_Addresses node) then Some node else byIP !! ip.
Proof.
  unfold indexNode, extractNodeIPs. revert byIP.
  induction (node_Addresses node) as [|a l IH]; intros byIP.
  - cbn [fold_left]. rewrite bool_decide_eq_false_2; [reflexivity|apply not_elem_of_nil].
  - cbn [fold_left]. rewrite IH.
    destruct (decide (ip ∈ l)) as [Hin|Hin].
    + rewrite !bool_decide_eq_true_2; [reflexivity|now apply list_elem_of_further|assumption].
    + rewrite (bool_decide_eq_false_2 (ip ∈ l)) by assumption.
      destruct (decide (a = ip)) as [->|Hne].
      * rewrite bool_decide_eq_true_2 by apply list_elem_of_here.
        now rewrite lookup_insert_eq.
      * rewrite bool_decide_eq_false_2 by (rewrite elem_of_cons; intros [?|?]; congruence).
        now rewrite lookup_insert_ne.
Qed.

(** The node loop leaves in the address index, for every address, the
    last node that lists it. *)
Lemma indexNode_fold (l : list Node) : forall byIP ip,
  fold_left indexNode l byIP !! ip =
  match lastWith (fun n => bool_decide (ip ∈ node_Addresses n)) l with
  | Some n => Some n
  | None => byIP !! ip
  end.
Proof.
  induction l as [|n l IH]; intros byIP ip; [reflexivity|].
  cbn [fold_left]. rewrite IH, lastWith_cons.
  destruct (lastWith _ l); [reflexivity|]. rewrite indexNode_lookup.
  now destruct (bool_decide _).
Qed.

Lemma nascentStep_fold (byDomain : gmap string RunnerFull) (scheduled : list Pod)
    (l : list Node) : forall nascent,
  fold_left (nascentStep byDomain scheduled) l nascent =
  nascent ++ List.filter
    (fun node => negb (node_Unschedulable node) && negb (hasRunner byDomain node)
                 && existsb (fun pod => bool_decide (pod_NodeName pod = node_Name node))
                            scheduled) l.
Proof.
  induction l as [|n l IH]; intros nascent; [cbn; now rewrite app_nil_r|].
  cbn [fold_left List.filter]. rewrite IH. unfold nascentStep.
  destruct (node_Unschedulable n); cbn [negb andb]; [reflexivity|].
  destruct (hasRunner byDomain n); cbn [negb andb]; [reflexivity|].
  destruct (existsb _ scheduled); [|reflexivity].
  now rewrite <- app_assoc.
Qed.

(** What a successful [gatherClusterState] returns, field by field. *)
Lemma gatherClusterState_fields (api : Fetched) (state : ClusterState) :
  gatherClusterState api = Ok state ->
  exists runners pods nodes,
    fetchedRunners api = Ok runners /\ fetchedPlaceholders api = Ok pods /\
    fetchedNodes api = Ok nodes /\
    Runners state = runners /\ Nodes state = nodes /\
    PendingPlaceholders state =
      List.filter (fun pod => bool_decide (pod_NodeName pod = "")) pods /\
    ScheduledPlaceholders state =
      List.filter (fun pod => negb (bool_decide (pod_NodeName pod = ""))) pods /\
    (forall domain, RunnerByDomain state !! domain =
       if decide (domain = "") then None
       else lastWith (fun r => bool_decide (GetDomain r = domain)) runners) /\
    (forall ip, NodeByIP state !! ip =
       lastWith (fun n => bool_decide (ip ∈ node_Addresses n)) nodes) /\
    NascentNodes state =
      List.filter
        (fun node => negb (node_Unschedulable node)
                     && negb (hasRunner (RunnerByDomain state) node)
                     && existsb (fun pod => bool_decide (pod_NodeName pod = node_Name node))
                                (ScheduledPlaceholders state)) nodes.
Proof.
  unfold gatherClusterState.
  destruct (fetchedRunners api) as [runners|]; [|discriminate].
  destruct (fetchedPlaceholders api) as [pods|]; [|discriminate].
  destruct (fetchedNodes api) as [nodes|]; [|discriminate].
  intros [= <-]. exists runners, pods, nodes.
  cbn [Runners Nodes PendingPlaceholders ScheduledPlaceholders RunnerByDomain NodeByIP
       NascentNodes].
  match goal with
  | |- context [fold_left categorizePlaceholder pods ?s] =>
      destruct (RunnerManagerSpec.categorizePlaceholder_fold pods s)
        as (_ & _ & _ & HR & HP & HS);
      destruct (categorizePlaceholder_byDomain pods s) as (HD & HI & HN)
  end.
  match type of HR with
  | context [fold_left categorizeRunner runners ?s] =>
      destruct (RunnerManagerSpec.categorizeRunner_fold runners s)
        as (_ & _ & _ & HR' & HP' & HS');
      destruct (categorizeRunner_byIP runners s) as (HI' & HN');
      pose proof (categorizeRunner_byDomain runners s) as HD'
  end.
  cbn zeta in *.
  rewrite HR, HR', HP, HP', HS, HS', HD, HI, HI', HN, HN'.
  cbn [Runners PendingPlaceholders ScheduledPlaceholders NodeByIP NascentNodes app].
  repeat split; try reflexivity.
  - intros domain. rewrite HD'. cbn [RunnerByDomain].
    destruct (decide (domain = "")); [apply lookup_empty|].
    destruct (lastWith _ runners); [reflexivity|apply lookup_empty].
  - intros ip. rewrite indexNode_fold.
    destruct (lastWith _ nodes); [reflexivity|apply lookup_empty].
  - rewrite nascentStep_fold. reflexivity.
Qed.

Lemma gathered_active (api : Fetched) (state : ClusterState) :
  gatherClusterState api = Ok state ->
  ActiveRunners state = List.filter isAllocated (Runners state).
Proof.
  unfold gatherClusterState.
  destruct (fetchedRunners api) as [runners|]; [|discriminate].
  destruct (fetchedPlaceholders api) as [pods|]; [|discriminate].
  destruct (fetchedNodes api) as [nodes|]; [|discriminate].
  intros [= <-]. cbn [Runners ActiveRunners].
  match goal with
  | |- context [fold_left categorizePlaceholder pods ?s] =>
      destruct (RunnerManagerSpec.categorizePlaceholder_fold pods s)
        as (HA & _ & _ & HR & _)
  end.
  match type of HR with
  | context [fold_left categorizeRunner runners ?s] =>
      destruct (RunnerManagerSpec.categorizeRunner_fold runners s)
        as (HA' & _ & _ & HR' & _)
  end.
  cbn zeta in *. rewrite HA, HA', HR, HR'. reflexivity.
Qed.

Lemma byDomain_is_Some (api : Fetched) (state : ClusterState) (domain : string) :
  gatherClusterState api = Ok state ->
  is_Some (RunnerByDomain state !! domain) <->
  domain <> "" /\ exists r, In r (Runners state) /\ GetDomain r = domain.
Proof.
  intros H. destruct (gatherClusterState_fields api state H)
    as (runners & pods & nodes & _ & _ & _ & <- & _ & _ & _ & HD & _).
  rewrite HD. destruct (decide (domain = "")) as [->|Hd].
  - split; [intros [x [=]]|intros [[] _]; reflexivity].
  - split.
    + intros [r Hr]. apply lastWith_Some in Hr as [Hin Hb].
      apply bool_decide_eq_true in Hb. eauto.
    + intros [_ (r & Hin & Hr)].
      destruct (lastWith _ (Runners state)) as [y|] eqn:E; [eauto|].
      rewrite lastWith_None in E. specialize (E r Hin).
      apply bool_decide_eq_false in E. contradiction.
Qed.

Lemma hasRunner_spec (api : Fetched) (state : ClusterState) (node : Node) :
  gatherClusterState api = Ok state ->
  hasRunner (RunnerByDomain state) node = true <-> nodeHasRunner state node.
Proof.
  intros H. unfold hasRunner, nodeHasRunner, extractNodeIPs. rewrite existsb_exists.
  split.
  - intros (ip & Hin & Hb). apply bool_decide_eq_true in Hb.
    apply (byDomain_is_Some api state ip H) in Hb as [Hne (r & Hr & Hd)]. eauto 8.
  - intros (ip & r & Hin & Hr & Hd & Hne). exists ip. split; [assumption|].
    apply bool_decide_eq_true. apply (byDomain_is_Some api state ip H). eauto.
Qed.

(** X1: a successful gathering splits the placeholder pods it listed by
    their node name: the pending placeholders are the pods without a node,
    the scheduled ones the pods with a node, both in the listed order; a
    pod is in exactly one of the two lists, and the two lengths add up to
    the number of pods listed. *)
Theorem placeholders_split_by_node_name (api : Fetched) (state : ClusterState) :
  gatherClusterState api = Ok state ->
  exists pods,
    fetchedPlaceholders api = Ok pods /\
    PendingPlaceholders state =
      List.filter (fun pod => bool_decide (pod_NodeName pod = "")) pods /\
    ScheduledPlaceholders state =
      List.filter (fun pod => negb (bool_decide (pod_NodeName pod = ""))) pods /\
    (forall pod, In pod (PendingPlaceholders state) <-> In pod pods /\ pod_NodeName pod = "") /\
    (forall pod, In pod (ScheduledPlaceholders state) <->
                 In pod pods /\ pod_NodeName pod <> "") /\
    GoInt.len (PendingPlaceholders state) + GoInt.len (ScheduledPlaceholders state)
      = GoInt.len pods.
Proof.
  intros H. destruct (gatherClusterState_fields api state H)
    as (runners & pods & nodes & _ & Hp & _ & _ & _ & HP & HS & _).
  exists pods. rewrite HP, HS.
  split; [assumption|]. split; [reflexivity|]. split; [reflexivity|].
  split; [|split].
  - intros pod. rewrite filter_In, bool_decide_eq_true. reflexivity.
  - intros pod. rewrite filter_In, negb_true_iff, bool_decide_eq_false. reflexivity.
  - unfold GoInt.len. clear. induction pods as [|pod pods IH]; [reflexivity|].
    cbn [List.filter]. destruct (bool_decide _); cbn [negb length] in *; lia.
Qed.

Lemma placeholders_split_by_node_name_witness :
  exists pods,
    fetchedPlaceholders cluster = Ok pods /\
    PendingPlaceholders (stateOf cluster) =
      List.filter (fun pod => bool_decide (pod_NodeName pod = "")) pods /\
    GoInt.len (PendingPlaceholders (stateOf cluster))
      + GoInt.len (ScheduledPlaceholders (stateOf cluster)) = GoInt.len pods.
Proof.
  destruct (placeholders_split_by_node_name cluster (stateOf cluster) eq_refl)
    as (pods & H1 & H2 & _ & _ & _ & H6).
  exists pods. repeat split; assumption.
Defined.

(** X2: after a successful gathering the domain index holds, for every
    domain, the last listed runner that has this domain, and nothing for
    the empty domain; so a domain is a key exactly when it is not empty
    and is the domain of a listed runner, and the runner found has that
    domain. *)
Theorem domain_index_keeps_last_runner (api : Fetched) (state : ClusterState) :
  gatherClusterState api = Ok state ->
  (forall domain, RunnerByDomain state !! domain =
     if decide (domain = "") then None
     else lastWith (fun r => bool_decide (GetDomain r = domain)) (Runners state)) /\
  (forall domain, is_Some (RunnerByDomain state !! domain) <->
     domain <> "" /\ exists r, In r (Runners state) /\ GetDomain r = domain) /\
  (forall domain r, RunnerByDomain state !! domain = Some r ->
     In r (Runners state) /\ GetDomain r = domain).
Proof.
  intros H. destruct (gatherClusterState_fields api state H)
    as (runners & pods & nodes & _ & _ & _ & <- & _ & _ & _ & HD & _).
  split; [exact HD|]. split; [intros domain; now apply (byDomain_is_Some api)|].
  intros domain r. rewrite HD. destruct (decide (domain = "")); [discriminate|].
  intros Hr. apply lastWith_Some in Hr as [Hin Hb]. now apply bool_decide_eq_true in Hb.
Qed.

Lemma domain_index_keeps_last_runner_witness :
  RunnerByDomain (stateOf cluster) !! "10.0.0.2" = Some runnerActive /\
  RunnerByDomain (stateOf cluster) !! "" = None.
Proof.
  destruct (domain_index_keeps_last_runner cluster (stateOf cluster) eq_refl) as (HD & _).
  split; rewrite HD; vm_compute; reflexivity.
Defined.

(** X3: after a successful gathering the address index holds, for every
    address, the last listed node that has this address; an address is a
    key exactly when a listed node has it. *)
Theorem address_index_keeps_last_node (api : Fetched) (state : ClusterState) :
  gatherClusterState api = Ok state ->
  (forall ip, NodeByIP state !! ip =
     lastWith (fun n => bool_decide (ip ∈ node_Addresses n)) (Nodes state)) /\
  (forall ip, is_Some (NodeByIP state !! ip) <->
     exists node, In node (Nodes state) /\ In ip (extractNodeIPs node)) /\
  (forall ip node, NodeByIP state !! ip = Some node ->
     In node (Nodes state) /\ In ip (extractNodeIPs node)).
Proof.
  intros H. destruct (gatherClusterState_fields api state H)
    as (runners & pods & nodes & _ & _ & _ & _ & <- & _ & _ & _ & HI & _).
  assert (Hsome : forall ip node, NodeByIP state !! ip = Some node ->
                  In node (Nodes state) /\ In ip (extractNodeIPs node)).
  { intros ip node. rewrite HI. intros Hn. apply lastWith_Some in Hn as [Hin Hb].
    apply bool_decide_eq_true in Hb. split; [assumption|]. now apply list_elem_of_In. }
  split; [exact HI|]. split; [|exact Hsome].
  intros ip. split.
  - intros [node Hn]. exists node. now apply Hsome.
  - intros (node & Hin & Hip). rewrite HI.
    destruct (lastWith _ (Nodes state)) as [y|] eqn:E; [eauto|].
    rewrite lastWith_None in E. specialize (E node Hin).
    apply bool_decide_eq_false in E. exfalso. apply E. now apply list_elem_of_In.
Qed.

Lemma address_index_keeps_last_node_witness :
  NodeByIP (stateOf cluster) !! "10.0.0.3" = Some nodeC /\
  NodeByIP (stateOf cluster) !! "10.0.0.9" = None.
Proof.
  destruct (address_index_keeps_last_node cluster (stateOf cluster) eq_refl) as (HI & _).
  split; rewrite HI; vm_compute; reflexivity.
Defined.

(** X4: after a successful gathering the nascent nodes are, in the listed
    order, the listed nodes that are schedulable, have no address that is
    the domain of a listed runner, and host a scheduled placeholder. *)
Theorem nascent_nodes_have_a_placeholder_and_no_runner (api : Fetched)
    (state : ClusterState) :
  gatherClusterState api = Ok state ->
  NascentNodes state =
    List.filter
      (fun node => negb (node_Unschedulable node)
                   && negb (hasRunner (RunnerByDomain state) node)
                   && existsb (fun pod => bool_decide (pod_NodeName pod = node_Name node))
                              (ScheduledPlaceholders state)) (Nodes state) /\
  (forall node, In node (NascentNodes state) <->
     In node (Nodes state) /\ node_Unschedulable node = false /\
     ~ nodeHasRunner state node /\ hostsPlaceholder state node) /\
  GoInt.len (NascentNodes state) <= GoInt.len (Nodes state).
Proof.
  intros H. destruct (gatherClusterState_fields api state H)
    as (runners & pods & nodes & _ & _ & _ & _ & <- & _ & _ & _ & _ & HN).
  split; [exact HN|]. split.
  - intros node. rewrite HN, filter_In, !andb_true_iff, !negb_true_iff.
    rewrite existsb_exists. rewrite <- (not_true_iff_false (hasRunner _ _)).
    rewrite (hasRunner_spec api state node H). unfold hostsPlaceholder.
    split.
    + intros (Hin & (Hs & Hr) & pod & Hp & Hb). apply bool_decide_eq_true in Hb. eauto 8.
    + intros (Hin & Hs & Hr & pod & Hp & Hb). repeat split; try assumption.
      exists pod. split; [assumption|now apply bool_decide_eq_true].
  - rewrite HN. unfold GoInt.len. apply Nat2Z.inj_le, List.filter_length_le.
Qed.

Lemma nascent_nodes_have_a_placeholder_and_no_runner_witness :
  NascentNodes (stateOf cluster) = [nodeD].
Proof.
  destruct (nascent_nodes_have_a_placeholder_and_no_runner cluster (stateOf cluster) eq_refl)
    as (HN & _).
  rewrite HN. vm_compute. reflexivity.
Defined.
(** ** One tick of the controller loop *)

Lemma deletePods_nil_len (pods : list Pod) :
  (if Z.ltb 0 (GoInt.len pods) then deletePods pods else []) = deletePods pods.
Proof. destruct pods; reflexivity. Qed.

(** The early return of [handleScaleDown] changes nothing: without
    deletable runners the batch is empty. *)
Lemma handleScaleDown_eq (cfg : Config) (state : ClusterState) (metrics : ResourceMetrics)
    (needsScaleUp : bool) :
  handleScaleDown cfg state metrics needsScaleUp =
  (if needsScaleUp then [] else deletePods (PendingPlaceholders state))
  ++ deletePods (placeholdersToDeleteInBatch cfg state metrics).
Proof.
  unfold handleScaleDown. cbv zeta.
  assert (Hp : (if negb needsScaleUp && Z.ltb 0 (GoInt.len (PendingPlaceholders state))
                then deletePods (PendingPlaceholders state) else [])
               = if needsScaleUp then [] else deletePods (PendingPlaceholders state)).
  { destruct needsScaleUp; cbn [negb andb]; [reflexivity|apply deletePods_nil_len]. }
  rewrite Hp. unfold placeholdersToDeleteInBatch.
  destruct (DeletableRunners state) as [|r l]; [|reflexivity].
  cbn [GoInt.len length Z.of_nat Z.eqb fold_left deletePods map]. now rewrite app_nil_r.
Qed.

Lemma placeholderFound_Some (scheduled : list Pod) (nodeName : string) (pod : Pod) :
  placeholderFound scheduled nodeName = Some pod ->
  In pod scheduled /\ pod_NodeName pod = nodeName.
Proof.
  unfold placeholderFound. intros H. apply List.find_some in H as [Hin Hb].
  now apply bool_decide_eq_true in Hb.
Qed.

Lemma candidate_resolvedNode (cfg : Config) (state : ClusterState)
    (metrics : ResourceMetrics) (r : RunnerFull) :
  candidate cfg state metrics r =
  match resolvedNode state r with
  | Some node =>
      if rejected cfg metrics node then []
      else match placeholderFound (ScheduledPlaceholders state) (node_Name node) with
           | Some pod => [pod]
           | None => []
           end
  | None => []
  end.
Proof.
  unfold resolvedNode.
  destruct (decide (GetDomain r = "")) as [Hd|Hd].
  - unfold candidate, scaleDownStep. cbv zeta.
    destruct (decide (GetDomain r = "")); [reflexivity|contradiction].
  - destruct (NodeByIP state !! GetDomain r) as [node|] eqn:E.
    + now apply RunnerManagerSpec.candidate_resolved.
    + unfold candidate, scaleDownStep. cbv zeta.
      destruct (decide (GetDomain r = "")); [reflexivity|]. now rewrite E.
Qed.

Lemma batch_in_scheduled (cfg : Config) (state : ClusterState) (metrics : ResourceMetrics)
    (pod : Pod) :
  In pod (placeholdersToDeleteInBatch cfg state metrics) ->
  In pod (ScheduledPlaceholders state).
Proof.
  unfold placeholdersToDeleteInBatch. rewrite RunnerManagerSpec.scaleDown_fold.
  cbn [app]. rewrite in_concat. intros (c & Hc & Hin).
  apply in_map_iff in Hc as (r & <- & _).
  apply RunnerManagerSpec.candidate_inv in Hin as (node & _ & _ & _ & Hf).
  now apply placeholderFound_Some in Hf.
Qed.

Lemma candidate_length (cfg : Config) (state : ClusterState) (metrics : ResourceMetrics)
    (r : RunnerFull) :
  (length (candidate cfg state metrics r) <= 1)%nat.
Proof.
  rewrite candidate_resolvedNode.
  destruct (resolvedNode state r) as [node|]; [|cbn; lia].
  destruct (rejected cfg metrics node); [cbn; lia|].
  destruct (placeholderFound _ _); cbn; lia.
Qed.

(** X5: [handleScaleDown] first deletes every pending placeholder when
    scale-up is not needed and none when it is, then deletes the batch of
    the scale-down filter; the batch is made of scheduled placeholders
    and has at most one pod per deletable runner.  Returning early when
    there is no deletable runner changes none of this. *)
Theorem scale_down_deletes_pending_then_batch (cfg : Config) (state : ClusterState)
    (metrics : ResourceMetrics) (needsScaleUp : bool) :
  handleScaleDown cfg state metrics needsScaleUp =
    (if needsScaleUp then [] else deletePods (PendingPlaceholders state))
    ++ deletePods (placeholdersToDeleteInBatch cfg state metrics) /\
  (forall pod, In pod (placeholdersToDeleteInBatch cfg state metrics) ->
               In pod (ScheduledPlaceholders state)) /\
  GoInt.len (placeholdersToDeleteInBatch cfg state metrics)
    <= GoInt.len (DeletableRunners state).
Proof.
  split; [apply handleScaleDown_eq|]. split; [apply batch_in_scheduled|].
  unfold placeholdersToDeleteInBatch, GoInt.len. rewrite RunnerManagerSpec.scaleDown_fold.
  cbn [app]. apply Nat2Z.inj_le.
  induction (DeletableRunners state) as [|r l IH]; [cbn; lia|].
  cbn [map concat length]. rewrite length_app.
  pose proof (candidate_length cfg state metrics r). lia.
Qed.

Lemma scale_down_deletes_pending_then_batch_witness :
  let state := stateOf cluster in
  let metrics := calculateResourceMetrics state in
  handleScaleDown (config 80 0 0 0) state metrics false =
    [DeletePod "placeholder-p"; DeletePod "placeholder-c"] /\
  In podOnC (ScheduledPlaceholders state).
Proof.
  cbv zeta.
  destruct (scale_down_deletes_pending_then_batch (config 80 0 0 0) (stateOf cluster)
              (calculateResourceMetrics (stateOf cluster)) false) as (H & Hin & _).
  split; [rewrite H; vm_compute; reflexivity|].
  apply Hin. vm_compute. left. reflexivity.
Defined.

(** X6: when the deletable runners whose domain resolves to a node resolve
    to nodes of different names, the batch of the scale-down filter holds
    at most one placeholder per node, and so no placeholder twice. *)
Theorem scale_down_batch_without_repetition (cfg : Config) (state : ClusterState)
    (metrics : ResourceMetrics) :
  NoDup (map node_Name (omap (resolvedNode state) (DeletableRunners state))) ->
  NoDup (map pod_NodeName (placeholdersToDeleteInBatch cfg state metrics)) /\
  NoDup (placeholdersToDeleteInBatch cfg state metrics).
Proof.
  intros H.
  assert (Hn : NoDup (map pod_NodeName (placeholdersToDeleteInBatch cfg state metrics))).
  { unfold placeholdersToDeleteInBatch. rewrite RunnerManagerSpec.scaleDown_fold.
    cbn [app]. induction (DeletableRunners state) as [|r l IH]; [constructor|].
    cbn [map concat]. rewrite candidate_resolvedNode.
    change (omap (resolvedNode state) (r :: l))
      with (match resolvedNode state r with
            | Some node => node :: omap (resolvedNode state) l
            | None => omap (resolvedNode state) l
            end) in H.
    destruct (resolvedNode state r) as [node|] eqn:E; [|cbn [app]; now apply IH].
    cbn [map] in H. apply NoDup_cons in H as [Hnot Hrest]. specialize (IH Hrest).
    destruct (rejected cfg metrics node); [exact IH|].
    destruct (placeholderFound _ _) as [pod|] eqn:Ef; [|exact IH].
    cbn [app map]. apply NoDup_cons. split; [|exact IH].
    apply placeholderFound_Some in Ef as [_ Hname]. rewrite Hname.
    intros Hin. apply Hnot. clear -Hin.
    apply list_elem_of_In in Hin. apply list_elem_of_In.
    apply in_map_iff in Hin as (pod' & Hp & Hin). apply in_concat in Hin as (c & Hc & Hin).
    apply in_map_iff in Hc as (r' & <- & Hr').
    rewrite candidate_resolvedNode in Hin.
    destruct (resolvedNode state r') as [node'|] eqn:E'; [|destruct Hin].
    destruct (rejected cfg metrics node'); [destruct Hin|].
    destruct (placeholderFound _ _) as [pod''|] eqn:Ef'; [|destruct Hin].
    destruct Hin as [<-|[]]. apply placeholderFound_Some in Ef' as [_ Hname'].
    rewrite <- Hp, Hname'. apply in_map. apply list_elem_of_In.
    apply list_elem_of_omap. exists r'. split; [now apply list_elem_of_In|assumption]. }
  split; [exact Hn|]. now apply NoDup_fmap_1 in Hn.
Qed.

Lemma scale_down_batch_without_repetition_witness :
  let state := stateOf clusterDraining in
  let batch := placeholdersToDeleteInBatch (config 80 0 0 0) state
                 (calculateResourceMetrics state) in
  map node_Name (omap (resolvedNode state) (DeletableRunners state)) = ["node-c"; "node-d"] /\
  batch = [podOnC; podOnD] /\
  NoDup (map pod_NodeName batch) /\ NoDup batch.
Proof.
  cbv zeta.
  assert (Hnames : map node_Name (omap (resolvedNode (stateOf clusterDraining))
                                       (DeletableRunners (stateOf clusterDraining)))
                   = ["node-c"; "node-d"]) by (vm_compute; reflexivity).
  split; [exact Hnames|]. split; [vm_compute; reflexivity|].
  apply (scale_down_batch_without_repetition (config 80 0 0 0) (stateOf clusterDraining)).
  rewrite Hnames. apply NoDup_cons. split.
  - rewrite list_elem_of_singleton. discriminate.
  - apply NoDup_singleton.
Defined.

(** The list of commands of a tick. *)
Lemma tick_eq (cfg : Config) (api : Fetched) (state : ClusterState) :
  gatherClusterState api = Ok state ->
  let metrics := calculateResourceMetrics state in
  let needsScaleUp := scaleUpFires cfg state metrics in
  tick cfg api =
  if needsScaleUp && Z.ltb 0 (nodesToCreate cfg state metrics)
  then createPlaceholderPods (nodesToCreate cfg state metrics)
  else (if needsScaleUp then [] else deletePods (PendingPlaceholders state))
       ++ deletePods (placeholdersToDeleteInBatch cfg state metrics).
Proof.
  intros H. unfold tick, scaleUpFires. rewrite H. cbv zeta.
  destruct (shouldScaleUp _ _ _ _) eqn:E; cbn [andb].
  - unfold handleScaleUp. cbv zeta.
    destruct (Z.ltb 0 (nodesToCreate _ _ _)); [reflexivity|].
    cbn [app]. now rewrite handleScaleDown_eq.
  - cbn [app]. now rewrite handleScaleDown_eq.
Qed.

Lemma deleted_createPlaceholderPods (n : Z) : deleted (createPlaceholderPods n) = [].
Proof.
  unfold createPlaceholderPods. induction (Z.to_nat n) as [|k IH]; [reflexivity|exact IH].
Qed.

Lemma deleted_deletePods (pods : list Pod) : deleted (deletePods pods) = map pod_Name pods.
Proof.
  induction pods as [|pod pods IH]; [reflexivity|]. cbn. f_equal. exact IH.
Qed.

Lemma deleted_app (a b : list Action) : deleted (a ++ b) = deleted a ++ deleted b.
Proof. unfold deleted. apply omap_app. Qed.

(** X7: the commands of a tick.  When scale-up is needed and more nodes
    are needed than placeholders are pending, the tick creates the
    difference and deletes nothing.  Otherwise it creates nothing: it
    deletes the pending placeholders unless scale-up is needed, and then
    the batch of the scale-down filter, also in a tick in which scale-up
    is needed but the pending placeholders cover the need. *)
Theorem tick_scales_up_or_down (cfg : Config) (api : Fetched) (state : ClusterState) :
  gatherClusterState api = Ok state ->
  let metrics := calculateResourceMetrics state in
  let needsScaleUp := scaleUpFires cfg state metrics in
  tick cfg api =
  if needsScaleUp && Z.ltb 0 (nodesToCreate cfg state metrics)
  then repeat CreatePlaceholder (Z.to_nat (nodesToCreate cfg state metrics))
  else map (fun pod => DeletePod (pod_Name pod))
           ((if needsScaleUp then [] else PendingPlaceholders state)
            ++ placeholdersToDeleteInBatch cfg state metrics).
Proof.
  intros H. cbv zeta. rewrite (tick_eq cfg api state H). cbv zeta.
  destruct (scaleUpFires _ _ _ && _); [reflexivity|].
  rewrite map_app. unfold deletePods. now destruct (scaleUpFires _ _ _).
Qed.

Lemma tick_scales_up_or_down_witness :
  tick configS1 clusterS1 = [CreatePlaceholder] /\
  tick (config 80 0 0 0) cluster = [DeletePod "placeholder-p"; DeletePod "placeholder-c"].
Proof.
  split.
  - rewrite (tick_scales_up_or_down configS1 clusterS1 (stateOf clusterS1) eq_refl).
    vm_compute. reflexivity.
  - rewrite (tick_scales_up_or_down (config 80 0 0 0) cluster (stateOf cluster) eq_refl).
    vm_compute. reflexivity.
Defined.



(** X9: every pod that a tick deletes is one of the placeholder pods that
    the tick has listed. *)
Theorem tick_deletes_only_listed_placeholders (cfg : Config) (api : Fetched)
    (name : string) :
  In name (deleted (tick cfg api)) ->
  exists pods pod,
    fetchedPlaceholders api = Ok pods /\ In pod pods /\ pod_Name pod = name.
Proof.
  destruct (gatherClusterState api) as [state|msg] eqn:H;
    [|unfold tick; rewrite H; intros []].
  destruct (gatherClusterState_fields api state H)
    as (runners & pods & nodes & _ & Hp & _ & _ & _ & HP & HS & _).
  rewrite (tick_eq cfg api state H). cbv zeta.
  destruct (scaleUpFires _ _ _ && _);
    [rewrite deleted_createPlaceholderPods; intros []|].
  rewrite deleted_app, !deleted_deletePods, in_app_iff.
  assert (Hpend : In name (map pod_Name (PendingPlaceholders state)) ->
                  exists pods pod, fetchedPlaceholders api = Ok pods /\ In pod pods /\
                                   pod_Name pod = name).
  { intros Hin. apply in_map_iff in Hin as (pod & Hn & Hin).
    rewrite HP in Hin. apply filter_In in Hin as [Hin _]. eauto. }
  intros [Hin|Hin].
  - destruct (scaleUpFires _ _ _); [destruct Hin|].
    rewrite deleted_deletePods in Hin. now apply Hpend.
  - apply in_map_iff in Hin as (pod & Hn & Hin). apply batch_in_scheduled in Hin.
    rewrite HS in Hin. apply filter_In in Hin as [Hin _]. eauto.
Qed.

Lemma tick_deletes_only_listed_placeholders_witness :
  exists pods pod,
    fetchedPlaceholders cluster = Ok pods /\ In pod pods /\ pod_Name pod = "placeholder-c".
Proof.
  apply (tick_deletes_only_listed_placeholders (config 80 0 0 0) cluster "placeholder-c").
  vm_compute. right. left. reflexivity.
Defined.
(** ** Scale-up: how many nodes are asked for *)

Lemma max_ge_l (a b : Z) : a <= GoInt.max a b.
Proof. unfold GoInt.max. destruct (Z.ltb_spec b a); lia. Qed.

Lemma max_ge_r (a b : Z) : b <= GoInt.max a b.
Proof. unfold GoInt.max. destruct (Z.ltb_spec b a); lia. Qed.

Lemma max_mono (a a' b b' : Z) : a <= a' -> b <= b' -> GoInt.max a b <= GoInt.max a' b'.
Proof.
  unfold GoInt.max. intros Ha Hb. destruct (Z.ltb_spec b a), (Z.ltb_spec b' a'); lia.
Qed.

Lemma add_len_id {A B} (l : list A) (k : list B) :
  GoInt.len l + GoInt.len k <= GoInt.max_int ->
  GoInt.add (GoInt.len l) (GoInt.len k) = GoInt.len l + GoInt.len k.
Proof.
  intros H. unfold GoInt.add. apply RunnerManagerSpec.wrap_id.
  pose proof (RunnerManagerSpec.len_nonneg l). pose proof (RunnerManagerSpec.len_nonneg k).
  unfold GoInt.in_range, GoInt.min_int. lia.
Qed.

Lemma sub_id (r total : Z) :
  0 <= total -> total < r -> r <= GoInt.max_int -> GoInt.sub r total = r - total.
Proof.
  intros H0 H1 H2. unfold GoInt.sub. apply RunnerManagerSpec.wrap_id.
  unfold GoInt.in_range, GoInt.min_int, GoInt.max_int in *. lia.
Qed.

(** One deficit block of [handleScaleUp] grows with the minimum. *)
Lemma deficit_step_mono (n n' m m' : Z) (a g : spec_float) :
  F32.valid a = true -> F32.valid g = true -> 0 <= m <= m' -> n <= n' ->
  (F32.ltb a (F32.of_int m') = true -> F32.gtb g F32.zero = true ->
   F64.fits_int (F64.ceil (F64.div (F64.of_f32 (F32.sub (F32.of_int m') a))
                                   (F64.of_f32 g))) = true) ->
  (if F32.ltb a (F32.of_int m) && F32.gtb g F32.zero
   then GoInt.max n (deficitNodes m a g) else n)
  <= (if F32.ltb a (F32.of_int m') && F32.gtb g F32.zero
      then GoInt.max n' (deficitNodes m' a g) else n').
Proof.
  intros Va Vg Hm Hn Hfit.
  destruct (F32.ltb a (F32.of_int m)) eqn:Elow; cbn [andb].
  - rewrite (DeficitFacts.isCpuIdleTooLow_mono a m m' Va Hm Elow) in *. cbn [andb].
    destruct (F32.gtb g F32.zero) eqn:Eg; [|exact Hn].
    apply max_mono; [exact Hn|].
    apply DeficitFacts.deficitNodes_mono; auto.
  - destruct (F32.ltb a (F32.of_int m') && _); [|exact Hn].
    pose proof (max_ge_l n' (deficitNodes m' a g)). lia.
Qed.

(** The runner-buffer block of [handleScaleUp] grows with the minimum. *)
Lemma buffer_step_mono (n n' total r r' : Z) :
  0 <= total -> r <= r' -> r' <= GoInt.max_int -> n <= n' ->
  (if Z.ltb total r then GoInt.max n (GoInt.sub r total) else n)
  <= (if Z.ltb total r' then GoInt.max n' (GoInt.sub r' total) else n').
Proof.
  intros H0 Hr Hr' Hn.
  destruct (Z.ltb_spec total r) as [H|H], (Z.ltb_spec total r') as [H'|H']; try lia.
  - rewrite !sub_id by lia. apply max_mono; lia.
  - pose proof (max_ge_l n' (GoInt.sub r' total)). lia.
Qed.

Lemma utilization_same_limit (metrics : ResourceMetrics) (cfg cfg' : Config) :
  MaxResourceUtilizationPercent cfg' = MaxResourceUtilizationPercent cfg ->
  isUtilizationTooHigh metrics cfg' = isUtilizationTooHigh metrics cfg.
Proof.
  intros H. unfold isUtilizationTooHigh, isCpuUtilizationTooHigh, isMemUtilizationTooHigh.
  now rewrite H.
Qed.

Lemma nodesNeeded_asksNoLess (cfg cfg' : Config) (state : ClusterState)
    (metrics : ResourceMetrics) :
  F32.valid (TotalAvailableCPU metrics) = true ->
  F32.valid (AvgCpuPerNode metrics) = true ->
  F32.valid (TotalAvailableMemoryGiB metrics) = true ->
  F32.valid (AvgMemPerNode metrics) = true ->
  0 <= MinIdleCpu cfg -> 0 <= MinIdleMemory cfg -> MinIdleRunners cfg' <= GoInt.max_int ->
  asksNoLess cfg cfg' ->
  GoInt.len (IdleRunners state) + GoInt.len (NascentNodes state) <= GoInt.max_int ->
  (isCpuIdleTooLow metrics cfg' = true -> F32.gtb (AvgCpuPerNode metrics) F32.zero = true ->
   cpuDeficitFits cfg' metrics = true) ->
  (isMemIdleTooLow metrics cfg' = true -> F32.gtb (AvgMemPerNode metrics) F32.zero = true ->
   memDeficitFits cfg' metrics = true) ->
  nodesNeeded cfg state metrics <= nodesNeeded cfg' state metrics.
Proof.
  intros Vc Vgc Vm Vgm Hc Hm Hr (Hu & Hrr & Hcc & Hmm) Hlen Hfc Hfm.
  unfold nodesNeeded. cbv zeta.
  rewrite (utilization_same_limit metrics cfg cfg' Hu).
  rewrite (add_len_id _ _ Hlen).
  pose proof (RunnerManagerSpec.len_nonneg (IdleRunners state)).
  pose proof (RunnerManagerSpec.len_nonneg (NascentNodes state)).
  apply RunnerManagerSpec.at_least_one_mono. split.
  - match goal with |- 0 <= ?n => enough (R : 0 <= n <= GoInt.max_int) by apply R end.
    repeat (apply RunnerManagerSpec.max_step_range;
            [|apply RunnerManagerSpec.to_int_in_range || apply RunnerManagerSpec.wrap_in_range]).
    unfold GoInt.max_int; lia.
  - apply buffer_step_mono; [lia|assumption|assumption|].
    apply deficit_step_mono; [assumption|assumption|lia| |exact Hfm].
    apply deficit_step_mono; [assumption|assumption|lia|lia|exact Hfc].
Qed.

Lemma scaleUpFires_asksNoLess (cfg cfg' : Config) (state : ClusterState)
    (metrics : ResourceMetrics) :
  F32.valid (TotalAvailableCPU metrics) = true ->
  F32.valid (TotalAvailableMemoryGiB metrics) = true ->
  0 <= MinIdleCpu cfg -> 0 <= MinIdleMemory cfg ->
  asksNoLess cfg cfg' ->
  scaleUpFires cfg state metrics = true -> scaleUpFires cfg' state metrics = true.
Proof.
  intros Vc Vm Hc Hm (Hu & Hrr & Hcc & Hmm).
  unfold scaleUpFires, shouldScaleUp. cbv zeta.
  rewrite (utilization_same_limit metrics cfg cfg' Hu), !orb_true_iff.
  intros [[[H|H]|H]|H]; auto.
  - left. left. right. apply Z.ltb_lt in H. apply Z.ltb_lt. lia.
  - left. right. unfold isCpuIdleTooLow in *.
    apply (DeficitFacts.isCpuIdleTooLow_mono _ (MinIdleCpu cfg)); auto.
  - right. unfold isMemIdleTooLow in *.
    apply (DeficitFacts.isCpuIdleTooLow_mono _ (MinIdleMemory cfg)); auto.
Qed.

(** X10: with the state and the metrics fixed, a configuration that asks
    for at least as many idle runners, as much idle CPU and as much idle
    memory as another one, with the same utilization limit, needs at least
    as many nodes, makes scale-up fire whenever the other one does, and
    makes the tick create at least as many placeholder pods.  The
    availabilities and averages are valid [float32] values, the minima are
    not negative, and the two deficits in nodes at the larger minima fit
    an [int]. *)
Theorem scale_up_grows_with_every_minimum (cfg cfg' : Config) (state : ClusterState)
    (metrics : ResourceMetrics) :
  F32.valid (TotalAvailableCPU metrics) = true ->
  F32.valid (AvgCpuPerNode metrics) = true ->
  F32.valid (TotalAvailableMemoryGiB metrics) = true ->
  F32.valid (AvgMemPerNode metrics) = true ->
  0 <= MinIdleCpu cfg -> 0 <= MinIdleMemory cfg -> MinIdleRunners cfg' <= GoInt.max_int ->
  asksNoLess cfg cfg' ->
  GoInt.len (IdleRunners state) + GoInt.len (NascentNodes state) <= GoInt.max_int ->
  GoInt.len (PendingPlaceholders state) <= GoInt.max_int ->
  (isCpuIdleTooLow metrics cfg' = true -> F32.gtb (AvgCpuPerNode metrics) F32.zero = true ->
   cpuDeficitFits cfg' metrics = true) ->
  (isMemIdleTooLow metrics cfg' = true -> F32.gtb (AvgMemPerNode metrics) F32.zero = true ->
   memDeficitFits cfg' metrics = true) ->
  nodesNeeded cfg state metrics <= nodesNeeded cfg' state metrics /\
  (scaleUpFires cfg state metrics = true -> scaleUpFires cfg' state metrics = true) /\
  podsCreated cfg state metrics <= podsCreated cfg' state metrics.
Proof.
  intros Vc Vgc Vm Vgm Hc Hm Hr Hle Hlen Hpend Hfc Hfm.
  pose proof (nodesNeeded_asksNoLess cfg cfg' state metrics Vc Vgc Vm Vgm Hc Hm Hr Hle
                Hlen Hfc Hfm) as Hneeded.
  pose proof (scaleUpFires_asksNoLess cfg cfg' state metrics Vc Vm Hc Hm Hle) as Hfires.
  split; [exact Hneeded|]. split; [exact Hfires|].
  unfold podsCreated.
  rewrite (RunnerManagerSpec.placeholder_accounting_eq cfg state metrics Hpend).
  rewrite (RunnerManagerSpec.placeholder_accounting_eq cfg' state metrics Hpend).
  destruct (scaleUpFires cfg state metrics) eqn:E.
  - rewrite (Hfires eq_refl). lia.
  - destruct (scaleUpFires cfg' state metrics); lia.
Qed.

Lemma scale_up_grows_with_every_minimum_witness :
  let state := stateOf clusterS1 in
  let metrics := calculateResourceMetrics state in
  podsCreated (config 80 0 4 8) state metrics <= podsCreated (config 80 2 16 32) state metrics.
Proof.
  cbn zeta.
  apply (scale_up_grows_with_every_minimum (config 80 0 4 8) (config 80 2 16 32)
           (stateOf clusterS1) (calculateResourceMetrics (stateOf clusterS1))).
  - vm_compute. reflexivity.
  - vm_compute. reflexivity.
  - vm_compute. reflexivity.
  - vm_compute. reflexivity.
  - vm_compute. discriminate.
  - vm_compute. discriminate.
  - vm_compute. discriminate.
  - unfold asksNoLess. cbn. lia.
  - vm_compute. discriminate.
  - vm_compute. discriminate.
  - intros _ _. vm_compute. reflexivity.
  - intros _ _. vm_compute. reflexivity.
Defined.

Lemma nodesNeeded_ge_buffer (cfg : Config) (state : ClusterState)
    (metrics : ResourceMetrics) :
  let total := GoInt.add (GoInt.len (IdleRunners state)) (GoInt.len (NascentNodes state)) in
  Z.ltb total (MinIdleRunners cfg) = true ->
  GoInt.sub (MinIdleRunners cfg) total <= nodesNeeded cfg state metrics.
Proof.
  cbv zeta. intros Hlow. unfold nodesNeeded. cbv zeta. rewrite Hlow.
  match goal with
  | |- _ <= (if _ && Z.eqb (GoInt.max ?n ?d) 0 then _ else _) =>
      pose proof (max_ge_r n d) as Hd;
      destruct (_ && Z.eqb (GoInt.max n d) 0) eqn:E; [|exact Hd];
      apply andb_true_iff in E as [_ E]; apply Z.eqb_eq in E; rewrite E in Hd; lia
  end.
Qed.

(** X11: when fewer runners are idle or nascent than [MinIdleRunners],
    [handleScaleUp] creates enough placeholders to close the gap: the idle
    runners, the nascent nodes, the pending placeholders and the
    placeholders just created are together at least [MinIdleRunners]. *)
Theorem scale_up_refills_the_runner_buffer (cfg : Config) (state : ClusterState)
    (metrics : ResourceMetrics) :
  MinIdleRunners cfg <= GoInt.max_int ->
  GoInt.len (IdleRunners state) + GoInt.len (NascentNodes state) <= GoInt.max_int ->
  GoInt.len (PendingPlaceholders state) <= GoInt.max_int ->
  GoInt.len (IdleRunners state) + GoInt.len (NascentNodes state) < MinIdleRunners cfg ->
  MinIdleRunners cfg <=
    GoInt.len (IdleRunners state) + GoInt.len (NascentNodes state)
    + GoInt.len (PendingPlaceholders state)
    + created (snd (handleScaleUp cfg state metrics)).
Proof.
  intros Hr Hlen Hpend Hlow.
  pose proof (RunnerManagerSpec.len_nonneg (IdleRunners state)).
  pose proof (RunnerManagerSpec.len_nonneg (NascentNodes state)).
  pose proof (nodesNeeded_ge_buffer cfg state metrics) as Hge. cbv zeta in Hge.
  rewrite (add_len_id _ _ Hlen) in Hge.
  rewrite sub_id in Hge by lia.
  specialize (Hge ltac:(apply Z.ltb_lt; lia)).
  rewrite RunnerManagerSpec.created_handleScaleUp.
  rewrite (RunnerManagerSpec.placeholder_accounting_eq cfg state metrics Hpend). lia.
Qed.

Lemma scale_up_refills_the_runner_buffer_witness :
  let state := stateOf clusterInFlight in
  let metrics := calculateResourceMetrics state in
  8 <= 1 + 0 + 5 + created (snd (handleScaleUp (config 80 8 0 0) state metrics)).
Proof.
  cbn zeta.
  apply (scale_up_refills_the_runner_buffer (config 80 8 0 0) (stateOf clusterInFlight)
           (calculateResourceMetrics (stateOf clusterInFlight))).
  - vm_compute. discriminate.
  - vm_compute. discriminate.
  - vm_compute. discriminate.
  - vm_compute. reflexivity.
Defined.

(** X12: when utilization is too high at least one node is needed, so
    with no placeholder pending [handleScaleUp] creates as many
    placeholders as nodes are needed, at least one. *)
Theorem high_utilization_adds_a_node (cfg : Config) (state : ClusterState)
    (metrics : ResourceMetrics) :
  isUtilizationTooHigh metrics cfg = true ->
  1 <= nodesNeeded cfg state metrics /\
  (PendingPlaceholders state = [] ->
   handleScaleUp cfg state metrics =
   (true, repeat CreatePlaceholder (Z.to_nat (nodesNeeded cfg state metrics)))).
Proof.
  intros Hu.
  assert (H1 : 1 <= nodesNeeded cfg state metrics).
  { pose proof (RunnerManagerSpec.nodesNeeded_range cfg state metrics) as Hrange.
    enough (nodesNeeded cfg state metrics <> 0) by lia.
    unfold nodesNeeded. cbv zeta. rewrite Hu. cbn [andb].
    match goal with
    | |- (if Z.eqb ?n 0 then _ else _) <> 0 =>
        destruct (Z.eqb_spec n 0); [discriminate|assumption]
    end. }
  split; [exact H1|]. intros Hp.
  assert (Hc : nodesToCreate cfg state metrics = nodesNeeded cfg state metrics).
  { rewrite RunnerManagerSpec.placeholder_accounting_eq
      by (rewrite Hp; vm_compute; discriminate).
    rewrite Hp. change (GoInt.len (@nil Pod)) with 0. lia. }
  unfold handleScaleUp. cbv zeta. rewrite Hc.
  destruct (Z.ltb_spec 0 (nodesNeeded cfg state metrics)); [reflexivity|lia].
Qed.

Lemma high_utilization_adds_a_node_witness :
  let state := stateOf clusterBusy in
  handleScaleUp (config 30 0 0 0) state (calculateResourceMetrics state)
  = (true, [CreatePlaceholder]).
Proof.
  cbv zeta.
  destruct (high_utilization_adds_a_node (config 30 0 0 0) (stateOf clusterBusy)
              (calculateResourceMetrics (stateOf clusterBusy))) as [_ H].
  - vm_compute. reflexivity.
  - rewrite H by reflexivity. vm_compute. reflexivity.
Defined.
(** ** calculateResourceMetrics and getNodeAllocatableResources *)

Lemma allocated_fold (l : list RunnerFull) : forall cpu mem,
  fold_left allocatedStep l (cpu, mem) =
  (fsum cpu (omap GetCurrentAllocatedCpuOk l), fsum mem (omap GetCurrentAllocatedMemoryGiBOk l)).
Proof.
  induction l as [|r l IH]; intros cpu mem; [reflexivity|].
  cbn [fold_left]. unfold allocatedStep at 2.
  change (omap GetCurrentAllocatedCpuOk (r :: l))
    with (match GetCurrentAllocatedCpuOk r with
          | Some x => x :: omap GetCurrentAllocatedCpuOk l
          | None => omap GetCurrentAllocatedCpuOk l
          end).
  change (omap GetCurrentAllocatedMemoryGiBOk (r :: l))
    with (match GetCurrentAllocatedMemoryGiBOk r with
          | Some x => x :: omap GetCurrentAllocatedMemoryGiBOk l
          | None => omap GetCurrentAllocatedMemoryGiBOk l
          end).
  rewrite IH.
  destruct (GetCurrentAllocatedCpuOk r), (GetCurrentAllocatedMemoryGiBOk r); reflexivity.
Qed.

Lemma metrics_fields (state : ClusterState) :
  let metrics := calculateResourceMetrics state in
  TotalAllocatedCPU metrics =
    fsum F32.zero (omap GetCurrentAllocatedCpuOk (ActiveRunners state)) /\
  TotalAllocatedMemoryGiB metrics =
    fsum F32.zero (omap GetCurrentAllocatedMemoryGiBOk (ActiveRunners state)) /\
  TotalAvailableCPU metrics = F32.sub (TotalCPUCapacity metrics) (TotalAllocatedCPU metrics) /\
  TotalAvailableMemoryGiB metrics =
    F32.sub (TotalMemoryGiBCapacity metrics) (TotalAllocatedMemoryGiB metrics) /\
  AvgCpuPerNode metrics =
    (if Z.ltb 0 (schedulableNodeCount (Nodes state))
     then F32.div (TotalCPUCapacity metrics) (F32.of_int (schedulableNodeCount (Nodes state)))
     else F32.zero) /\
  AvgMemPerNode metrics =
    (if Z.ltb 0 (schedulableNodeCount (Nodes state))
     then F32.div (TotalMemoryGiBCapacity metrics)
                  (F32.of_int (schedulableNodeCount (Nodes state)))
     else F32.zero).
Proof.
  cbv zeta. unfold calculateResourceMetrics.
  destruct (fold_left (runnerCapacityStep _) _ _) as [[cpu mem] seen].
  destruct (fold_left (nodeCapacityStep seen) _ _) as [cpu' mem'].
  rewrite allocated_fold.
  cbn [TotalAllocatedCPU TotalAllocatedMemoryGiB TotalAvailableCPU TotalAvailableMemoryGiB
       TotalCPUCapacity TotalMemoryGiBCapacity AvgCpuPerNode AvgMemPerNode].
  repeat split; reflexivity.
Qed.

(** X13: the allocated totals are the accumulation, over the active
    runners only and in their order, of the allocated CPU and memory that
    the runner reports, a runner that does not report a value adding
    nothing; the available totals are capacity minus allocation.  After a
    successful gathering no positive allocation is left out: every listed
    runner that reports allocated CPU or memory above 0 is active. *)
Theorem allocation_is_summed_over_active_runners (state : ClusterState) :
  let metrics := calculateResourceMetrics state in
  TotalAllocatedCPU metrics =
    fsum F32.zero (omap GetCurrentAllocatedCpuOk (ActiveRunners state)) /\
  TotalAllocatedMemoryGiB metrics =
    fsum F32.zero (omap GetCurrentAllocatedMemoryGiBOk (ActiveRunners state)) /\
  TotalAvailableCPU metrics = F32.sub (TotalCPUCapacity metrics) (TotalAllocatedCPU metrics) /\
  TotalAvailableMemoryGiB metrics =
    F32.sub (TotalMemoryGiBCapacity metrics) (TotalAllocatedMemoryGiB metrics) /\
  (forall api r,
     gatherClusterState api = Ok state -> In r (Runners state) ->
     F32.gtb (GetCurrentAllocatedCpu r) F32.zero = true
     \/ F32.gtb (GetCurrentAllocatedMemoryGiB r) F32.zero = true ->
     In r (ActiveRunners state)).
Proof.
  cbv zeta. destruct (metrics_fields state) as (H1 & H2 & H3 & H4 & _).
  split; [exact H1|]. split; [exact H2|]. split; [exact H3|]. split; [exact H4|].
  intros api r Hg Hin Hpos. rewrite (gathered_active api state Hg).
  apply filter_In. split; [exact Hin|].
  unfold isAllocated. destruct Hpos as [-> | ->]; [reflexivity|].
  now rewrite orb_true_r.
Qed.

Lemma allocation_is_summed_over_active_runners_witness :
  In runnerActive (ActiveRunners (stateOf cluster)).
Proof.
  destruct (allocation_is_summed_over_active_runners (stateOf cluster))
    as (_ & _ & _ & _ & H).
  apply (H cluster runnerActive eq_refl).
  - vm_compute. right. left. reflexivity.
  - left. vm_compute. reflexivity.
Defined.

Lemma schedulableNodeCount_none (nodes : list Node) :
  (forall node, In node nodes -> node_Unschedulable node = true) ->
  schedulableNodeCount nodes = 0.
Proof.
  unfold schedulableNodeCount. intros H.
  enough (Hz : forall z,
            fold_left (fun n node => if node_Unschedulable node then n else GoInt.add n 1)
                      nodes z = z) by apply Hz.
  induction nodes as [|n l IH]; intros z; [reflexivity|].
  cbn [fold_left]. rewrite (H n) by now left. apply IH. intros node Hin. apply H. now right.
Qed.

(** X14: when no node of the pool is schedulable the two averages are 0,
    and then a shortage of idle CPU or memory asks for no node: the nodes
    needed are those of the runner buffer, or the single node of a too
    high utilization, whatever [MinIdleCpu] and [MinIdleMemory] are.  So
    when moreover the runner buffer is full and utilization is not too
    high, [handleScaleUp] creates nothing. *)
Theorem no_schedulable_node_no_deficit_scaling (cfg : Config) (state : ClusterState) :
  (forall node, In node (Nodes state) -> node_Unschedulable node = true) ->
  let metrics := calculateResourceMetrics state in
  let total := GoInt.add (GoInt.len (IdleRunners state)) (GoInt.len (NascentNodes state)) in
  AvgCpuPerNode metrics = F32.zero /\ AvgMemPerNode metrics = F32.zero /\
  nodesNeeded cfg state metrics =
    (let n := if Z.ltb total (MinIdleRunners cfg)
              then GoInt.max 0 (GoInt.sub (MinIdleRunners cfg) total) else 0 in
     if isUtilizationTooHigh metrics cfg && Z.eqb n 0 then 1 else n) /\
  (GoInt.len (PendingPlaceholders state) <= GoInt.max_int ->
   isUtilizationTooHigh metrics cfg = false -> MinIdleRunners cfg <= total ->
   handleScaleUp cfg state metrics = (false, [])).
Proof.
  intros Hnone. cbv zeta.
  destruct (metrics_fields state) as (_ & _ & _ & _ & Hc & Hm). cbv zeta in Hc, Hm.
  rewrite (schedulableNodeCount_none _ Hnone) in Hc, Hm.
  change (Z.ltb 0 0) with false in Hc, Hm. cbv iota in Hc, Hm.
  assert (Hneeded : nodesNeeded cfg state (calculateResourceMetrics state) =
    (let n := if Z.ltb (GoInt.add (GoInt.len (IdleRunners state))
                                  (GoInt.len (NascentNodes state))) (MinIdleRunners cfg)
              then GoInt.max 0 (GoInt.sub (MinIdleRunners cfg)
                     (GoInt.add (GoInt.len (IdleRunners state))
                                (GoInt.len (NascentNodes state)))) else 0 in
     if isUtilizationTooHigh (calculateResourceMetrics state) cfg && Z.eqb n 0
     then 1 else n)).
  { unfold nodesNeeded. cbv zeta. rewrite Hc, Hm.
    change (F32.gtb F32.zero F32.zero) with false. rewrite !andb_false_r. reflexivity. }
  split; [exact Hc|]. split; [exact Hm|]. split; [exact Hneeded|].
  intros Hpend Hu Hfull.
  pose proof (RunnerManagerSpec.len_nonneg (PendingPlaceholders state)) as Hp.
  unfold handleScaleUp. cbv zeta.
  rewrite (RunnerManagerSpec.placeholder_accounting_eq _ _ _ Hpend), Hneeded. cbv zeta.
  rewrite Hu. cbn [andb].
  destruct (Z.ltb_spec (GoInt.add (GoInt.len (IdleRunners state))
                                  (GoInt.len (NascentNodes state))) (MinIdleRunners cfg));
    [lia|].
  destruct (Z.ltb_spec 0 (0 - GoInt.len (PendingPlaceholders state))); [lia|reflexivity].
Qed.

Lemma no_schedulable_node_no_deficit_scaling_witness :
  let state := stateOf clusterEmpty in
  let metrics := calculateResourceMetrics state in
  scaleUpFires configS1 state metrics = true /\
  handleScaleUp configS1 state metrics = (false, []).
Proof.
  cbv zeta. split; [vm_compute; reflexivity|].
  destruct (no_schedulable_node_no_deficit_scaling configS1 (stateOf clusterEmpty))
    as (_ & _ & _ & H).
  - intros node [].
  - cbv zeta in H. apply H.
    + vm_compute. discriminate.
    + vm_compute. reflexivity.
    + vm_compute. discriminate.
Defined.

(** The quotient of a non-negative [int] by a positive constant is a
    number that is not negative, and grows with the [int]. *)
Lemma div_of_int_mono (m m' d : Z) :
  0 <= m <= m' -> 0 <= d ->
  Rounding.is_finite (F32.div (F32.of_int m') (F32.of_int d)) = true ->
  Rounding.good F32.prec F32.emax (F32.div (F32.of_int m) (F32.of_int d)) /\
  Rounding.good F32.prec F32.emax (F32.div (F32.of_int m') (F32.of_int d)) /\
  SFleb (F32.div (F32.of_int m) (F32.of_int d)) (F32.div (F32.of_int m') (F32.of_int d)) = true.
Proof.
  intros Hm Hd Hfin. destruct DeficitFacts.prec32 as [P1 P2].
  apply (RoundingFacts.SFdiv_mono _ _ P1 P2).
  - apply DeficitFacts.of_int_good. lia.
  - apply DeficitFacts.of_int_good. lia.
  - apply DeficitFacts.of_int_good. lia.
  - apply DeficitFacts.of_int_mono. lia.
  - exact Hfin.
Qed.

Lemma div_of_int_good (m d : Z) :
  0 <= m <= GoInt.max_int -> 0 <= d ->
  Rounding.is_finite (F32.div (F32.of_int GoInt.max_int) (F32.of_int d)) = true ->
  Rounding.good F32.prec F32.emax (F32.div (F32.of_int m) (F32.of_int d)) /\
  Rounding.is_finite (F32.div (F32.of_int m) (F32.of_int d)) = true.
Proof.
  intros Hm Hd Hfin. destruct DeficitFacts.prec32 as [P1 P2].
  destruct (div_of_int_mono m GoInt.max_int d Hm Hd Hfin) as (G & G' & Hle).
  split; [exact G|].
  apply (RoundingFacts.good_leb_finite _ _ P1 P2 _ _ G G' Hle Hfin).
Qed.

Lemma good_not_nan (x : spec_float) :
  Rounding.good F32.prec F32.emax x -> F32.is_nan x = false /\ F32.geb x F32.zero = true.
Proof.
  intros G. destruct DeficitFacts.prec32 as [P1 P2]. split.
  - destruct x; try reflexivity. destruct G.
  - unfold F32.geb, F32.zero.
    apply (RoundingFacts.fkey_leb _ _ P1 P2 _ _ (RoundingFacts.good_zero _ _) G).
    apply (RoundingFacts.fkey_nonneg _ _ P1 P2). exact G.
Qed.

(** X15: for a node whose allocatable CPU and memory are not negative,
    [getNodeAllocatableResources] reports numbers that are not negative
    (never NaN, never infinite), and a node with at least as much
    allocatable CPU, or memory, as another one is reported with at least
    as many cores, or GiB. *)
Theorem allocatable_resources_grow_with_the_quantity (node node' : Node) :
  (0 <= cpuMilli node <= cpuMilli node' -> cpuMilli node' <= GoInt.max_int ->
   F32.is_nan (nodeCpu node) = false /\ F32.geb (nodeCpu node) F32.zero = true /\
   Rounding.is_finite (nodeCpu node) = true /\
   F32.geb (nodeCpu node') (nodeCpu node) = true) /\
  (0 <= memoryBytes node <= memoryBytes node' -> memoryBytes node' <= GoInt.max_int ->
   F32.is_nan (nodeMem node) = false /\ F32.geb (nodeMem node) F32.zero = true /\
   Rounding.is_finite (nodeMem node) = true /\
   F32.geb (nodeMem node') (nodeMem node) = true).
Proof.
  unfold nodeCpu, nodeMem, getNodeAllocatableResources, cpuMilli, memoryBytes.
  cbv zeta. cbn [fst snd].
  split; intros Hm Hmax.
  - assert (Hfin : Rounding.is_finite
                     (F32.div (F32.of_int GoInt.max_int) (F32.of_int 1000)) = true)
      by (vm_compute; reflexivity).
    destruct (div_of_int_good _ 1000 ltac:(split; [apply Hm|lia]) ltac:(lia) Hfin)
      as [G F].
    destruct (div_of_int_good _ 1000 ltac:(split; [|apply Hmax]; lia) ltac:(lia) Hfin)
      as [G' F'].
    destruct (div_of_int_mono _ _ 1000 Hm ltac:(lia) F') as (_ & _ & Hle).
    destruct (good_not_nan _ G) as [Hn Hz]. repeat split; assumption.
  - assert (Hfin : Rounding.is_finite
                     (F32.div (F32.of_int GoInt.max_int)
                              (F32.of_int (1024 * 1024 * 1024))) = true)
      by (vm_compute; reflexivity).
    destruct (div_of_int_good _ (1024 * 1024 * 1024) ltac:(split; [apply Hm|lia])
                ltac:(lia) Hfin) as [G F].
    destruct (div_of_int_good _ (1024 * 1024 * 1024) ltac:(split; [|apply Hmax]; lia)
                ltac:(lia) Hfin) as [G' F'].
    destruct (div_of_int_mono _ _ (1024 * 1024 * 1024) Hm ltac:(lia) F') as (_ & _ & Hle).
    destruct (good_not_nan _ G) as [Hn Hz]. repeat split; assumption.
Qed.

Lemma allocatable_resources_grow_with_the_quantity_witness :
  F32.geb (nodeCpu nodeA) (nodeCpu (bareNode "node-e" "10.0.0.5")) = true /\
  F32.geb (nodeMem nodeA) (nodeMem (bareNode "node-e" "10.0.0.5")) = true.
Proof.
  destruct (allocatable_resources_grow_with_the_quantity (bareNode "node-e" "10.0.0.5") nodeA)
    as [Hc Hm].
  split.
  - apply Hc; vm_compute; [split|]; discriminate.
  - apply Hm; vm_compute; [split|]; discriminate.
Defined.
(** ** loadConfig *)

Lemma Getenv_insert_empty (env : gmap string string) (key x : string) :
  Getenv (<[key := ""]> env) x = Getenv (delete key env) x.
Proof.
  unfold Getenv. destruct (decide (key = x)) as [->|Hne].
  - now rewrite lookup_insert_eq, lookup_delete_eq.
  - now rewrite lookup_insert_ne, lookup_delete_ne.
Qed.

Lemma loadConfig_Getenv (Atoi : string -> result Z) (env env' : gmap string string) :
  (forall x, Getenv env x = Getenv env' x) -> loadConfig Atoi env = loadConfig Atoi env'.
Proof. intros H. unfold loadConfig. rewrite !H. reflexivity. Qed.

Lemma loadConfig_describes (Atoi : string -> result Z) (env : gmap string string)
    (cfg : LoadedConfig) :
  loadConfig Atoi env = Ok cfg -> describes Atoi env cfg.
Proof.
  unfold loadConfig. cbv zeta.
  repeat match goal with
  | |- (if decide (?x = "") then _ else _) = _ -> _ =>
      destruct (decide (x = "")); [discriminate|]
  | |- match Atoi ?s with _ => _ end = _ -> _ =>
      let E := fresh "E" in destruct (Atoi s) eqn:E; [|discriminate]
  | |- (if ?b then Err _ else _) = _ -> _ =>
      let E := fresh "B" in destruct b eqn:E; [discriminate|]
  end.
  intros [= <-]. unfold describes, validLimits.
  cbn [APIPort DaytonaAPIURL DaytonaAPIKey ProviderNamespace RegionID limits
       MaxResourceUtilizationPercent MinIdleRunners MinIdleCpu MinIdleMemory].
  apply orb_false_iff in B as [B B'].
  repeat match goal with H : Z.ltb _ _ = false |- _ => apply Z.ltb_ge in H end.
  repeat split; try assumption; try reflexivity; lia.
Qed.

Lemma describes_loadConfig (Atoi : string -> result Z) (env : gmap string string)
    (cfg : LoadedConfig) :
  describes Atoi env cfg -> loadConfig Atoi env = Ok cfg.
Proof.
  destruct cfg as [a b c d e [mu mr mc mm]]. unfold describes, validLimits.
  cbn [APIPort DaytonaAPIURL DaytonaAPIKey ProviderNamespace RegionID limits
       MaxResourceUtilizationPercent MinIdleRunners MinIdleCpu MinIdleMemory].
  intros ((-> & Ha) & (-> & Hb) & (-> & Hc) & (-> & Hd) & (-> & He)
          & (Hu & Eu) & (Hr & Er) & (Hcc & Ec) & (Hmm & Em) & Hv1 & Hv2 & Hv3 & Hv4).
  unfold loadConfig. cbv zeta.
  repeat match goal with
  | |- (if decide (?x = "") then _ else _) = _ =>
      destruct (decide (x = "")); [contradiction|]
  end.
  rewrite Eu.
  replace (Z.ltb mu 0 || Z.ltb 100 mu) with false
    by (symmetry; apply orb_false_iff; split; apply Z.ltb_ge; lia).
  destruct (decide (Getenv env "MIN_IDLE_RUNNERS" = "")); [contradiction|]. rewrite Er.
  replace (Z.ltb mr 0) with false by (symmetry; apply Z.ltb_ge; lia).
  destruct (decide (Getenv env "MIN_IDLE_CPU" = "")); [contradiction|]. rewrite Ec.
  replace (Z.ltb mc 0) with false by (symmetry; apply Z.ltb_ge; lia).
  destruct (decide (Getenv env "MIN_IDLE_MEMORY" = "")); [contradiction|]. rewrite Em.
  replace (Z.ltb mm 0) with false by (symmetry; apply Z.ltb_ge; lia).
  reflexivity.
Qed.

(** X16: [loadConfig] returns a configuration exactly when each of the
    nine variables is set to a non-empty value, the four numbers parse,
    the utilization limit is between 0 and 100 and the three minima are
    not negative; the configuration then holds the five strings as they
    are in the environment and the four parsed numbers. *)
Theorem loadConfig_accepts_complete_valid_settings (Atoi : string -> result Z)
    (env : gmap string string) (cfg : LoadedConfig) :
  loadConfig Atoi env = Ok cfg <-> describes Atoi env cfg.
Proof. split; [apply loadConfig_describes|apply describes_loadConfig]. Qed.

Lemma loadConfig_accepts_complete_valid_settings_witness :
  exists cfg, loadConfig atoi0 env0 = Ok cfg /\ limits cfg = config 80 1 16 32 /\
              validLimits (limits cfg).
Proof.
  eexists. split; [vm_compute; reflexivity|]. split; [reflexivity|].
  eapply (proj1 (loadConfig_accepts_complete_valid_settings atoi0 env0 _)).
  vm_compute. reflexivity.
Defined.

(** X17: [loadConfig] has no default values: it fails as soon as one of
    the nine variables is not set, or is set to the empty string, whatever
    the other variables hold. *)
Theorem loadConfig_has_no_defaults (Atoi : string -> result Z) (env : gmap string string)
    (key : string) :
  In key requiredVariables ->
  env !! key = None \/ env !! key = Some "" ->
  exists msg, loadConfig Atoi env = Err msg.
Proof.
  intros Hkey Hmiss.
  assert (Hg : Getenv env key = "") by (unfold Getenv; destruct Hmiss as [-> | ->]; reflexivity).
  destruct (loadConfig Atoi env) as [cfg|msg] eqn:E; [|eauto].
  apply loadConfig_describes in E.
  destruct E as ((E1 & N1) & (E2 & N2) & (E3 & N3) & (E4 & N4) & (E5 & N5)
                 & (N6 & _) & (N7 & _) & (N8 & _) & (N9 & _) & _).
  rewrite E1 in N1. rewrite E2 in N2. rewrite E3 in N3. rewrite E4 in N4. rewrite E5 in N5.
  unfold requiredVariables in Hkey. cbn [In] in Hkey.
  repeat (destruct Hkey as [<-|Hkey]; [contradiction|]). destruct Hkey.
Qed.

Lemma loadConfig_has_no_defaults_witness :
  exists msg, loadConfig atoi0 (delete "REGION_ID" env0) = Err msg.
Proof.
  apply (loadConfig_has_no_defaults atoi0 (delete "REGION_ID" env0) "REGION_ID").
  - vm_compute. tauto.
  - left. vm_compute. reflexivity.
Defined.

(** ** generateRandomString *)

Lemma get_Some_lt (s : string) : forall n,
  (n < String.length s)%nat -> exists c, String.get n s = Some c.
Proof.
  induction s as [|a s IH]; intros n Hn; [cbn in Hn; lia|].
  destruct n as [|n]; [cbn; eauto|]. cbn [String.get]. apply IH. cbn in Hn. lia.
Qed.

Lemma get_In (s : string) : forall n c,
  String.get n s = Some c -> In c (String.list_ascii_of_string s).
Proof.
  induction s as [|a s IH]; intros n c; [discriminate|].
  destruct n as [|n]; cbn [String.get String.list_ascii_of_string].
  - intros [= ->]. now left.
  - intros H. right. now apply (IH n).
Qed.

Lemma charsetByte_Some (now : Z) :
  0 <= now ->
  exists c, charsetByte now = Some c /\
            String.get (Z.to_nat (now mod 36)) charset = Some c /\
            In c (String.list_ascii_of_string charset).
Proof.
  intros H. unfold charsetByte. cbv zeta.
  change (Z.of_nat (String.length charset)) with 36.
  rewrite Z.rem_mod_nonneg by lia.
  pose proof (Z.mod_pos_bound now 36 ltac:(lia)) as Hb.
  destruct (Z.ltb_spec (now mod 36) 0); [lia|].
  destruct (get_Some_lt charset (Z.to_nat (now mod 36))) as [c Hc].
  { change (String.length charset) with 36%nat. lia. }
  exists c. split; [exact Hc|]. split; [exact Hc|]. now apply get_In in Hc.
Qed.

Lemma append_empty (s : string) : s +:+ "" = s.
Proof.
  induction s as [|a s IH]; [reflexivity|].
  change (String a (s +:+ "") = String a s). now rewrite IH.
Qed.

Lemma append_byte (s t : string) (c : Ascii.ascii) :
  (s +:+ String c EmptyString) +:+ t = s +:+ String c t.
Proof.
  induction s as [|a s IH]; [reflexivity|].
  change (String a ((s +:+ String c EmptyString) +:+ t) = String a (s +:+ String c t)).
  now rewrite IH.
Qed.

Lemma writeBytes_spec (clock : nat -> Z) (n : nat) : forall i result,
  (forall j, (i <= j < i + n)%nat -> 0 <= clock j) ->
  exists s,
    writeBytes clock i n result = Some (result +:+ s) /\
    String.length s = n /\
    Forall (fun c => In c (String.list_ascii_of_string charset))
           (String.list_ascii_of_string s).
Proof.
  induction n as [|n IH]; intros i result Hclock.
  - exists "". cbn [writeBytes]. rewrite append_empty.
    split; [reflexivity|]. split; [reflexivity|constructor].
  - cbn [writeBytes].
    destruct (charsetByte_Some (clock i)) as (c & Hc & _ & Hin); [apply Hclock; lia|].
    rewrite Hc.
    destruct (IH (S i) (result +:+ String c EmptyString)) as (s & Hs & Hl & Hall).
    { intros j Hj. apply Hclock. lia. }
    exists (String c s). split; [|split].
    + rewrite Hs. now rewrite append_byte.
    + cbn [String.length]. now rewrite Hl.
    + cbn [String.list_ascii_of_string]. now constructor.
Qed.

Lemma charsetByte_negative (now : Z) :
  now < 0 -> Z.rem now 36 <> 0 -> charsetByte now = None.
Proof.
  intros Hn Hr. unfold charsetByte. cbv zeta.
  change (Z.of_nat (String.length charset)) with 36.
  pose proof (Z.rem_nonpos now 36 ltac:(lia) ltac:(lia)).
  destruct (Z.ltb_spec (Z.rem now 36) 0); [reflexivity|lia].
Qed.

(** X18: when the clock does not read a time before 1970,
    [generateRandomString] returns a string of exactly [length] bytes
    ([length] counted as 0 when negative), each of them a lower-case
    letter or a digit of [charset].  With a first reading before 1970
    that is not a multiple of 36 nanoseconds, a call for at least one
    byte panics on the negative index. *)
Theorem random_string_length_and_alphabet (clock : nat -> Z) (length : Z) :
  ((forall i, (i < Z.to_nat length)%nat -> 0 <= clock i) ->
   exists s,
     generateRandomString clock length = Some s /\
     String.length s = Z.to_nat length /\
     Forall (fun c => In c (String.list_ascii_of_string charset))
            (String.list_ascii_of_string s)) /\
  (0 < length -> clock 0%nat < 0 -> Z.rem (clock 0%nat) 36 <> 0 ->
   generateRandomString clock length = None).
Proof.
  unfold generateRandomString. split.
  - intros H.
    destruct (writeBytes_spec clock (Z.to_nat length) 0 "") as (s & Hs & Hl & Hall).
    { intros j Hj. apply H. lia. }
    exists s. repeat split; assumption.
  - intros Hl Hn Hr. destruct (Z.to_nat length) as [|n] eqn:E; [lia|].
    cbn [writeBytes]. now rewrite (charsetByte_negative _ Hn Hr).
Qed.

Lemma random_string_length_and_alphabet_witness :
  exists s, generateRandomString clock0 8 = Some s /\ String.length s = 8%nat.
Proof.
  destruct (random_string_length_and_alphabet clock0 8) as [H _].
  destruct H as (s & Hs & Hl & _).
  - intros i _. unfold clock0. lia.
  - exists s. split; assumption.
Defined.
(** ** Scale-up and scale-down against the conditions *)

(** X19: [handleScaleUp] would create nothing in a tick in which
    [shouldScaleUp] does not hold: no node is needed then. *)
Theorem no_scale_up_condition_no_node_needed (cfg : Config) (state : ClusterState)
    (metrics : ResourceMetrics) :
  scaleUpFires cfg state metrics = false ->
  GoInt.len (PendingPlaceholders state) <= GoInt.max_int ->
  nodesNeeded cfg state metrics = 0 /\ handleScaleUp cfg state metrics = (false, []).
Proof.
  unfold scaleUpFires, shouldScaleUp. cbv zeta. rewrite !orb_false_iff.
  intros [[[Hu Hb] Hc] Hm] Hpend.
  assert (Hn : nodesNeeded cfg state metrics = 0).
  { unfold nodesNeeded. cbv zeta. rewrite Hu, Hb, Hc, Hm. reflexivity. }
  split; [exact Hn|].
  pose proof (RunnerManagerSpec.len_nonneg (PendingPlaceholders state)) as Hp.
  unfold handleScaleUp. cbv zeta.
  rewrite (RunnerManagerSpec.placeholder_accounting_eq _ _ _ Hpend), Hn.
  destruct (Z.ltb_spec 0 (0 - GoInt.len (PendingPlaceholders state))); [lia|reflexivity].
Qed.

Lemma no_scale_up_condition_no_node_needed_witness :
  let state := stateOf cluster in
  handleScaleUp (config 80 0 0 0) state (calculateResourceMetrics state) = (false, []).
Proof.
  cbv zeta.
  apply (no_scale_up_condition_no_node_needed (config 80 0 0 0) (stateOf cluster)
           (calculateResourceMetrics (stateOf cluster))).
  - vm_compute. reflexivity.
  - vm_compute. discriminate.
Defined.

Lemma rejected_mono (cfg cfg' : Config) (metrics : ResourceMetrics) (node : Node) :
  F32.valid (hypotheticalAvailableCpu metrics node) = true ->
  F32.valid (hypotheticalAvailableMemoryGiB metrics node) = true ->
  0 <= MinIdleCpu cfg <= MinIdleCpu cfg' ->
  0 <= MinIdleMemory cfg <= MinIdleMemory cfg' ->
  rejected cfg metrics node = true -> rejected cfg' metrics node = true.
Proof.
  intros Vc Vm Hc Hm. rewrite !RunnerManagerSpec.rejected_iff. intros [H|H].
  - left. now apply (DeficitFacts.isCpuIdleTooLow_mono _ (MinIdleCpu cfg)).
  - right. now apply (DeficitFacts.isCpuIdleTooLow_mono _ (MinIdleMemory cfg)).
Qed.

(** X20: with the state and the metrics fixed, a configuration that asks
    for at least as much idle CPU and idle memory as another one deletes
    no placeholder in scale-down that the other one keeps: its batch is
    the batch of the other one with some pods left out.  The minima are
    not negative and the hypothetical availabilities are valid [float32]
    values. *)
Theorem scale_down_shrinks_with_every_minimum (cfg cfg' : Config) (state : ClusterState)
    (metrics : ResourceMetrics) :
  0 <= MinIdleCpu cfg <= MinIdleCpu cfg' ->
  0 <= MinIdleMemory cfg <= MinIdleMemory cfg' ->
  (forall r node, In r (DeletableRunners state) -> resolvedNode state r = Some node ->
     F32.valid (hypotheticalAvailableCpu metrics node) = true /\
     F32.valid (hypotheticalAvailableMemoryGiB metrics node) = true) ->
  sublist (placeholdersToDeleteInBatch cfg' state metrics)
          (placeholdersToDeleteInBatch cfg state metrics) /\
  (forall pod, In pod (placeholdersToDeleteInBatch cfg' state metrics) ->
               In pod (placeholdersToDeleteInBatch cfg state metrics)).
Proof.
  intros Hc Hm Hvalid.
  assert (Hsub : sublist (placeholdersToDeleteInBatch cfg' state metrics)
                         (placeholdersToDeleteInBatch cfg state metrics)).
  { unfold placeholdersToDeleteInBatch. rewrite !RunnerManagerSpec.scaleDown_fold.
    cbn [app]. induction (DeletableRunners state) as [|r l IH]; [constructor|].
    cbn [map concat]. apply sublist_app.
    - rewrite !candidate_resolvedNode.
      destruct (resolvedNode state r) as [node|] eqn:E; [|constructor].
      destruct (Hvalid r node ltac:(now left) E) as [Vc Vm].
      destruct (rejected cfg' metrics node) eqn:R'; [apply sublist_nil_l|].
      destruct (rejected cfg metrics node) eqn:R; [|reflexivity].
      rewrite (rejected_mono cfg cfg' metrics node Vc Vm Hc Hm R) in R'. discriminate.
    - apply IH. intros r' node Hin. apply Hvalid. now right. }
  split; [exact Hsub|].
  intros pod Hin. apply list_elem_of_In. apply list_elem_of_In in Hin.
  exact (elem_of_sublist _ _ _ Hin Hsub).
Qed.

Lemma scale_down_shrinks_with_every_minimum_witness :
  let state := stateOf cluster in
  let metrics := calculateResourceMetrics state in
  sublist (placeholdersToDeleteInBatch (config 80 0 16 32) state metrics)
          (placeholdersToDeleteInBatch (config 80 0 4 8) state metrics).
Proof.
  cbv zeta.
  refine (proj1 (scale_down_shrinks_with_every_minimum (config 80 0 4 8) (config 80 0 16 32)
                   (stateOf cluster) (calculateResourceMetrics (stateOf cluster)) _ _ _)).
  - cbn [MinIdleCpu config]. lia.
  - cbn [MinIdleMemory config]. lia.
  - intros r node Hin E. vm_compute in Hin. destruct Hin as [<-|[]].
    vm_compute in E. injection E as <-. split; vm_compute; reflexivity.
Defined.
(** ** getNodeAllocatableResources: whole cores and whole GiB *)

(** The conversion to [float32] of an integer with at most 24 significant
    bits is exact. *)
Lemma of_int_exact (m j : Z) :
  0 < m < 2 ^ 24 -> 0 <= j <= 100 ->
  exists M e,
    F32.of_int (m * 2 ^ j) = S754_finite false M e /\
    Z.pos M * 2 ^ (e + 149) = m * 2 ^ j * 2 ^ 149 /\ -149 <= e.
Proof.
  intros Hm Hj. destruct DeficitFacts.prec32 as [P1 P2].
  pose proof (RoundingFacts.Zdigits2_bounds m ltac:(lia)) as [Hlo Hhi].
  set (dm := Zdigits2 m) in *.
  assert (Hdm : 1 <= dm <= 24).
  { split.
    - destruct (Z.le_gt_cases 1 dm) as [H|H]; [exact H|].
      assert (2 ^ dm <= 2 ^ 0) by (apply Z.pow_le_mono_r; lia).
      change (2 ^ 0) with 1 in *. lia.
    - destruct (Z.le_gt_cases dm 24) as [H|H]; [exact H|].
      assert (2 ^ 24 <= 2 ^ (dm - 1)) by (apply Z.pow_le_mono_r; lia). lia. }
  set (M := m * 2 ^ (24 - dm)). set (e := j + dm - 24).
  assert (Hp : 0 < 2 ^ (24 - dm)) by (apply Z.pow_pos_nonneg; lia).
  assert (HM : 0 < M) by (unfold M; nia).
  assert (HMhi : M < 2 ^ 24).
  { unfold M. replace (2 ^ 24) with (2 ^ dm * 2 ^ (24 - dm))
      by (rewrite <- Z.pow_add_r by lia; f_equal; lia). nia. }
  assert (HMlo : 2 ^ 23 <= M).
  { unfold M. replace (2 ^ 23) with (2 ^ (dm - 1) * 2 ^ (24 - dm))
      by (rewrite <- Z.pow_add_r by lia; f_equal; lia). nia. }
  assert (Hval : M * 2 ^ (e + 149) = m * 2 ^ j * 2 ^ 149).
  { unfold M, e. rewrite <- !Z.mul_assoc, <- !Z.pow_add_r by lia. do 2 f_equal. lia. }
  exists (Z.to_pos M), e. rewrite Z2Pos.id by lia.
  split; [|split; [exact Hval|unfold e; lia]].
  rewrite DeficitFacts.of_int_Rs by nia.
  assert (G : Rounding.good F32.prec F32.emax (S754_finite false (Z.to_pos M) e)).
  { cbn [Rounding.good]. rewrite Z2Pos.id by lia. rewrite RoundingFacts.emin_spec.
    unfold F32.prec, F32.emax, e. change (24 - 1) with 23. repeat split; try lia; try (intros _; exact HMlo). }
  assert (Hi : Rounding.ival F32.prec F32.emax (S754_finite false (Z.to_pos M) e)
               = m * 2 ^ j * 2 ^ 149).
  { cbn [Rounding.ival]. rewrite Z2Pos.id by lia. rewrite RoundingFacts.emin_spec.
    unfold F32.prec, F32.emax. replace (e - (3 - 128 - 24)) with (e + 149) by lia.
    exact Hval. }
  rewrite <- Hi. exact (RoundingFacts.Rs_ival _ _ P1 P2 _ G eq_refl).
Qed.

(** The quotient of two [float32] values that hold [k * c] and [c] is the
    [float32] of [k]. *)
Lemma div_exact (k c : Z) (M1 M2 : positive) (e1 e2 : Z) :
  0 <= k ->
  F32.of_int (k * c) = S754_finite false M1 e1 ->
  Z.pos M1 * 2 ^ (e1 + 149) = k * c * 2 ^ 149 -> -149 <= e1 ->
  F32.of_int c = S754_finite false M2 e2 ->
  Z.pos M2 * 2 ^ (e2 + 149) = c * 2 ^ 149 -> -149 <= e2 ->
  F32.div (F32.of_int (k * c)) (F32.of_int c) = F32.of_int k.
Proof.
  intros Hk E1 H1 L1 E2 H2 L2. destruct DeficitFacts.prec32 as [P1 P2].
  rewrite E1, E2. unfold F32.div. rewrite (RoundingFacts.SFdiv_Rs _ _ P1 P2).
  rewrite (DeficitFacts.of_int_Rs k Hk). f_equal.
  unfold Rounding.Sdiv. rewrite RoundingFacts.emin_spec. unfold F32.prec, F32.emax.
  set (d := e1 - e2 - (3 - 128 - 24)).
  set (a := Z.max d 0). set (b := Z.max (- d) 0).
  assert (Hab : 0 <= a /\ 0 <= b /\ a - b = d) by (unfold a, b; lia).
  destruct Hab as (Ha & Hb & Hd).
  assert (HB : 0 < 2 ^ b) by (apply Z.pow_pos_nonneg; lia).
  assert (HP2 : 0 < 2 ^ (e2 + 149)) by (apply Z.pow_pos_nonneg; lia).
  assert (Ea : 2 ^ a * 2 ^ (e2 + 149) = 2 ^ b * 2 ^ (e1 + 149) * 2 ^ 149).
  { rewrite <- !Z.pow_add_r by lia. f_equal. unfold d in Hd. lia. }
  assert (Hq : Z.pos M1 * 2 ^ a = k * 2 ^ 149 * (Z.pos M2 * 2 ^ b)).
  { apply (Z.mul_reg_r _ _ (2 ^ (e2 + 149))); [lia|].
    replace (Z.pos M1 * 2 ^ a * 2 ^ (e2 + 149))
      with (Z.pos M1 * (2 ^ a * 2 ^ (e2 + 149))) by ring.
    rewrite Ea.
    replace (Z.pos M1 * (2 ^ b * 2 ^ (e1 + 149) * 2 ^ 149))
      with (Z.pos M1 * 2 ^ (e1 + 149) * (2 ^ b * 2 ^ 149)) by ring.
    rewrite H1.
    replace (k * 2 ^ 149 * (Z.pos M2 * 2 ^ b) * 2 ^ (e2 + 149))
      with (k * 2 ^ 149 * 2 ^ b * (Z.pos M2 * 2 ^ (e2 + 149))) by ring.
    rewrite H2. ring. }
  replace (2 * Z.pos M1 * 2 ^ a) with (2 * (Z.pos M1 * 2 ^ a)) by ring.
  rewrite Hq.
  replace (2 * (k * 2 ^ 149 * (Z.pos M2 * 2 ^ b)))
    with (2 * (k * 2 ^ 149) * (Z.pos M2 * 2 ^ b)) by ring.
  rewrite RoundingFacts.stk_exact by lia. ring.
Qed.

(** X21: a node with a whole number of allocatable cores, up to 16777, is
    reported with exactly that number of cores, and a node with a whole
    number of GiB of allocatable memory, below [2 ^ 24], with exactly that
    number of GiB: the conversions and the divisions round nothing. *)
Theorem whole_cores_and_GiB_are_exact (node : Node) :
  (forall cores, 0 <= cores -> 1000 * cores < 2 ^ 24 ->
     cpuMilli node = 1000 * cores -> nodeCpu node = F32.of_int cores) /\
  (forall GiB, 0 <= GiB < 2 ^ 24 ->
     memoryBytes node = GiB * (1024 * 1024 * 1024) -> nodeMem node = F32.of_int GiB).
Proof.
  unfold nodeCpu, nodeMem, getNodeAllocatableResources, cpuMilli, memoryBytes.
  cbv zeta. cbn [fst snd]. split.
  - intros k Hk Hlt ->.
    destruct (Z.eq_dec k 0) as [->|Hne];
      [change (1000 * 0) with 0; apply FloatFacts.zero_cores|].
    destruct (of_int_exact (k * 1000) 0 ltac:(lia) ltac:(lia)) as (M1 & e1 & E1 & H1 & L1).
    destruct (of_int_exact 1000 0 ltac:(lia) ltac:(lia)) as (M2 & e2 & E2 & H2 & L2).
    change (2 ^ 0) with 1 in *. rewrite !Z.mul_1_r in *.
    replace (1000 * k) with (k * 1000) by ring.
    now apply (div_exact k 1000 M1 M2 e1 e2).
  - intros g Hg ->.
    destruct (Z.eq_dec g 0) as [->|Hne];
      [change (0 * (1024 * 1024 * 1024)) with 0; apply FloatFacts.zero_GiB|].
    change (1024 * 1024 * 1024) with (2 ^ 30).
    destruct (of_int_exact g 30 ltac:(lia) ltac:(lia)) as (M1 & e1 & E1 & H1 & L1).
    destruct (of_int_exact 1 30 ltac:(lia) ltac:(lia)) as (M2 & e2 & E2 & H2 & L2).
    rewrite !Z.mul_1_l in *.
    now apply (div_exact g (2 ^ 30) M1 M2 e1 e2).
Qed.

Lemma whole_cores_and_GiB_are_exact_witness :
  nodeCpu nodeA = F32.of_int 8 /\ nodeMem nodeA = F32.of_int 16.
Proof.
  destruct (whole_cores_and_GiB_are_exact nodeA) as [Hc Hm]. split.
  - apply Hc; [lia|lia|vm_compute; reflexivity].
  - apply Hm; [lia|vm_compute; reflexivity].
Defined.
End RunnerManagerProps.

(** * Further properties of the credential resolution *)

Module ProxyAuthProps.

Import ProxyAuth Scenarios.

Section Attempts.

Variable pkg : Package.
Variable p : Proxy.

(** ** The four credential attempts, one by one *)

Lemma tryBearer_cases ctx id errs :
  ctx_Calls (fst (tryBearer pkg p ctx id errs)) =
    ctx_Calls ctx
    ++ (if bearerPresented ctx then [CallBearerTokenValid id (bearerTokenOf pkg ctx)]
        else []) /\
  ctx_Request (fst (tryBearer pkg p ctx id errs)) = ctx_Request ctx /\
  (bearerAccepted pkg p ctx id = true /\
   snd (tryBearer pkg p ctx id errs) = Return id false None
   \/ bearerAccepted pkg p ctx id = false /\
      exists errs', snd (tryBearer pkg p ctx id errs) = Continue errs').
Proof.
  unfold tryBearer, bearerAccepted, bearerPresented, bearerTokenOf. cbv zeta.
  destruct (negb _ && HasPrefix _ _); cbn [andb fst snd].
  - destruct (getSandboxBearerTokenValid p id _) as [[[]|]|]; cbn [fst snd];
      (split; [reflexivity|]); (split; [reflexivity|]); eauto.
  - split; [now rewrite app_nil_r|]. split; [reflexivity|]. eauto.
Qed.

Lemma tryAuthKeyHeader_cases ctx id errs :
  ctx_Calls (fst (tryAuthKeyHeader pkg p ctx id errs)) =
    ctx_Calls ctx
    ++ (if String.eqb (headerGet (SANDBOX_AUTH_KEY_HEADER pkg) ctx) "" then []
        else [CallAuthKeyValid id (headerGet (SANDBOX_AUTH_KEY_HEADER pkg) ctx)]) /\
  ctx_Request (fst (tryAuthKeyHeader pkg p ctx id errs)) =
    (if String.eqb (headerGet (SANDBOX_AUTH_KEY_HEADER pkg) ctx) "" then ctx_Request ctx
     else ctx_Request (headerDel (SANDBOX_AUTH_KEY_HEADER pkg) ctx)) /\
  (headerKeyAccepted pkg p ctx id = true /\
   snd (tryAuthKeyHeader pkg p ctx id errs) = Return id false None
   \/ headerKeyAccepted pkg p ctx id = false /\
      exists errs', snd (tryAuthKeyHeader pkg p ctx id errs) = Continue errs').
Proof.
  unfold tryAuthKeyHeader, headerKeyAccepted. cbv zeta.
  destruct (String.eqb (headerGet _ ctx) ""); cbn [negb andb fst snd].
  - split; [now rewrite app_nil_r|]. split; [reflexivity|]. eauto.
  - destruct (getSandboxAuthKeyValid p id _) as [[[]|]|]; cbn [fst snd];
      (split; [reflexivity|]); (split; [reflexivity|]); eauto.
Qed.

Lemma tryAuthKeyQuery_cases ctx id errs :
  ctx_Calls (fst (tryAuthKeyQuery pkg p ctx id errs)) =
    ctx_Calls ctx
    ++ (if String.eqb (queryGet (SANDBOX_AUTH_KEY_QUERY_PARAM pkg) ctx) "" then []
        else [CallAuthKeyValid id (queryGet (SANDBOX_AUTH_KEY_QUERY_PARAM pkg) ctx)]) /\
  ctx_Request (fst (tryAuthKeyQuery pkg p ctx id errs)) =
    (if queryKeyAccepted pkg p ctx id
     then ctx_Request (queryDel (SANDBOX_AUTH_KEY_QUERY_PARAM pkg) ctx)
     else ctx_Request ctx) /\
  (queryKeyAccepted pkg p ctx id = true /\
   snd (tryAuthKeyQuery pkg p ctx id errs) = Return id false None
   \/ queryKeyAccepted pkg p ctx id = false /\
      exists errs', snd (tryAuthKeyQuery pkg p ctx id errs) = Continue errs').
Proof.
  unfold tryAuthKeyQuery, queryKeyAccepted. cbv zeta.
  destruct (String.eqb (queryGet _ ctx) ""); cbn [negb andb fst snd].
  - split; [now rewrite app_nil_r|]. split; [reflexivity|]. eauto.
  - destruct (getSandboxAuthKeyValid p id _) as [[[]|]|]; cbn [fst snd];
      (split; [reflexivity|]); (split; [reflexivity|]); eauto.
Qed.

Lemma tryCookie_cases ctx id errs :
  ctx_Calls (fst (tryCookie pkg p ctx id errs)) =
    ctx_Calls ctx
    ++ match cookieGet (SANDBOX_AUTH_COOKIE_NAME pkg +:+ id) ctx with
       | Some cookieValue =>
           if String.eqb cookieValue "" then []
           else [CallCookieDecode (SANDBOX_AUTH_COOKIE_NAME pkg +:+ id) cookieValue]
       | None => []
       end /\
  ctx_Request (fst (tryCookie pkg p ctx id errs)) = ctx_Request ctx /\
  (cookieAccepted pkg p ctx id = true /\
   snd (tryCookie pkg p ctx id errs) = Return id false None
   \/ cookieAccepted pkg p ctx id = false /\
      exists errs', snd (tryCookie pkg p ctx id errs) = Continue errs').
Proof.
  unfold tryCookie, cookieAccepted. cbv zeta.
  destruct (cookieGet _ ctx) as [v|];
    [|split; [now rewrite app_nil_r|]; split; [reflexivity|]; eauto].
  destruct (String.eqb v ""); cbn [negb andb fst snd];
    [split; [now rewrite app_nil_r|]; split; [reflexivity|]; eauto|].
  destruct (secureCookie_Decode p _ v) as [d|]; cbn [fst snd];
    [|split; [reflexivity|]; split; [reflexivity|]; eauto].
  destruct (String.eqb_spec d id) as [->|Hne]; cbn [fst snd];
    (split; [reflexivity|]); (split; [reflexivity|]); eauto.
Qed.

(** The acceptance of a credential only depends on the part of the
    request that carries it. *)
Lemma headerKeyAccepted_request a b id :
  ctx_Request a = ctx_Request b ->
  headerKeyAccepted pkg p a id = headerKeyAccepted pkg p b id.
Proof. intros H. unfold headerKeyAccepted, headerGet. now rewrite H. Qed.

Lemma queryKeyAccepted_query a b id :
  Query (ctx_Request a) = Query (ctx_Request b) ->
  queryKeyAccepted pkg p a id = queryKeyAccepted pkg p b id.
Proof. intros H. unfold queryKeyAccepted, queryGet. now rewrite H. Qed.

Lemma cookieAccepted_cookies a b id :
  Cookies (ctx_Request a) = Cookies (ctx_Request b) ->
  cookieAccepted pkg p a id = cookieAccepted pkg p b id.
Proof. intros H. unfold cookieAccepted, cookieGet. now rewrite H. Qed.

(** ** The four attempts together *)

Lemma credentialAttempts_cases ctx id :
  ctx_Calls (fst (credentialAttempts pkg p ctx id)) =
    ctx_Calls ctx ++ credentialCalls pkg p ctx id /\
  ctx_Request (fst (credentialAttempts pkg p ctx id)) = forwardedRequest pkg p ctx id /\
  (credentialAccepted pkg p ctx id = true /\
   snd (credentialAttempts pkg p ctx id) = Return id false None
   \/ credentialAccepted pkg p ctx id = false /\
      exists errs, snd (credentialAttempts pkg p ctx id) = Continue errs).
Proof.
  unfold credentialAttempts, credentialAccepted, forwardedRequest, credentialCalls. cbv zeta.
  destruct (tryBearer_cases ctx id []) as [C1 [R1 [[A1 F1]|[A1 [e1 F1]]]]];
    destruct (tryBearer pkg p ctx id []) as [c1 f1]; cbn [fst snd] in C1, R1, F1; subst f1;
    rewrite A1; cbn [andThen orb fst snd];
    [split; [now rewrite app_nil_r|]; split; [exact R1|]; eauto|].
  destruct (tryAuthKeyHeader_cases c1 id e1) as [C2 [R2 A2]].
  rewrite (headerKeyAccepted_request c1 ctx id R1) in A2.
  assert (Hh : headerGet (SANDBOX_AUTH_KEY_HEADER pkg) c1
               = headerGet (SANDBOX_AUTH_KEY_HEADER pkg) ctx)
    by (unfold headerGet; now rewrite R1).
  rewrite Hh in R2, C2. rewrite C1 in C2.
  assert (R2' : ctx_Request (fst (tryAuthKeyHeader pkg p c1 id e1)) =
                {| Header := if String.eqb (headerGet (SANDBOX_AUTH_KEY_HEADER pkg) ctx) ""
                             then Header (ctx_Request ctx)
                             else delete (SANDBOX_AUTH_KEY_HEADER pkg)
                                         (Header (ctx_Request ctx));
                   Query := Query (ctx_Request ctx);
                   Cookies := Cookies (ctx_Request ctx);
                   Host := Host (ctx_Request ctx) |}).
  { rewrite R2. destruct (String.eqb _ ""); cbn [headerDel setRequest ctx_Request];
      rewrite R1; [now destruct (ctx_Request ctx)|reflexivity]. }
  clear R2. destruct A2 as [[A2 F2]|[A2 [e2 F2]]];
    destruct (tryAuthKeyHeader pkg p c1 id e1) as [c2 f2]; cbn [fst snd] in C2, R2', F2;
    subst f2; rewrite A2; cbn [andThen orb negb andb fst snd];
    [split; [now rewrite C2, app_nil_r, <- app_assoc|]; split; [exact R2'|]; eauto|].
  destruct (tryAuthKeyQuery_cases c2 id e2) as [C3 [R3 A3]].
  assert (Hq : queryKeyAccepted pkg p c2 id = queryKeyAccepted pkg p ctx id)
    by (apply queryKeyAccepted_query; now rewrite R2').
  assert (Hqg : queryGet (SANDBOX_AUTH_KEY_QUERY_PARAM pkg) c2
                = queryGet (SANDBOX_AUTH_KEY_QUERY_PARAM pkg) ctx)
    by (unfold queryGet; now rewrite R2').
  rewrite Hq in R3, A3. rewrite Hqg, C2 in C3.
  destruct A3 as [[A3 F3]|[A3 [e3 F3]]];
    destruct (tryAuthKeyQuery pkg p c2 id e2) as [c3 f3]; cbn [fst snd] in C3, R3, F3;
    subst f3; rewrite A3 in *; cbn [andThen orb fst snd].
  - split; [now rewrite C3, app_nil_r, <- !app_assoc|]. split; [|eauto].
    rewrite R3. cbn [queryDel setRequest ctx_Request]. now rewrite R2'.
  - destruct (tryCookie_cases c3 id e3) as [C4 [R4 A4]].
    assert (Hc : cookieAccepted pkg p c3 id = cookieAccepted pkg p ctx id)
      by (apply cookieAccepted_cookies; now rewrite R3, R2').
    assert (Hcg : cookieGet (SANDBOX_AUTH_COOKIE_NAME pkg +:+ id) c3
                  = cookieGet (SANDBOX_AUTH_COOKIE_NAME pkg +:+ id) ctx)
      by (unfold cookieGet; now rewrite R3, R2').
    rewrite Hc in A4. rewrite Hcg, C3 in C4.
    split; [now rewrite C4, <- !app_assoc|]. rewrite R4, R3. split; [exact R2'|].
    destruct A4 as [[A4 F4]|[A4 F4]]; rewrite A4; eauto.
Qed.

(** ** The token exchange and the redirect *)

Lemma trySignedToken_cases ctx id port errs :
  ctx_Calls (fst (trySignedToken pkg p ctx id port errs)) =
    ctx_Calls ctx ++ exchangeCalls pkg p id port /\
  ctx_Request (fst (trySignedToken pkg p ctx id port errs)) = ctx_Request ctx /\
  ctx_Redirect (fst (trySignedToken pkg p ctx id port errs)) = ctx_Redirect ctx /\
  match GetSandboxIdFromSignedPreviewUrlToken p id port with
  | Ok sandboxId =>
      match secureCookie_Encode p (SANDBOX_AUTH_COOKIE_NAME pkg +:+ sandboxId) sandboxId with
      | Ok encoded =>
          exchangeAccepted pkg p id port = true /\
          snd (trySignedToken pkg p ctx id port errs) = Return sandboxId false None /\
          ctx_SetCookies (fst (trySignedToken pkg p ctx id port errs)) =
            ctx_SetCookies ctx
            ++ [issuedCookie pkg p (Host (ctx_Request ctx)) sandboxId encoded]
      | Err err =>
          exchangeAccepted pkg p id port = false /\
          snd (trySignedToken pkg p ctx id port errs) =
            Continue (errs ++ ["failed to encode cookie: " +:+ err]) /\
          ctx_SetCookies (fst (trySignedToken pkg p ctx id port errs)) = ctx_SetCookies ctx
      end
  | Err err =>
      exchangeAccepted pkg p id port = false /\
      snd (trySignedToken pkg p ctx id port errs) =
        Continue (errs ++ ["failed to get sandbox ID: " +:+ err +:+ ". Is the token expired?"]) /\
      ctx_SetCookies (fst (trySignedToken pkg p ctx id port errs)) = ctx_SetCookies ctx
  end.
Proof.
  unfold trySignedToken, getSandboxIdFromSignedPreviewUrlToken, exchangeCalls,
    exchangeAccepted, issuedCookie. cbv zeta.
  destruct (GetSandboxIdFromSignedPreviewUrlToken p id port) as [sid|err]; cbn [fst snd].
  - destruct (secureCookie_Encode p _ sid) as [enc|err]; cbn [fst snd];
      cbn [setCookie recordCall ctx_Calls ctx_Request ctx_Redirect ctx_SetCookies];
      rewrite <- app_assoc; repeat split; reflexivity.
  - cbn [recordCall ctx_Calls ctx_Request ctx_Redirect ctx_SetCookies].
    repeat split; reflexivity.
Qed.

Lemma redirectToAuthUrl_cases ctx id errs :
  ctx_Calls (fst (redirectToAuthUrl p ctx id errs)) = ctx_Calls ctx ++ [CallGetAuthUrl id] /\
  ctx_SetCookies (fst (redirectToAuthUrl p ctx id errs)) = ctx_SetCookies ctx /\
  match getAuthUrl p (ctx_Request ctx) id with
  | Ok authUrl =>
      snd (redirectToAuthUrl p ctx id errs) = (id, true, Some (errorMsg errs)) /\
      ctx_Redirect (fst (redirectToAuthUrl p ctx id errs))
        = Some (StatusTemporaryRedirect, authUrl)
  | Err err =>
      snd (redirectToAuthUrl p ctx id errs)
        = (id, false, Some ("failed to get auth URL: " +:+ err)) /\
      ctx_Redirect (fst (redirectToAuthUrl p ctx id errs)) = ctx_Redirect ctx
  end.
Proof.
  unfold redirectToAuthUrl. cbv zeta.
  cbn [recordCall ctx_Request].
  destruct (getAuthUrl p (ctx_Request ctx) id); cbn [fst snd];
    cbn [redirect recordCall ctx_Calls ctx_SetCookies ctx_Redirect];
    repeat split; reflexivity.
Qed.

(** ** The whole resolution *)

(** What [Authenticate] answers and leaves behind, by what is accepted. *)
Lemma Authenticate_cases ctx id port :
  let ctx' := fst (Authenticate pkg p ctx id port) in
  let res := snd (Authenticate pkg p ctx id port) in
  ctx_Calls ctx' = ctx_Calls ctx ++ resolutionCalls pkg p ctx id port /\
  ctx_Request ctx' = forwardedRequest pkg p ctx id /\
  (if credentialAccepted pkg p ctx id then
     res = (id, false, None) /\
     ctx_SetCookies ctx' = ctx_SetCookies ctx /\ ctx_Redirect ctx' = ctx_Redirect ctx
   else
     match GetSandboxIdFromSignedPreviewUrlToken p id port with
     | Ok sandboxId =>
         match secureCookie_Encode p (SANDBOX_AUTH_COOKIE_NAME pkg +:+ sandboxId)
                                   sandboxId with
         | Ok encoded =>
             res = (sandboxId, false, None) /\
             ctx_SetCookies ctx' =
               ctx_SetCookies ctx
               ++ [issuedCookie pkg p (Host (ctx_Request ctx)) sandboxId encoded] /\
             ctx_Redirect ctx' = ctx_Redirect ctx
         | Err _ => True
         end
     | Err _ => True
     end /\
     (exchangeAccepted pkg p id port = false ->
      ctx_SetCookies ctx' = ctx_SetCookies ctx /\
      match getAuthUrl p (forwardedRequest pkg p ctx id) id with
      | Ok authUrl =>
          ctx_Redirect ctx' = Some (StatusTemporaryRedirect, authUrl) /\
          exists errs reason, res = (id, true, Some (errorMsg (errs ++ [reason])))
      | Err err =>
          ctx_Redirect ctx' = ctx_Redirect ctx /\
          res = (id, false, Some ("failed to get auth URL: " +:+ err))
      end)).
Proof.
  cbv zeta. unfold Authenticate, attempts, resolutionCalls.
  destruct (credentialAttempts_cases ctx id) as [C1 [R1 A1]].
  pose proof (ProxyAuthSpec.credentialAttempts_preserves pkg p ctx id) as [P1 P2 P3 _].
  destruct (credentialAttempts pkg p ctx id) as [c1 f1]. cbn [fst snd] in *.
  destruct A1 as [[A1 F1]|[A1 [errs F1]]]; subst f1; rewrite A1; cbn [andThen fst snd].
  - rewrite app_nil_r. repeat split; assumption.
  - destruct (trySignedToken_cases c1 id port errs) as (C2 & R2 & D2 & H2).
    destruct (trySignedToken pkg p c1 id port errs) as [c2 f2]. cbn [fst snd] in *.
    rewrite C1 in C2. rewrite R1 in R2. rewrite P2 in D2. rewrite P1, P3 in H2.
    destruct (GetSandboxIdFromSignedPreviewUrlToken p id port) as [sid|e1].
    + destruct (secureCookie_Encode p _ sid) as [enc|e2].
      * destruct H2 as (E & -> & S2). rewrite E. cbn [fst snd].
        split; [now rewrite C2, app_nil_r, <- app_assoc|]. split; [exact R2|].
        split; [repeat split; assumption|]. discriminate.
      * destruct H2 as (E & -> & S2). rewrite E.
        destruct (redirectToAuthUrl_cases c2 id (errs ++ ["failed to encode cookie: " +:+ e2]))
          as (C3 & S3 & H3).
        rewrite R2 in H3.
        split; [now rewrite C3, C2, <- !app_assoc|].
        split; [now rewrite ProxyAuthSpec.redirectToAuthUrl_request|].
        split; [exact I|]. intros _. split; [now rewrite S3, S2|].
        destruct (getAuthUrl p _ id); destruct H3 as [H3 H4].
        -- split; [exact H4|]. eauto.
        -- split; [now rewrite H4|exact H3].
    + destruct H2 as (E & -> & S2). rewrite E.
      destruct (redirectToAuthUrl_cases c2 id
                  (errs ++ ["failed to get sandbox ID: " +:+ e1 +:+ ". Is the token expired?"]))
        as (C3 & S3 & H3).
      rewrite R2 in H3.
      split; [now rewrite C3, C2, <- !app_assoc|].
      split; [now rewrite ProxyAuthSpec.redirectToAuthUrl_request|].
      split; [exact I|]. intros _. split; [now rewrite S3, S2|].
      destruct (getAuthUrl p _ id); destruct H3 as [H3 H4].
      * split; [exact H4|]. eauto.
      * split; [now rewrite H4|exact H3].
Qed.

End Attempts.
(** ** Which attempt decides *)

(** The credential attempts only call the validators and the decoder. *)
Lemma credentialCalls_kind (pkg : Package) (p : Proxy) (ctx : Context) (id : string)
    (c : Call) :
  In c (credentialCalls pkg p ctx id) ->
  match c with
  | CallSignedPreviewUrlToken _ _ | CallCookieEncode _ _ | CallGetAuthUrl _ => False
  | _ => True
  end.
Proof.
  unfold credentialCalls.
  repeat match goal with
  | |- context [if ?b then _ else _] => destruct b
  | |- context [match ?o with Some _ => _ | None => _ end] => destruct o
  end; cbn [app In]; intuition (subst; exact I).
Qed.

(** X22: when one of the four credentials of the request is accepted,
    [Authenticate] succeeds with the path token as sandbox id, without
    error and without redirect; it issues no cookie, and the only
    collaborators called are the validators and the cookie decoder of the
    credentials presented up to the accepted one: the token exchange is
    not attempted. *)
Theorem accepted_credential_needs_no_token_exchange
    (pkg : Package) (p : Proxy) (ctx : Context) (id : string) (port : spec_float) :
  credentialAccepted pkg p ctx id = true ->
  Authenticate pkg p ctx id port = (fst (credentialAttempts pkg p ctx id), (id, false, None)) /\
  ctx_SetCookies (fst (Authenticate pkg p ctx id port)) = ctx_SetCookies ctx /\
  ctx_Redirect (fst (Authenticate pkg p ctx id port)) = ctx_Redirect ctx /\
  ctx_Calls (fst (Authenticate pkg p ctx id port)) =
    ctx_Calls ctx ++ credentialCalls pkg p ctx id /\
  (forall c, In c (credentialCalls pkg p ctx id) ->
     match c with
     | CallSignedPreviewUrlToken _ _ | CallCookieEncode _ _ | CallGetAuthUrl _ => False
     | _ => True
     end).
Proof.
  intros H.
  destruct (Authenticate_cases pkg p ctx id port) as (C & R & A). cbv zeta in *.
  rewrite H in A. destruct A as (A1 & A2 & A3).
  unfold resolutionCalls in C. rewrite H, app_nil_r in C.
  split; [|split; [exact A2|split; [exact A3|split; [exact C|]]]].
  - unfold Authenticate, attempts in *.
    destruct (credentialAttempts_cases pkg p ctx id) as (_ & _ & [[_ F]|[F _]]);
      [|congruence].
    destruct (credentialAttempts pkg p ctx id) as [c1 f1]. cbn [fst snd] in *. subst f1.
    reflexivity.
  - apply credentialCalls_kind.
Qed.

Lemma accepted_credential_needs_no_token_exchange_witness :
  Authenticate pkg0 proxy0 (context requestBadHeaderGoodQuery) "sandbox-1" port0 =
  (fst (credentialAttempts pkg0 proxy0 (context requestBadHeaderGoodQuery) "sandbox-1"),
   ("sandbox-1", false, None)).
Proof.
  apply (accepted_credential_needs_no_token_exchange pkg0 proxy0
           (context requestBadHeaderGoodQuery) "sandbox-1" port0).
  vm_compute. reflexivity.
Defined.

(** X23: the request that [Authenticate] leaves for forwarding is the
    request it received, except that the auth-key header is removed as
    soon as the header attempt is reached with a non-empty key, and that
    the auth-key query parameter is removed when the query attempt
    succeeds.  A query key that is rejected, or that is not reached,
    stays in the query string; cookies, host and every other header and
    parameter are untouched. *)
Theorem only_the_auth_key_is_removed_from_the_request
    (pkg : Package) (p : Proxy) (ctx : Context) (id : string) (port : spec_float) :
  let r := ctx_Request ctx in
  let r' := ctx_Request (fst (Authenticate pkg p ctx id port)) in
  r' = forwardedRequest pkg p ctx id /\
  Cookies r' = Cookies r /\ Host r' = Host r /\
  (forall k, k <> SANDBOX_AUTH_KEY_HEADER pkg -> Header r' !! k = Header r !! k) /\
  (forall k, k <> SANDBOX_AUTH_KEY_QUERY_PARAM pkg -> Query r' !! k = Query r !! k) /\
  (Query r' !! SANDBOX_AUTH_KEY_QUERY_PARAM pkg = None \/
   Query r' !! SANDBOX_AUTH_KEY_QUERY_PARAM pkg = Query r !! SANDBOX_AUTH_KEY_QUERY_PARAM pkg).
Proof.
  cbv zeta. destruct (Authenticate_cases pkg p ctx id port) as (_ & R & _). cbv zeta in R.
  rewrite R. split; [reflexivity|]. unfold forwardedRequest. cbv zeta.
  destruct (bearerAccepted pkg p ctx id); [repeat split; auto|].
  cbn [Cookies Host Header Query].
  split; [reflexivity|]. split; [reflexivity|]. split; [|split].
  - intros k Hk. destruct (String.eqb _ ""); [reflexivity|]. now rewrite lookup_delete_ne.
  - intros k Hk. destruct (negb _ && _); [|reflexivity]. now rewrite lookup_delete_ne.
  - destruct (negb _ && _); [left; apply lookup_delete_eq|now right].
Qed.

Lemma only_the_auth_key_is_removed_from_the_request_witness :
  let r' := ctx_Request (fst (Authenticate pkg0 proxy0 (context requestBadHeaderGoodQuery)
                                "sandbox-1" port0)) in
  Query r' !! "page" = Some ["2"] /\ Query r' !! "DAYTONA_SANDBOX_AUTH_KEY" = None /\
  Header r' !! "X-Daytona-Preview-Token" = None.
Proof.
  cbv zeta.
  destruct (only_the_auth_key_is_removed_from_the_request pkg0 proxy0
              (context requestBadHeaderGoodQuery) "sandbox-1" port0) as (R & _ & _ & _ & Q & _).
  cbv zeta in R, Q. split; [|rewrite R; vm_compute; split; reflexivity].
  rewrite Q by discriminate. vm_compute. reflexivity.
Defined.

(** ** The token exchange *)

(** X24: when no credential is accepted, the API resolves the path token
    and the cookie can be encoded, [Authenticate] succeeds with the
    sandbox id that the API returned, without error and without redirect,
    and issues exactly one cookie: named after the sandbox id, holding the
    encoded sandbox id, valid for 3600 seconds on path [/] and on the
    cookie domain of the request's host, HTTP-only, and secure when TLS
    is enabled. *)
Theorem token_exchange_issues_the_cookie
    (pkg : Package) (p : Proxy) (ctx : Context) (id : string) (port : spec_float)
    (sandboxId encoded : string) :
  credentialAccepted pkg p ctx id = false ->
  GetSandboxIdFromSignedPreviewUrlToken p id port = Ok sandboxId ->
  secureCookie_Encode p (SANDBOX_AUTH_COOKIE_NAME pkg +:+ sandboxId) sandboxId = Ok encoded ->
  snd (Authenticate pkg p ctx id port) = (sandboxId, false, None) /\
  ctx_SetCookies (fst (Authenticate pkg p ctx id port)) =
    ctx_SetCookies ctx
    ++ [{| cookie_Name := SANDBOX_AUTH_COOKIE_NAME pkg +:+ sandboxId;
           cookie_Value := encoded;
           cookie_MaxAge := 3600;
           cookie_Path := "/";
           cookie_Domain := getCookieDomain p (Host (ctx_Request ctx));
           cookie_Secure := EnableTLS p;
           cookie_HttpOnly := true |}] /\
  ctx_Redirect (fst (Authenticate pkg p ctx id port)) = ctx_Redirect ctx.
Proof.
  intros H Hs He.
  destruct (Authenticate_cases pkg p ctx id port) as (_ & _ & A). cbv zeta in A.
  rewrite H, Hs, He in A. destruct A as [A _]. exact A.
Qed.

Lemma token_exchange_issues_the_cookie_witness :
  snd (Authenticate pkg0 proxy0 (context requestNoCredentials) "signed-token" port0)
  = ("sandbox-1", false, None).
Proof.
  apply (token_exchange_issues_the_cookie pkg0 proxy0 (context requestNoCredentials)
           "signed-token" port0 "sandbox-1" "daytona-sandbox-auth-sandbox-1|sandbox-1").
  - vm_compute. reflexivity.
  - vm_compute. reflexivity.
  - vm_compute. reflexivity.
Defined.

Lemma cookieOnly_credentials (pkg : Package) (p : Proxy) (ctx : Context) (id : string) :
  cookieOnly pkg ctx ->
  bearerAccepted pkg p ctx id = false /\ headerKeyAccepted pkg p ctx id = false /\
  queryKeyAccepted pkg p ctx id = false /\
  credentialCalls pkg p ctx id =
    match cookieGet (SANDBOX_AUTH_COOKIE_NAME pkg +:+ id) ctx with
    | Some cookieValue =>
        if String.eqb cookieValue "" then []
        else [CallCookieDecode (SANDBOX_AUTH_COOKIE_NAME pkg +:+ id) cookieValue]
    | None => []
    end.
Proof.
  intros (H1 & H2 & H3).
  unfold credentialCalls, bearerAccepted, headerKeyAccepted, queryKeyAccepted, bearerPresented.
  cbv zeta. rewrite H1, H2, H3. cbn [String.eqb negb andb app]. repeat split; reflexivity.
Qed.

(** X25: the cookie that a successful token exchange issues opens the
    sandbox on later requests.  When the codec decodes what it has
    encoded, a later request for the sandbox id that carries the issued
    cookie, and no bearer token and no auth key, is authenticated by the
    cookie alone: the only collaborator called is the cookie decoder. *)
Theorem issued_cookie_authenticates_later_requests
    (pkg : Package) (p : Proxy) (ctx : Context) (id : string) (port : spec_float)
    (sandboxId encoded : string) :
  credentialAccepted pkg p ctx id = false ->
  GetSandboxIdFromSignedPreviewUrlToken p id port = Ok sandboxId ->
  secureCookie_Encode p (SANDBOX_AUTH_COOKIE_NAME pkg +:+ sandboxId) sandboxId = Ok encoded ->
  secureCookie_Decode p (SANDBOX_AUTH_COOKIE_NAME pkg +:+ sandboxId) encoded = Ok sandboxId ->
  encoded <> "" ->
  exists cookie,
    ctx_SetCookies (fst (Authenticate pkg p ctx id port)) = ctx_SetCookies ctx ++ [cookie] /\
    forall (later : Context) (port' : spec_float),
      cookieOnly pkg later ->
      Cookies (ctx_Request later) !! cookie_Name cookie = Some (cookie_Value cookie) ->
      snd (Authenticate pkg p later sandboxId port') = (sandboxId, false, None) /\
      ctx_Calls (fst (Authenticate pkg p later sandboxId port')) =
        ctx_Calls later ++ [CallCookieDecode (cookie_Name cookie) (cookie_Value cookie)] /\
      ctx_SetCookies (fst (Authenticate pkg p later sandboxId port')) = ctx_SetCookies later.
Proof.
  intros H Hs He Hd Hne.
  destruct (Authenticate_cases pkg p ctx id port) as (_ & _ & A). cbv zeta in A.
  rewrite H, Hs, He in A. destruct A as [(_ & A & _) _].
  eexists. split; [exact A|]. cbn [issuedCookie cookie_Name cookie_Value].
  intros later port' Hco Hcookie.
  destruct (cookieOnly_credentials pkg p later sandboxId Hco) as (B1 & B2 & B3 & B4).
  assert (Hacc : credentialAccepted pkg p later sandboxId = true).
  { unfold credentialAccepted. rewrite B1, B2, B3. cbn [orb].
    unfold cookieAccepted, cookieGet. rewrite Hcookie, Hd.
    destruct (String.eqb_spec encoded ""); [contradiction|]. cbn [negb andb].
    apply String.eqb_refl. }
  destruct (Authenticate_cases pkg p later sandboxId port') as (C & _ & A'). cbv zeta in *.
  rewrite Hacc in A'. destruct A' as (A1 & A2 & _).
  unfold resolutionCalls in C. rewrite Hacc, app_nil_r, B4 in C.
  unfold cookieGet in C. rewrite Hcookie in C.
  destruct (String.eqb_spec encoded ""); [contradiction|].
  repeat split; assumption.
Qed.

Lemma issued_cookie_authenticates_later_requests_witness :
  exists cookie,
    ctx_SetCookies (fst (Authenticate pkg0 proxy0 (context requestNoCredentials)
                           "signed-token" port0)) = [] ++ [cookie] /\
    snd (Authenticate pkg0 proxy0 (context requestWithIssuedCookie) "sandbox-1" port0)
    = ("sandbox-1", false, None).
Proof.
  destruct (issued_cookie_authenticates_later_requests pkg0 proxy0
              (context requestNoCredentials) "signed-token" port0 "sandbox-1"
              "daytona-sandbox-auth-sandbox-1|sandbox-1")
    as (cookie & Hc & Hl); try (vm_compute; reflexivity); [discriminate|].
  exists cookie. split; [exact Hc|].
  assert (Hcookie : cookie = issuedCookie pkg0 proxy0 "3000-sandbox-1.proxy.example"
                               "sandbox-1" "daytona-sandbox-auth-sandbox-1|sandbox-1").
  { vm_compute in Hc. now injection Hc as <-. }
  apply (Hl (context requestWithIssuedCookie) port0).
  - vm_compute. repeat split; reflexivity.
  - rewrite Hcookie. vm_compute. reflexivity.
Defined.

(** ** The answer *)

(** X26: [Authenticate] returns no error exactly when a credential or the
    token exchange is accepted, and then it does not redirect.  Otherwise
    it returns the path token and asks for the auth URL of the request as
    it now is: with the URL it redirects to it with status 307 and
    returns the aggregated error; without it, it does not redirect and
    returns the error of the auth URL alone, the reasons collected from
    the attempts being dropped. *)
Theorem authenticated_redirected_or_failed
    (pkg : Package) (p : Proxy) (ctx : Context) (id : string) (port : spec_float) :
  let ctx' := fst (Authenticate pkg p ctx id port) in
  let res := snd (Authenticate pkg p ctx id port) in
  (credentialAccepted pkg p ctx id || exchangeAccepted pkg p id port = true ->
   exists sandboxId,
     res = (sandboxId, false, None) /\ ctx_Redirect ctx' = ctx_Redirect ctx) /\
  (credentialAccepted pkg p ctx id || exchangeAccepted pkg p id port = false ->
   ctx_SetCookies ctx' = ctx_SetCookies ctx /\
   match getAuthUrl p (forwardedRequest pkg p ctx id) id with
   | Ok authUrl =>
       ctx_Redirect ctx' = Some (StatusTemporaryRedirect, authUrl) /\
       exists errs reason, res = (id, true, Some (errorMsg (errs ++ [reason])))
   | Err err =>
       ctx_Redirect ctx' = ctx_Redirect ctx /\
       res = (id, false, Some ("failed to get auth URL: " +:+ err))
   end).
Proof.
  cbv zeta. destruct (Authenticate_cases pkg p ctx id port) as (_ & _ & A). cbv zeta in A.
  destruct (credentialAccepted pkg p ctx id); cbn [orb].
  - split; [|discriminate]. intros _. destruct A as (A1 & _ & A3). eauto.
  - destruct A as [A B]. split.
    + intros E. unfold exchangeAccepted in E.
      destruct (GetSandboxIdFromSignedPreviewUrlToken p id port) as [sid|]; [|discriminate].
      destruct (secureCookie_Encode p _ sid); [|discriminate].
      destruct A as (A1 & _ & A3). eauto.
    + intros E. exact (B E).
Qed.

Lemma authenticated_redirected_or_failed_witness :
  snd (Authenticate pkg0 proxyNoAuthUrl (context requestBadKey) "sandbox-1" port0)
  = ("sandbox-1", false, Some "failed to get auth URL: 503 Service Unavailable").
Proof.
  destruct (authenticated_redirected_or_failed pkg0 proxyNoAuthUrl (context requestBadKey)
              "sandbox-1" port0) as [_ H].
  cbv zeta in H. destruct H as [_ H]; [vm_compute; reflexivity|].
  destruct H as [_ H]. exact H.
Defined.

(** ** The collaborators *)

Lemma credentialCalls_length (pkg : Package) (p : Proxy) (ctx : Context) (id : string) :
  (length (credentialCalls pkg p ctx id) <= 4)%nat.
Proof.
  unfold credentialCalls. rewrite !length_app.
  repeat match goal with
  | |- context [if ?b then _ else _] => destruct b
  | |- context [match ?o with Some _ => _ | None => _ end] => destruct o
  end; cbn [length app]; rewrite ?length_app; cbn [length]; lia.
Qed.

(** X27: the collaborator calls of one resolution, in the order they are
    made: one validator or decoder call for each credential that the
    request presents, up to the first accepted one; then, only when no
    credential is accepted, the token exchange, followed by the encoding
    of the cookie when the API resolves the token; then, only when
    nothing is accepted, the request for the auth URL.  At most seven
    calls are made. *)
Theorem collaborators_are_called_in_order
    (pkg : Package) (p : Proxy) (ctx : Context) (id : string) (port : spec_float) :
  ctx_Calls (fst (Authenticate pkg p ctx id port)) =
    ctx_Calls ctx ++ resolutionCalls pkg p ctx id port /\
  (length (resolutionCalls pkg p ctx id port) <= 7)%nat /\
  (In (CallSignedPreviewUrlToken id port) (resolutionCalls pkg p ctx id port) <->
   credentialAccepted pkg p ctx id = false) /\
  (In (CallGetAuthUrl id) (resolutionCalls pkg p ctx id port) <->
   credentialAccepted pkg p ctx id || exchangeAccepted pkg p id port = false).
Proof.
  destruct (Authenticate_cases pkg p ctx id port) as (C & _). cbv zeta in C.
  split; [exact C|].
  pose proof (credentialCalls_kind pkg p ctx id) as Hcred.
  pose proof (credentialCalls_length pkg p ctx id) as Hlen.
  unfold resolutionCalls, exchangeCalls, exchangeAccepted.
  split; [|split].
  - rewrite length_app.
    destruct (credentialAccepted pkg p ctx id); [cbn [length]; lia|].
    destruct (GetSandboxIdFromSignedPreviewUrlToken p id port) as [sid|];
      [destruct (secureCookie_Encode p _ sid)|]; cbn [length app]; lia.
  - rewrite in_app_iff. split.
    + intros [H|H]; [destruct (Hcred _ H)|].
      destruct (credentialAccepted pkg p ctx id); [destruct H|reflexivity].
    + intros ->. right. now left.
  - rewrite in_app_iff. split.
    + intros [H|H]; [destruct (Hcred _ H)|].
      destruct (credentialAccepted pkg p ctx id); [destruct H|]. cbn [orb].
      destruct (GetSandboxIdFromSignedPreviewUrlToken p id port) as [sid|];
        [|reflexivity].
      destruct (secureCookie_Encode p _ sid); [|reflexivity].
      cbn [app In] in H. destruct H as [H|[H|[]]]; discriminate.
    + destruct (credentialAccepted pkg p ctx id); [discriminate|]. cbn [orb].
      intros E. right.
      destruct (GetSandboxIdFromSignedPreviewUrlToken p id port) as [sid|];
        [destruct (secureCookie_Encode p _ sid); [discriminate|]|];
        cbn [app In]; auto.
Qed.

Lemma collaborators_are_called_in_order_witness :
  ctx_Calls (fst (Authenticate pkg0 proxy0 (context requestBadKey) "sandbox-1" port0)) =
  [CallAuthKeyValid "sandbox-1" "bad-key"; CallSignedPreviewUrlToken "sandbox-1" port0;
   CallGetAuthUrl "sandbox-1"].
Proof.
  destruct (collaborators_are_called_in_order pkg0 proxy0 (context requestBadKey)
              "sandbox-1" port0) as [H _].
  rewrite H. vm_compute. reflexivity.
Defined.
End ProxyAuthProps.
